(** * tradeflow-core: inventory ledger, full rebuild and FIFO cost matching

    A shallow embedding of
      - [inventoryService] (backend/utils/inventoryService.ts): the ledger
        and projection reconciler and the full rebuild;
      - [DecimalCalculator] (the module imported as [@/utils/decimalCalculator]):
        the decimal engine;
      - [AnalysisQueries.calculateFIFOData]: the FIFO cost matcher, and the
        customer and product reports built on its rows;
      - the [POST /], [PUT /:id], [DELETE /:id] and [POST /batch] handlers of
        the inbound and outbound routes, which write a source record and call
        the reconciler;
      - the [GET /total-cost-estimate] handler of the inventory routes.

    Modelling conventions.
      - Quantities are integers ([Z]); JavaScript arithmetic on them is exact.
      - Money values handled by decimal.js are exact rationals ([Q]); the
        20-significant-digit cap of the library, [NaN] and the infinities are
        outside the model.
      - A JavaScript object used as a dictionary ([totals], [inventoryState])
        is a [gmap]; where the order of its properties is read
        ([Object.values] in the reports) it is a list in creation order.
        Property names inherited from [Object.prototype] are outside the
        model.
      - The sums of the reports are plain JavaScript numbers: their
        arithmetic is a parameter ([Arithmetic]).
      - The database is an explicit store threaded through a state-and-error
        monad; every Prisma call may raise, driven by a fault plan, and
        [prisma.$transaction] restores the tables when its body raises. *)

From Stdlib Require Import ZArith QArith Qround Qabs String List Lia Lqa Permutation Sorted.
From stdpp Require Import base option list gmap strings fin_maps.
From Equations Require Import Equations.
From Equations.Prop Require Import Logic.

Local Open Scope string_scope.
Local Open Scope Z_scope.
Local Open Scope list_scope.

(* ===================================================================== *)
(** * JavaScript values                                                   *)
(* ===================================================================== *)

(** [!s] for a nullable string column: [null] and [''] are falsy. *)
Definition falsy_string (s : option string) : bool :=
  match s with
  | None => true
  | Some s => String.eqb s ""
  end.

(** [!n] for a nullable integer column: [null] and [0] are falsy. *)
Definition falsy_number (n : option Z) : bool :=
  match n with
  | None => true
  | Some n => n =? 0
  end.


(** Exceptions: a plain [Error] with its message, or a Prisma error with
    its code ([P2025] is "record not found"). *)
Inductive Exn : Type :=
  | Error (message : string)
  | PrismaError (code : string).

(** Lexicographic comparison of date strings ([<=], [>=], [localeCompare] and
    the database's [ORDER BY] / [lte] on ISO date text). *)
Definition str_le (a b : string) : bool :=
  match String.compare a b with
  | Gt => false
  | _ => true
  end.

Definition str_lt (a b : string) : bool :=
  match String.compare a b with
  | Lt => true
  | _ => false
  end.

(* ===================================================================== *)
(** * Decimal engine ([DecimalCalculator])                                 *)
(* ===================================================================== *)

(** decimal.js values. *)
Module Decimal.

Definition t : Type := Q.

Definition zero : t := 0%Q.
Definition add (a b : t) : t := (a + b)%Q.
Definition sub (a b : t) : t := (a - b)%Q.
Definition mul (a b : t) : t := (a * b)%Q.
Definition div (a b : t) : t := (a / b)%Q.

(** [d.isZero()] *)
Definition isZero (d : t) : bool := Qnum d =? 0.

(** [d.toFixed(dp)] under [ROUND_HALF_UP]: nearest multiple of [10^-dp],
    ties away from zero. *)
Definition toFixed (d : t) (dp : nat) : t :=
  let scale := 10 ^ Z.of_nat dp in
  let n := Qfloor (Qabs d * inject_Z scale + (1 # 2))%Q in
  Qmake (if Qle_bool 0 d then n else - n) (Z.to_pos scale).

End Decimal.

(** What the calculator's entry points accept: [null], [undefined], or
    something denoting a decimal value (a number, a [Decimal], a numeric
    string). *)
Inductive DecimalArg : Type :=
  | ArgNull
  | ArgUndefined
  | ArgValue (q : Q).

Module decimalCalc.

Definition decimal (value : DecimalArg) : Decimal.t :=
  match value with
  | ArgNull | ArgUndefined => Decimal.zero
  | ArgValue q => q
  end.

Definition add (a b : DecimalArg) : Decimal.t :=
  Decimal.add (decimal a) (decimal b).

Definition subtract (a b : DecimalArg) : Decimal.t :=
  Decimal.sub (decimal a) (decimal b).

Definition multiply (a b : DecimalArg) : Decimal.t :=
  Decimal.mul (decimal a) (decimal b).

Definition divide (a b : DecimalArg) : Exn + Decimal.t :=
  let divisor := decimal b in
  if Decimal.isZero divisor then inl (Error "Division by zero")
  else inr (Decimal.div (decimal a) divisor).

(** [parseFloat(decimal.toFixed(decimalPlaces))] *)
Definition toNumber (d : Decimal.t) (decimalPlaces : nat) : Q :=
  Decimal.toFixed d decimalPlaces.

(** Quantity times unit price, rounded to five decimal places. *)
Definition calculateTotalPrice (quantity unitPrice : DecimalArg) : Q :=
  let q := decimal quantity in
  let p := decimal unitPrice in
  let result := Decimal.mul q p in
  toNumber result 5.

(** Total amount minus amount paid, rounded to five decimal places. *)
Definition calculateBalance (totalAmount paidAmount : DecimalArg) : Q :=
  let total := decimal totalAmount in
  let paid := decimal paidAmount in
  let result := Decimal.sub total paid in
  toNumber result 5.



End decimalCalc.

(* ===================================================================== *)
(** * Data model (the Prisma tables the core reads and writes)            *)
(* ===================================================================== *)

Inductive ChangeType : Type := INBOUND | OUTBOUND | ADJUSTMENT.

Definition ChangeType_eqb (a b : ChangeType) : bool :=
  match a, b with
  | INBOUND, INBOUND | OUTBOUND, OUTBOUND | ADJUSTMENT, ADJUSTMENT => true
  | _, _ => false
  end.

(** Columns of [inboundRecord] the core looks at. *)
Module InboundRecord.
Record t : Type := mk {
  id : Z;
  product_model : option string;
  quantity : option Z;
  unit_price : option Q;
  inbound_date : option string;
}.
End InboundRecord.

(** Columns of [outboundRecord] the core looks at. *)
Module OutboundRecord.
Record t : Type := mk {
  id : Z;
  product_model : option string;
  quantity : option Z;
  outbound_date : option string;
  unit_price : option Q;
  total_price : option Q;
  customer_code : option string;
  customer_short_name : option string;
}.
End OutboundRecord.

Module Partner.
Record t : Type := mk {
  code : option string;
  short_name : option string;
  full_name : option string;
}.
End Partner.

(** A property of a request body or of a Prisma [data] object: left out
    ([undefined], [None]), [null] ([Some None]) or given. *)
Definition Field (A : Type) : Type := option (option A).

(** The column a [create] stores: a property left out becomes [NULL]. *)
Definition stored {A} (f : Field A) : option A := default None f.

(** The column an [update] leaves: a property left out keeps the old
    value. *)
Definition patched {A} (f : Field A) (old : option A) : option A := default old f.

(** The [data] of a write to [inboundRecord]. *)
Module InboundData.
Record t : Type := mk {
  product_model : Field string;
  quantity : Field Z;
  unit_price : Field Q;
  inbound_date : Field string;
}.
End InboundData.

(** The [data] of a write to [outboundRecord]. *)
Module OutboundData.
Record t : Type := mk {
  product_model : Field string;
  quantity : Field Z;
  outbound_date : Field string;
  unit_price : Field Q;
  total_price : Field Q;
  customer_code : Field string;
  customer_short_name : Field string;
}.
End OutboundData.

(** A row of [inventoryLedger] (a stock event). *)
Module LedgerEntry.
Record t : Type := mk {
  product_model : string;
  change_qty : Z;
  change_type : ChangeType;
  reference_id : Z;
  date : string;
}.
End LedgerEntry.

(** The database.  [inventory] has [product_model] as its unique key, so
    it is a finite map from product model to quantity.  The two [_seq]
    fields are the auto-increment counters of the source tables. *)
Record Store : Type := mkStore {
  inboundRecord : list InboundRecord.t;
  inbound_seq : Z;
  outboundRecord : list OutboundRecord.t;
  outbound_seq : Z;
  partner : list Partner.t;
  inventoryLedger : list LedgerEntry.t;
  inventory : gmap string Z;
}.

Definition empty_store : Store :=
  mkStore [] 1 [] 1 [] [] ∅.

Definition set_inboundRecord (rows : list InboundRecord.t) (seq : Z) (s : Store) : Store :=
  mkStore rows seq (outboundRecord s) (outbound_seq s) (partner s)
          (inventoryLedger s) (inventory s).

Definition set_outboundRecord (rows : list OutboundRecord.t) (seq : Z) (s : Store) : Store :=
  mkStore (inboundRecord s) (inbound_seq s) rows seq (partner s)
          (inventoryLedger s) (inventory s).

Definition set_inventoryLedger (rows : list LedgerEntry.t) (s : Store) : Store :=
  mkStore (inboundRecord s) (inbound_seq s) (outboundRecord s) (outbound_seq s)
          (partner s) rows (inventory s).

Definition set_inventory (inv : gmap string Z) (s : Store) : Store :=
  mkStore (inboundRecord s) (inbound_seq s) (outboundRecord s) (outbound_seq s)
          (partner s) (inventoryLedger s) inv.

(* ===================================================================== *)
(** * The effect monad: database state, injected faults, exceptions       *)
(* ===================================================================== *)

(** The world a request runs in: the database, the plan saying which of
    the coming Prisma calls raise ([true] = that call fails; an exhausted
    plan means no more faults), and the wall clock read by [new Date()]. *)
Record World : Type := mkWorld {
  db : Store;
  faults : list bool;
  now : string;
}.

Definition M (A : Type) : Type := World -> (Exn + A) * World.

Definition ret {A} (a : A) : M A := fun w => (inr a, w).

Definition bind {A B} (m : M A) (k : A -> M B) : M B :=
  fun w =>
    match m w with
    | (inr a, w') => k a w'
    | (inl e, w') => (inl e, w')
    end.

Notation "'await' x <- m ; k" := (bind m (fun x => k))
  (at level 10, x name, m at level 100, k at level 200).
Notation "'exec' m ; k" := (bind m (fun _ => k))
  (at level 10, m at level 100, k at level 200).

(** [new Date().toISOString()] *)
Definition new_Date_toISOString : M string := fun w => (inr (now w), w).

(** The error a failing database call raises. *)
Definition db_failure : Exn := PrismaError "P1001".

(** One Prisma call: it consumes one entry of the fault plan, and either
    raises without touching the tables or runs [f] on them. *)
Definition prisma_call {A} (f : Store -> (Exn + A) * Store) : M A :=
  fun w =>
    match faults w with
    | true :: rest => (inl db_failure, mkWorld (db w) rest (now w))
    | plan =>
        let (r, s') := f (db w) in
        (r, mkWorld s' (tl plan) (now w))
    end.

(** [prisma.$transaction(async (tx) => body)]: when the body raises, the
    tables are restored to what they were when the transaction began. *)
Definition transaction {A} (body : M A) : M A :=
  fun w =>
    match body w with
    | (inr a, w') => (inr a, w')
    | (inl e, w') => (inl e, mkWorld (db w) (faults w') (now w'))
    end.

(** [for (const x of xs) { await body(x) }] *)
Fixpoint for_each {A} (xs : list A) (body : A -> M unit) : M unit :=
  match xs with
  | [] => ret tt
  | x :: rest => exec body x; for_each rest body
  end.

(** Stable insertion sort, for [ORDER BY] and [Array.prototype.sort]. *)
Fixpoint insert_by {A} (le : A -> A -> bool) (x : A) (l : list A) : list A :=
  match l with
  | [] => [x]
  | y :: rest => if le x y then x :: l else y :: insert_by le x rest
  end.

Definition sort_by {A} (le : A -> A -> bool) (l : list A) : list A :=
  foldr (insert_by le) [] l.

(** Ascending order on a nullable date column ([NULL] sorts first). *)
Definition date_le (a b : option string) : bool :=
  match a, b with
  | None, _ => true
  | Some _, None => false
  | Some x, Some y => str_le x y
  end.

Definition date_lt (a b : option string) : bool :=
  match a, b with
  | None, None => false
  | None, Some _ => true
  | Some _, None => false
  | Some x, Some y => str_lt x y
  end.

(* ===================================================================== *)
(** * Prisma operations used by the core                                  *)
(* ===================================================================== *)

(** [{ increment: d }] / [{ decrement: d }] *)
Inductive QuantityUpdate : Type :=
  | increment (d : Z)
  | decrement (d : Z).

Definition apply_update (u : QuantityUpdate) (q : Z) : Z :=
  match u with
  | increment d => q + d
  | decrement d => q - d
  end.

Module tx.

Module inventoryLedger.

(** [where: { reference_id, change_type }] *)
Definition matches (reference_id : Z) (change_type : ChangeType)
    (e : LedgerEntry.t) : bool :=
  (LedgerEntry.reference_id e =? reference_id)
  && ChangeType_eqb (LedgerEntry.change_type e) change_type.

Definition create (data : LedgerEntry.t) : M unit :=
  prisma_call (fun s =>
    (inr tt, set_inventoryLedger (inventoryLedger s ++ [data]) s)).

Definition createMany (data : list LedgerEntry.t) : M unit :=
  prisma_call (fun s =>
    (inr tt, set_inventoryLedger (inventoryLedger s ++ data) s)).

Definition findMany (reference_id : Z) (change_type : ChangeType)
    : M (list LedgerEntry.t) :=
  prisma_call (fun s =>
    (inr (List.filter (matches reference_id change_type) (inventoryLedger s)), s)).

Definition deleteMany (reference_id : Z) (change_type : ChangeType) : M unit :=
  prisma_call (fun s =>
    (inr tt,
     set_inventoryLedger
       (List.filter (fun e => negb (matches reference_id change_type e))
                    (inventoryLedger s)) s)).

(** [deleteMany({})] *)
Definition deleteAll : M unit :=
  prisma_call (fun s => (inr tt, set_inventoryLedger [] s)).

End inventoryLedger.

Module inventory.

(** [upsert({ where: { product_model }, update: { quantity: u },
              create: { product_model, quantity: q } })] *)
Definition upsert (product_model : string) (update : QuantityUpdate)
    (create : Z) : M unit :=
  prisma_call (fun s =>
    let row :=
      match inventory s !! product_model with
      | Some q => apply_update update q
      | None => create
      end in
    (inr tt, set_inventory (<[product_model := row]> (inventory s)) s)).

(** [deleteMany({})] *)
Definition deleteAll : M unit :=
  prisma_call (fun s => (inr tt, set_inventory ∅ s)).

(** [createMany({ data })]: a duplicate key violates the unique
    constraint ([P2002]). *)
Definition createMany (data : list (string * Z)) : M unit :=
  prisma_call (fun s =>
    if bool_decide (NoDup data.*1 ∧ Forall (fun k => inventory s !! k = None) data.*1)
    then (inr tt, set_inventory (list_to_map data ∪ inventory s) s)
    else (inl (PrismaError "P2002"), s)).

(** [findMany({ orderBy: { product_model: 'asc' } })] *)
Definition findMany_by_model : M (list (string * Z)) :=
  prisma_call (fun s =>
    (inr (sort_by (fun a b => str_le a.1 b.1) (map_to_list (inventory s))), s)).

(** [findMany({ where: { quantity: { gt: 0 } } })] on the projection; the
    order of the rows is the database's. *)
Definition findMany_in_stock : M (list (string * Z)) :=
  prisma_call (fun s =>
    (inr (List.filter (fun item : string * Z => 0 <? item.2) (map_to_list (inventory s))), s)).

End inventory.

Module inboundRecord.

(** [findMany({ orderBy: { inbound_date: 'asc' } })] *)
Definition findMany_by_date : M (list InboundRecord.t) :=
  prisma_call (fun s =>
    (inr (sort_by (fun a b => date_le (InboundRecord.inbound_date a)
                                      (InboundRecord.inbound_date b))
                  (inboundRecord s)), s)).

(** [findMany({ where: { quantity: { gt: 0 } },
                orderBy: [{ inbound_date: 'asc' }, { id: 'asc' }] })] *)
Definition findMany_in_stock : M (list InboundRecord.t) :=
  prisma_call (fun s =>
    (inr (sort_by
            (fun a b =>
               if date_lt (InboundRecord.inbound_date a) (InboundRecord.inbound_date b)
               then true
               else if date_lt (InboundRecord.inbound_date b) (InboundRecord.inbound_date a)
               then false
               else InboundRecord.id a <=? InboundRecord.id b)
            (List.filter
               (fun r => match InboundRecord.quantity r with
                         | Some q => 0 <? q
                         | None => false
                         end)
               (inboundRecord s))), s)).

(** The row a [create] inserts under a given id. *)
Definition fresh (id : Z) (data : InboundData.t) : InboundRecord.t :=
  InboundRecord.mk id
    (stored (InboundData.product_model data)) (stored (InboundData.quantity data))
    (stored (InboundData.unit_price data)) (stored (InboundData.inbound_date data)).

(** The row an [update] leaves in place of [row]. *)
Definition patch (data : InboundData.t) (row : InboundRecord.t) : InboundRecord.t :=
  InboundRecord.mk (InboundRecord.id row)
    (patched (InboundData.product_model data) (InboundRecord.product_model row))
    (patched (InboundData.quantity data) (InboundRecord.quantity row))
    (patched (InboundData.unit_price data) (InboundRecord.unit_price row))
    (patched (InboundData.inbound_date data) (InboundRecord.inbound_date row)).

(** [create({ data })]: the row gets the next auto-increment id. *)
Definition create (data : InboundData.t) : M InboundRecord.t :=
  prisma_call (fun s =>
    let row := fresh (inbound_seq s) data in
    (inr row, set_inboundRecord (inboundRecord s ++ [row]) (inbound_seq s + 1) s)).

Definition findUnique (id : Z) : M (option InboundRecord.t) :=
  prisma_call (fun s =>
    (inr (List.find (fun r => InboundRecord.id r =? id) (inboundRecord s)), s)).

(** [update({ where: { id }, data })] raises [P2025] when no row has
    that id. *)
Definition update (id : Z) (data : InboundData.t) : M InboundRecord.t :=
  prisma_call (fun s =>
    match List.find (fun r => InboundRecord.id r =? id) (inboundRecord s) with
    | Some row =>
        (inr (patch data row),
         set_inboundRecord
           (List.map (fun r => if InboundRecord.id r =? id then patch data r else r)
                     (inboundRecord s))
           (inbound_seq s) s)
    | None => (inl (PrismaError "P2025"), s)
    end).

(** [delete({ where: { id } })] raises [P2025] when no row has that id. *)
Definition delete (id : Z) : M unit :=
  prisma_call (fun s =>
    if existsb (fun r => InboundRecord.id r =? id) (inboundRecord s)
    then (inr tt,
          set_inboundRecord
            (List.filter (fun r => negb (InboundRecord.id r =? id)) (inboundRecord s))
            (inbound_seq s) s)
    else (inl (PrismaError "P2025"), s)).



End inboundRecord.

Module outboundRecord.

(** [findMany({ orderBy: { outbound_date: 'asc' } })] *)
Definition findMany_by_date : M (list OutboundRecord.t) :=
  prisma_call (fun s =>
    (inr (sort_by (fun a b => date_le (OutboundRecord.outbound_date a)
                                      (OutboundRecord.outbound_date b))
                  (outboundRecord s)), s)).

(** [findMany({ where: { quantity: { gt: 0 }, outbound_date: { lte: endDate } },
                orderBy: [{ outbound_date: 'asc' }, { id: 'asc' }] })];
    a [NULL] date never satisfies [lte]. *)
Definition findMany_shipped_until (endDate : string) : M (list OutboundRecord.t) :=
  prisma_call (fun s =>
    (inr (sort_by
            (fun a b =>
               if date_lt (OutboundRecord.outbound_date a) (OutboundRecord.outbound_date b)
               then true
               else if date_lt (OutboundRecord.outbound_date b) (OutboundRecord.outbound_date a)
               then false
               else OutboundRecord.id a <=? OutboundRecord.id b)
            (List.filter
               (fun r => match OutboundRecord.quantity r with
                         | Some q => 0 <? q
                         | None => false
                         end
                         && match OutboundRecord.outbound_date r with
                            | Some d => str_le d endDate
                            | None => false
                            end)
               (outboundRecord s))), s)).

Definition fresh (id : Z) (data : OutboundData.t) : OutboundRecord.t :=
  OutboundRecord.mk id
    (stored (OutboundData.product_model data)) (stored (OutboundData.quantity data))
    (stored (OutboundData.outbound_date data)) (stored (OutboundData.unit_price data))
    (stored (OutboundData.total_price data)) (stored (OutboundData.customer_code data))
    (stored (OutboundData.customer_short_name data)).

Definition patch (data : OutboundData.t) (row : OutboundRecord.t) : OutboundRecord.t :=
  OutboundRecord.mk (OutboundRecord.id row)
    (patched (OutboundData.product_model data) (OutboundRecord.product_model row))
    (patched (OutboundData.quantity data) (OutboundRecord.quantity row))
    (patched (OutboundData.outbound_date data) (OutboundRecord.outbound_date row))
    (patched (OutboundData.unit_price data) (OutboundRecord.unit_price row))
    (patched (OutboundData.total_price data) (OutboundRecord.total_price row))
    (patched (OutboundData.customer_code data) (OutboundRecord.customer_code row))
    (patched (OutboundData.customer_short_name data)
             (OutboundRecord.customer_short_name row)).

Definition create (data : OutboundData.t) : M OutboundRecord.t :=
  prisma_call (fun s =>
    let row := fresh (outbound_seq s) data in
    (inr row, set_outboundRecord (outboundRecord s ++ [row]) (outbound_seq s + 1) s)).

Definition findUnique (id : Z) : M (option OutboundRecord.t) :=
  prisma_call (fun s =>
    (inr (List.find (fun r => OutboundRecord.id r =? id) (outboundRecord s)), s)).

Definition update (id : Z) (data : OutboundData.t) : M OutboundRecord.t :=
  prisma_call (fun s =>
    match List.find (fun r => OutboundRecord.id r =? id) (outboundRecord s) with
    | Some row =>
        (inr (patch data row),
         set_outboundRecord
           (List.map (fun r => if OutboundRecord.id r =? id then patch data r else r)
                     (outboundRecord s))
           (outbound_seq s) s)
    | None => (inl (PrismaError "P2025"), s)
    end).

Definition delete (id : Z) : M unit :=
  prisma_call (fun s =>
    if existsb (fun r => OutboundRecord.id r =? id) (outboundRecord s)
    then (inr tt,
          set_outboundRecord
            (List.filter (fun r => negb (OutboundRecord.id r =? id)) (outboundRecord s))
            (outbound_seq s) s)
    else (inl (PrismaError "P2025"), s)).

End outboundRecord.

Module partner.

Definition findMany : M (list Partner.t) :=
  prisma_call (fun s => (inr (partner s), s)).

End partner.

End tx.

(* ===================================================================== *)
(** * [inventoryService]                                                  *)
(* ===================================================================== *)

(** [d || fallback] on a nullable string. *)
Definition or_else (d : option string) (fallback : string) : string :=
  if falsy_string d then fallback else default "" d.

(** An element of the [events] timeline of [recalculateAll]. *)
Module Event.
Record t : Type := mk {
  date : string;
  type : ChangeType;
  qty : Z;
  model : string;
  refId : Z;
}.
End Event.

Record RecalcResult : Type := mkRecalcResult {
  processed_events : nat;
  products_count : nat;
}.

Module inventoryService.

(** The loop over [inbounds]: records without a product model or with a
    falsy quantity are skipped. *)
Definition inbound_events (today : string) (inbounds : list InboundRecord.t)
    : list Event.t :=
  flat_map (fun r =>
    if falsy_string (InboundRecord.product_model r)
       || falsy_number (InboundRecord.quantity r)
    then []
    else [Event.mk (or_else (InboundRecord.inbound_date r) today)
                   INBOUND
                   (default 0 (InboundRecord.quantity r))
                   (default "" (InboundRecord.product_model r))
                   (InboundRecord.id r)]) inbounds.

(** The loop over [outbounds]; the quantity is negated. *)
Definition outbound_events (today : string) (outbounds : list OutboundRecord.t)
    : list Event.t :=
  flat_map (fun r =>
    if falsy_string (OutboundRecord.product_model r)
       || falsy_number (OutboundRecord.quantity r)
    then []
    else [Event.mk (or_else (OutboundRecord.outbound_date r) today)
                   OUTBOUND
                   (- default 0 (OutboundRecord.quantity r))
                   (default "" (OutboundRecord.product_model r))
                   (OutboundRecord.id r)]) outbounds.

(** [totals[e.model] = (totals[e.model] || 0) + e.qty] *)
Definition add_total (totals : gmap string Z) (e : Event.t) : gmap string Z :=
  <[Event.model e := default 0 (totals !! Event.model e) + Event.qty e]> totals.

Definition ledger_row (e : Event.t) : LedgerEntry.t :=
  LedgerEntry.mk (Event.model e) (Event.qty e) (Event.type e)
                 (Event.refId e) (Event.date e).

(** The rows of the projection, by product model. *)
Definition getAllInventory : M (list (string * Z)) :=
  tx.inventory.findMany_by_model.

Definition recalculateAll : M RecalcResult :=
  transaction (
    (* 1. Clear tables *)
    exec tx.inventory.deleteAll;
    exec tx.inventoryLedger.deleteAll;
    (* 2. Fetch all records *)
    await inbounds <- tx.inboundRecord.findMany_by_date;
    await outbounds <- tx.outboundRecord.findMany_by_date;
    (* 3. Create events timeline *)
    await today <- new_Date_toISOString;
    let events :=
      sort_by (fun a b => str_le (Event.date a) (Event.date b))
              (inbound_events today inbounds ++ outbound_events today outbounds) in
    (* 4. Process events *)
    let totals := foldl add_total ∅ events in
    let ledgerData := List.map ledger_row events in
    exec (if (0 <? Z.of_nat (length ledgerData))
          then tx.inventoryLedger.createMany ledgerData
          else ret tt);
    (* 5. Update inventory table *)
    let invData := map_to_list totals in
    exec (if (0 <? Z.of_nat (length invData))
          then tx.inventory.createMany invData
          else ret tt);
    ret (mkRecalcResult (length ledgerData) (length invData))).

Definition onInboundCreate (record : InboundRecord.t) : M unit :=
  if falsy_string (InboundRecord.product_model record)
     || falsy_number (InboundRecord.quantity record)
  then ret tt
  else
    let product_model := default "" (InboundRecord.product_model record) in
    let quantity := default 0 (InboundRecord.quantity record) in
    transaction (
      await today <- new_Date_toISOString;
      exec tx.inventoryLedger.create
             (LedgerEntry.mk product_model quantity INBOUND
                (InboundRecord.id record)
                (or_else (InboundRecord.inbound_date record) today));
      tx.inventory.upsert product_model (increment quantity) quantity).

Definition onOutboundCreate (record : OutboundRecord.t) : M unit :=
  if falsy_string (OutboundRecord.product_model record)
     || falsy_number (OutboundRecord.quantity record)
  then ret tt
  else
    let product_model := default "" (OutboundRecord.product_model record) in
    transaction (
      let changeQty := - default 0 (OutboundRecord.quantity record) in
      await today <- new_Date_toISOString;
      exec tx.inventoryLedger.create
             (LedgerEntry.mk product_model changeQty OUTBOUND
                (OutboundRecord.id record)
                (or_else (OutboundRecord.outbound_date record) today));
      tx.inventory.upsert product_model (increment changeQty) changeQty).

(** The loop shared by both deletes: take each entry's quantity back
    out of the projection. *)
Definition revert_entry (entry : LedgerEntry.t) : M unit :=
  tx.inventory.upsert (LedgerEntry.product_model entry)
    (decrement (LedgerEntry.change_qty entry))
    (- LedgerEntry.change_qty entry).

Definition onInboundDelete (id : Z) : M unit :=
  transaction (
    await entries <- tx.inventoryLedger.findMany id INBOUND;
    exec for_each entries revert_entry;
    tx.inventoryLedger.deleteMany id INBOUND).

Definition onOutboundDelete (id : Z) : M unit :=
  transaction (
    await entries <- tx.inventoryLedger.findMany id OUTBOUND;
    exec for_each entries revert_entry;
    tx.inventoryLedger.deleteMany id OUTBOUND).

Definition onInboundUpdate (oldRecord newRecord : InboundRecord.t) : M unit :=
  exec onInboundDelete (InboundRecord.id oldRecord);
  onInboundCreate newRecord.

Definition onOutboundUpdate (oldRecord newRecord : OutboundRecord.t) : M unit :=
  exec onOutboundDelete (OutboundRecord.id oldRecord);
  onOutboundCreate newRecord.

End inventoryService.

(* ===================================================================== *)
(** * The CRUD handlers that drive the reconciler                         *)
(* ===================================================================== *)

(** [try { body } catch (err) { handler(err) }] *)
Definition try_catch {A} (body : M A) (handler : Exn -> M A) : M A :=
  fun w =>
    match body w with
    | (inr a, w') => (inr a, w')
    | (inl e, w') => handler e w'
    end.

(** The status code a handler answers with. *)
Definition on_error (e : Exn) : M Z :=
  match e with
  | PrismaError "P2025" => ret 404
  | _ => ret 500
  end.

(** [isProvided(val)] (both route files define it alike): the value is
    none of [undefined], [null], [''], ['null'], ['undefined'].  [text]
    gives the string a value is, when it is one. *)
Definition isProvided {A} (text : A -> option string) (val : Field A) : bool :=
  match val with
  | None | Some None => false
  | Some (Some v) =>
      match text v with
      | Some s => negb (String.eqb s "" || String.eqb s "null" || String.eqb s "undefined")
      | None => true
      end
  end.

Definition a_string (s : string) : option string := Some s.
Definition a_number {A} (_ : A) : option string := None.

(** What the loop building [updateData] copies of a property of
    [updates]. *)
Definition copied {A} (text : A -> option string) (val : Field A) : Field A :=
  if isProvided text val then val else None.

(** The counters of a batch update: [completed], [notFound], [errors]. *)
Record BatchReport : Type := mkBatchReport {
  updated : nat;
  notFound : list Z;
  errors : nat;
}.

(** What a batch request is answered with: status 400 and a message, the
    report, or status 500. *)
Inductive BatchAnswer : Type :=
  | BadRequest (error : string)
  | Completed (report : BatchReport)
  | Failed (e : Exn).

(** A loop that threads local variables through its rounds. *)
Fixpoint fold_each {A S} (xs : list A) (body : S -> A -> M S) (acc : S) : M S :=
  match xs with
  | [] => ret acc
  | x :: rest => await acc' <- body acc x; fold_each rest body acc'
  end.

(** The [catch] of one round of a batch loop. *)
Definition batch_catch (acc : BatchReport) (recordId : Z) (e : Exn) : M BatchReport :=
  match e with
  | PrismaError "P2025" =>
      ret (mkBatchReport (updated acc) (notFound acc ++ [recordId]) (errors acc))
  | _ => ret (mkBatchReport (updated acc) (notFound acc) (S (errors acc)))
  end.

(** The inbound routes. *)
Module inboundRoutes.

Definition post (body : InboundData.t) : M Z :=
  try_catch (
    await result <- tx.inboundRecord.create body;
    exec inventoryService.onInboundCreate result;
    ret 200)
  (fun _ => ret 500).

Definition put (id : Z) (body : InboundData.t) : M Z :=
  try_catch (
    await oldRecord <- tx.inboundRecord.findUnique id;
    match oldRecord with
    | None => ret 404
    | Some oldRecord =>
        await result <- tx.inboundRecord.update id body;
        exec inventoryService.onInboundUpdate oldRecord result;
        ret 200
    end)
  on_error.

Definition delete (id : Z) : M Z :=
  try_catch (
    exec tx.inboundRecord.delete id;
    exec inventoryService.onInboundDelete id;
    ret 200)
  on_error.

(** The body of [POST /batch].  [ids] is [None] when the property is
    missing or not an array, [updates] when it is missing or not an
    object; [other_columns] says whether [updates] provides one of the
    allowed columns the model leaves out ([supplier_code], [remark], ...). *)
Record BatchBody : Type := mkBatchBody {
  ids : option (list Z);
  updates : option InboundData.t;
  other_columns : bool;
}.

Definition updateData (updates : InboundData.t) : InboundData.t :=
  InboundData.mk
    (copied a_string (InboundData.product_model updates))
    (copied a_number (InboundData.quantity updates))
    (copied a_number (InboundData.unit_price updates))
    (copied a_string (InboundData.inbound_date updates)).

(** [Object.keys(updateData).length === 0] *)
Definition no_update (updates : InboundData.t) (other_columns : bool) : bool :=
  negb (isProvided a_string (InboundData.product_model updates)
        || isProvided a_number (InboundData.quantity updates)
        || isProvided a_number (InboundData.unit_price updates)
        || isProvided a_string (InboundData.inbound_date updates)
        || other_columns).

(** One round of the loop over [ids].  [total_price], which the round
    recomputes when a quantity or a unit price is provided, is not among
    the columns of [inboundRecord] the model keeps: both branches write
    the same columns. *)
Definition batch_round (updates : InboundData.t) (acc : BatchReport) (recordId : Z)
    : M BatchReport :=
  try_catch (
    await oldRecord <- tx.inboundRecord.findUnique recordId;
    match oldRecord with
    | None => ret (mkBatchReport (updated acc) (notFound acc ++ [recordId]) (errors acc))
    | Some oldRecord =>
        await result <- tx.inboundRecord.update recordId (updateData updates);
        exec inventoryService.onInboundUpdate oldRecord result;
        ret (mkBatchReport (S (updated acc)) (notFound acc) (errors acc))
    end)
  (batch_catch acc recordId).

Definition batch (body : BatchBody) : M BatchAnswer :=
  try_catch (
    match ids body with
    | None | Some [] => ret (BadRequest "ids array is required and must not be empty")
    | Some ids =>
        match updates body with
        | None => ret (BadRequest "updates object is required")
        | Some updates =>
            if no_update updates (other_columns body)
            then ret (BadRequest "No valid update fields provided")
            else
              await report <- fold_each ids (batch_round updates) (mkBatchReport 0 [] 0);
              ret (Completed report)
        end
    end)
  (fun e => ret (Failed e)).

End inboundRoutes.

(** The outbound routes; [total_price] is computed from the body. *)
Module outboundRoutes.

(** A property of the body as an argument of the decimal engine. *)
Definition arg_of_quantity (f : Field Z) : DecimalArg :=
  match f with
  | None => ArgUndefined
  | Some None => ArgNull
  | Some (Some n) => ArgValue (inject_Z n)
  end.

Definition arg_of_price (f : Field Q) : DecimalArg :=
  match f with
  | None => ArgUndefined
  | Some None => ArgNull
  | Some (Some q) => ArgValue q
  end.

(** [{ ...body, total_price }] *)
Definition priced (body : OutboundData.t) : OutboundData.t :=
  let total_price :=
    decimalCalc.calculateTotalPrice (arg_of_quantity (OutboundData.quantity body))
                                    (arg_of_price (OutboundData.unit_price body)) in
  OutboundData.mk (OutboundData.product_model body) (OutboundData.quantity body)
    (OutboundData.outbound_date body) (OutboundData.unit_price body)
    (Some (Some total_price))
    (OutboundData.customer_code body) (OutboundData.customer_short_name body).

Definition post (body : OutboundData.t) : M Z :=
  try_catch (
    await result <- tx.outboundRecord.create (priced body);
    exec inventoryService.onOutboundCreate result;
    ret 200)
  (fun _ => ret 500).

Definition put (id : Z) (body : OutboundData.t) : M Z :=
  try_catch (
    await oldRecord <- tx.outboundRecord.findUnique id;
    match oldRecord with
    | None => ret 404
    | Some oldRecord =>
        await result <- tx.outboundRecord.update id (priced body);
        exec inventoryService.onOutboundUpdate oldRecord result;
        ret 200
    end)
  on_error.

Definition delete (id : Z) : M Z :=
  try_catch (
    exec tx.outboundRecord.delete id;
    exec inventoryService.onOutboundDelete id;
    ret 200)
  on_error.

(** The body of [POST /batch], as for the inbound route. *)
Record BatchBody : Type := mkBatchBody {
  ids : option (list Z);
  updates : option OutboundData.t;
  other_columns : bool;
}.

(** [total_price] is not an allowed field: it is never copied. *)
Definition updateData (updates : OutboundData.t) : OutboundData.t :=
  OutboundData.mk
    (copied a_string (OutboundData.product_model updates))
    (copied a_number (OutboundData.quantity updates))
    (copied a_string (OutboundData.outbound_date updates))
    (copied a_number (OutboundData.unit_price updates))
    None
    (copied a_string (OutboundData.customer_code updates))
    (copied a_string (OutboundData.customer_short_name updates)).

Definition no_update (updates : OutboundData.t) (other_columns : bool) : bool :=
  negb (isProvided a_string (OutboundData.product_model updates)
        || isProvided a_number (OutboundData.quantity updates)
        || isProvided a_string (OutboundData.outbound_date updates)
        || isProvided a_number (OutboundData.unit_price updates)
        || isProvided a_string (OutboundData.customer_code updates)
        || isProvided a_string (OutboundData.customer_short_name updates)
        || other_columns).

(** The [data] of the update of one record: [updateData], with the total
    price recomputed from the record's own quantity and unit price where
    [updates] provides none, when it provides either. *)
Definition batch_data (updates : OutboundData.t) (oldRecord : OutboundRecord.t)
    : OutboundData.t :=
  let hasQuantity := isProvided a_number (OutboundData.quantity updates) in
  let hasUnitPrice := isProvided a_number (OutboundData.unit_price updates) in
  let needsRecalculation := hasQuantity || hasUnitPrice in
  if needsRecalculation then
    let quantity := default 0 (OutboundRecord.quantity oldRecord) in
    let unitPrice := default 0%Q (OutboundRecord.unit_price oldRecord) in
    let finalQuantity :=
      if hasQuantity then arg_of_quantity (OutboundData.quantity updates)
      else ArgValue (inject_Z quantity) in
    let finalUnitPrice :=
      if hasUnitPrice then arg_of_price (OutboundData.unit_price updates)
      else ArgValue unitPrice in
    let total_price := decimalCalc.calculateTotalPrice finalQuantity finalUnitPrice in
    let data := updateData updates in
    OutboundData.mk (OutboundData.product_model data) (OutboundData.quantity data)
      (OutboundData.outbound_date data) (OutboundData.unit_price data)
      (Some (Some total_price))
      (OutboundData.customer_code data) (OutboundData.customer_short_name data)
  else updateData updates.

Definition batch_round (updates : OutboundData.t) (acc : BatchReport) (recordId : Z)
    : M BatchReport :=
  try_catch (
    await oldRecord <- tx.outboundRecord.findUnique recordId;
    match oldRecord with
    | None => ret (mkBatchReport (updated acc) (notFound acc ++ [recordId]) (errors acc))
    | Some oldRecord =>
        await result <- tx.outboundRecord.update recordId (batch_data updates oldRecord);
        exec inventoryService.onOutboundUpdate oldRecord result;
        ret (mkBatchReport (S (updated acc)) (notFound acc) (errors acc))
    end)
  (batch_catch acc recordId).

(** The validation runs outside the handler's [try]. *)
Definition batch (body : BatchBody) : M BatchAnswer :=
  match ids body with
  | None | Some [] => ret (BadRequest "ids array is required and must not be empty")
  | Some ids =>
      match updates body with
      | None => ret (BadRequest "updates object is required")
      | Some updates =>
          if no_update updates (other_columns body)
          then ret (BadRequest "No valid update fields provided")
          else
            try_catch (
              await report <- fold_each ids (batch_round updates) (mkBatchReport 0 [] 0);
              ret (Completed report))
            (fun e => ret (Failed e))
      end
  end.

End outboundRoutes.

(** The inventory routes. *)
Module inventoryRoutes.



End inventoryRoutes.

(** A write request to the source tables. *)
Inductive Request : Type :=
  | PostInbound (body : InboundData.t)
  | PutInbound (id : Z) (body : InboundData.t)
  | DeleteInbound (id : Z)
  | PostOutbound (body : OutboundData.t)
  | PutOutbound (id : Z) (body : OutboundData.t)
  | DeleteOutbound (id : Z).

Definition handle (req : Request) : M Z :=
  match req with
  | PostInbound body => inboundRoutes.post body
  | PutInbound id body => inboundRoutes.put id body
  | DeleteInbound id => inboundRoutes.delete id
  | PostOutbound body => outboundRoutes.post body
  | PutOutbound id body => outboundRoutes.put id body
  | DeleteOutbound id => outboundRoutes.delete id
  end.

(** Serving a history of requests, each at its own wall-clock time. *)
Fixpoint serve (history : list (string * Request)) (w : World) : World :=
  match history with
  | [] => w
  | (time, req) :: rest =>
      serve rest (snd (handle req (mkWorld (db w) (faults w) time)))
  end.

(** A call to the reconciler, as the claims about the ledger quantify
    over them. *)
Inductive Mutation : Type :=
  | OnInboundCreate (record : InboundRecord.t)
  | OnOutboundCreate (record : OutboundRecord.t)
  | OnInboundDelete (id : Z)
  | OnOutboundDelete (id : Z)
  | OnInboundUpdate (oldRecord newRecord : InboundRecord.t)
  | OnOutboundUpdate (oldRecord newRecord : OutboundRecord.t).

Definition mutate (mu : Mutation) : M unit :=
  match mu with
  | OnInboundCreate r => inventoryService.onInboundCreate r
  | OnOutboundCreate r => inventoryService.onOutboundCreate r
  | OnInboundDelete id => inventoryService.onInboundDelete id
  | OnOutboundDelete id => inventoryService.onOutboundDelete id
  | OnInboundUpdate o n => inventoryService.onInboundUpdate o n
  | OnOutboundUpdate o n => inventoryService.onOutboundUpdate o n
  end.

(** Running reconciler calls one after the other; a call that raises does
    not stop the ones after it (each comes from its own request). *)
Fixpoint mutate_all (mus : list (string * Mutation)) (w : World) : World :=
  match mus with
  | [] => w
  | (time, mu) :: rest =>
      mutate_all rest (snd (mutate mu (mkWorld (db w) (faults w) time)))
  end.

(* ===================================================================== *)
(** * FIFO cost matcher ([AnalysisQueries])                               *)
(* ===================================================================== *)

(** An enriched outbound record, as pushed on [processedRecords]. *)
Module Processed.
Record t : Type := mk {
  record : OutboundRecord.t;
  cost_amount : Q;
  sales_amount : Q;
  customer_full_name : option string;
  resolved_customer_code : option string;
}.
End Processed.

(* ===================================================================== *)
(** * JavaScript numbers and objects, for the analysis reports            *)
(* ===================================================================== *)

(** The arithmetic of JavaScript numbers the reports use.  Sums of money
    in the reports are plain floating-point sums, not decimal.js ones: the
    operations are kept abstract, so that what is proved of the reports
    holds of whatever they compute.  [number_of] is the number a row of
    the matcher holds for an amount. *)
Class Arithmetic : Type := {
  number : Type;
  zero : number;
  hundred : number;
  plus : number -> number -> number;
  minus : number -> number -> number;
  times : number -> number -> number;
  divided_by : number -> number -> number;
  is_zero : number -> bool;
  positive : number -> bool;
  number_of : Q -> number;
}.

(** [obj[k]] for a nullable string [k]: [null] names the property
    ["null"]. *)
Definition property_key (k : option string) : string := default "null" k.

(** An array index: the canonical decimal numeral of an integer below
    [2^32 - 1].  Properties named by one come first, in ascending order,
    when an object's properties are listed. *)
Definition digit (c : Ascii.ascii) : option N :=
  let n := Ascii.N_of_ascii c in
  if ((48 <=? n) && (n <=? 57))%N then Some (n - 48)%N else None.

Fixpoint numeral (s : string) (acc : N) : option N :=
  match s with
  | EmptyString => Some acc
  | String c rest =>
      match digit c with
      | Some d => numeral rest (10 * acc + d)%N
      | None => None
      end
  end.

Definition array_index (s : string) : option N :=
  match s with
  | EmptyString => None
  | String c rest =>
      if (Ascii.N_of_ascii c =? 48)%N && negb (String.eqb rest "") then None
      else match numeral s 0 with
           | Some n => if (n <? 2 ^ 32 - 1)%N then Some n else None
           | None => None
           end
  end.

(** An object used as a dictionary: its own properties, in the order
    they were created. *)
Module Dict.

Definition t (V : Type) : Type := list (string * V).

Definition empty {V} : t V := [].

(** [obj[k]] *)
Fixpoint read {V} (d : t V) (k : string) : option V :=
  match d with
  | [] => None
  | (k', v) :: rest => if String.eqb k' k then Some v else read rest k
  end.

(** [obj[k] = v]: an existing property keeps its place. *)
Fixpoint write {V} (d : t V) (k : string) (v : V) : t V :=
  match d with
  | [] => [(k, v)]
  | (k', v') :: rest =>
      if String.eqb k' k then (k', v) :: rest else (k', v') :: write rest k v
  end.

(** [if (!obj[k]) obj[k] = init; update(obj[k])], on objects that are
    always truthy. *)
Definition upsert {V} (d : t V) (k : string) (init : V) (update : V -> V) : t V :=
  write d k (update (default init (read d k))).

(** [Object.values(obj)] *)
Definition values {V} (d : t V) : list V :=
  let indexed :=
    flat_map (fun kv : string * V =>
                match array_index kv.1 with
                | Some i => [(i, kv.2)]
                | None => []
                end) d in
  let named :=
    List.filter (fun kv : string * V =>
                   match array_index kv.1 with
                   | Some _ => false
                   | None => true
                   end) d in
  List.map snd (sort_by (fun a b : N * V => (a.1 <=? b.1)%N) indexed)
  ++ List.map snd named.

End Dict.

(** The sums a report keeps for a customer, a product, or a pair. *)
Module Totals.
Record t `{Arithmetic} : Type := mk {
  sales_amount : number;
  cost_amount : number;
  profit_amount : number;
  profit_rate : number;
}.
Arguments mk {_} _ _ _ _.
Arguments sales_amount {_} _.
Arguments cost_amount {_} _.
Arguments profit_amount {_} _.
Arguments profit_rate {_} _.
End Totals.

(** A line of [product_details] / [customer_details], under its label. *)
Module Line.
Record t `{Arithmetic} (L : Type) : Type := mk {
  label : L;
  totals : Totals.t;
}.
Arguments mk {_ _} _ _.
Arguments label {_ _} _.
Arguments totals {_ _} _.
End Line.

(** An entry of [customerMap] / [productMap] while the rows are read. *)
Module Entry.
Record t `{Arithmetic} (L L' : Type) : Type := mk {
  label : L;
  totals : Totals.t;
  details_map : Dict.t (Line.t L');
}.
Arguments mk {_ _ _} _ _ _.
Arguments label {_ _ _} _.
Arguments totals {_ _ _} _.
Arguments details_map {_ _ _} _.
End Entry.

(** An element of a report. *)
Module Group.
Record t `{Arithmetic} (L L' : Type) : Type := mk {
  label : L;
  totals : Totals.t;
  details : list (Line.t L');
}.
Arguments mk {_ _ _} _ _ _.
Arguments label {_ _ _} _.
Arguments totals {_ _ _} _.
Arguments details {_ _ _} _.
End Group.

Section Reports.

Context `{Arithmetic}.

(** [{ sales_amount: 0, cost_amount: 0, profit_amount: 0, profit_rate: 0 }] *)
Definition no_totals : Totals.t := Totals.mk zero zero zero zero.

(** [x.sales_amount += salesAmount; x.cost_amount += costAmount;
     x.profit_amount += profitAmount] *)
Definition add_row (x : Totals.t) (row : Processed.t) : Totals.t :=
  let salesAmount := number_of (Processed.sales_amount row) in
  let costAmount := number_of (Processed.cost_amount row) in
  let profitAmount := minus salesAmount costAmount in
  Totals.mk (plus (Totals.sales_amount x) salesAmount)
            (plus (Totals.cost_amount x) costAmount)
            (plus (Totals.profit_amount x) profitAmount)
            (Totals.profit_rate x).

(** [x.profit_rate = x.sales_amount !== 0
       ? (x.profit_amount / x.sales_amount) * 100 : 0] *)
Definition with_rate (x : Totals.t) : Totals.t :=
  Totals.mk (Totals.sales_amount x) (Totals.cost_amount x) (Totals.profit_amount x)
            (if is_zero (Totals.sales_amount x) then zero
             else times (divided_by (Totals.profit_amount x) (Totals.sales_amount x))
                        hundred).

(** [.sort((a, b) => b.sales_amount - a.sales_amount)]: [b] goes before
    [a] when the difference is positive, and the sort is stable. *)
Definition by_sales {X} (totals : X -> Totals.t) (l : list X) : list X :=
  sort_by (fun a b =>
             negb (positive (minus (Totals.sales_amount (totals b))
                                   (Totals.sales_amount (totals a))))) l.

(** One round of the loop over the rows, for a report grouped by [outer]
    with details by [inner]; a label is what the object created for a
    key holds of the row that created it. *)
Definition tally {L L'} (outer : Processed.t -> string * L)
    (inner : Processed.t -> string * L')
    (map : Dict.t (Entry.t L L')) (row : Processed.t) : Dict.t (Entry.t L L') :=
  Dict.upsert map (outer row).1
    (Entry.mk (outer row).2 no_totals Dict.empty)
    (fun entry =>
       Entry.mk (Entry.label entry) (add_row (Entry.totals entry) row)
         (Dict.upsert (Entry.details_map entry) (inner row).1
            (Line.mk (inner row).2 no_totals)
            (fun line => Line.mk (Line.label line) (add_row (Line.totals line) row)))).

(** The callback of [Object.values(map).map(...)]. *)
Definition finish {L L'} (entry : Entry.t L L') : Group.t L L' :=
  Group.mk (Entry.label entry) (with_rate (Entry.totals entry))
    (by_sales Line.totals
       (List.map (fun line => Line.mk (Line.label line) (with_rate (Line.totals line)))
                 (Dict.values (Entry.details_map entry)))).

(** What a row says of its customer and of its product. *)
Definition customer_of (row : Processed.t) : string * (option string * option string) :=
  (property_key (Processed.resolved_customer_code row),
   (Processed.resolved_customer_code row, Processed.customer_full_name row)).

Definition product_of (row : Processed.t) : string * option string :=
  (property_key (OutboundRecord.product_model (Processed.record row)),
   OutboundRecord.product_model (Processed.record row)).

End Reports.

(** [throw error] *)
Definition throw {A} (e : Exn) : M A := fun w => (inl e, w).

Module AnalysisQueries.

Record Batch : Type := mkBatch {
  quantity_remaining : Z;
  unit_price : Q;
}.

(** The [while (qtyToFulfill > 0)] loop.  [charge] is [isTarget && partner].
    The result is the queue, the unfulfilled quantity and the accumulated
    cost when the loop exits. *)
Equations? consume (charge : bool) (batches : list Batch) (qtyToFulfill : Z)
    (currentRecordCost : Decimal.t) : list Batch * Z * Decimal.t
    by wf (length batches + (if (0 <? qtyToFulfill)%Z then 1 else 0))%nat lt :=
  consume charge batches qtyToFulfill currentRecordCost
    with (inspect (0 <? qtyToFulfill)) := {
    | exist _ false _ := (batches, qtyToFulfill, currentRecordCost)
    | exist _ true Hloop with batches := {
      | [] := ([], qtyToFulfill, currentRecordCost)
      | batch :: rest
        with (inspect (Z.min (quantity_remaining batch) qtyToFulfill)) := {
        | exist _ taken Htake
          with (inspect (quantity_remaining batch - taken <=? 0)) := {
          | exist _ true _ :=
              consume charge rest (qtyToFulfill - taken)
                (if charge
                 then decimalCalc.add (ArgValue currentRecordCost)
                        (ArgValue (decimalCalc.multiply (ArgValue (inject_Z taken))
                                     (ArgValue (unit_price batch))))
                 else currentRecordCost)
          | exist _ false Hleft :=
              consume charge
                (mkBatch (quantity_remaining batch - taken) (unit_price batch) :: rest)
                (qtyToFulfill - taken)
                (if charge
                 then decimalCalc.add (ArgValue currentRecordCost)
                        (ArgValue (decimalCalc.multiply (ArgValue (inject_Z taken))
                                     (ArgValue (unit_price batch))))
                 else currentRecordCost) } } } }.
Proof.
  - clear consume. simpl. rewrite Hloop.
    destruct (0 <? qtyToFulfill - _); lia.
  - clear consume. simpl. rewrite Hloop.
    destruct (0 <? qtyToFulfill - _) eqn:E; lia.
Qed.

(** [partnerCodeMap] *)
Definition partnerCodeMap (partners : list Partner.t) : gmap string Partner.t :=
  foldl (fun m p =>
           if falsy_string (Partner.code p) then m
           else <[default "" (Partner.code p) := p]> m) ∅ partners.

(** [partnerShortMap] *)
Definition partnerShortMap (partners : list Partner.t) : gmap string Partner.t :=
  foldl (fun m p =>
           if falsy_string (Partner.short_name p) then m
           else <[default "" (Partner.short_name p) := p]> m) ∅ partners.

(** Partner resolution: by code first, then by short name. *)
Definition resolve_partner (codeMap shortMap : gmap string Partner.t)
    (outRecord : OutboundRecord.t) : option Partner.t :=
  let code := OutboundRecord.customer_code outRecord in
  let short := OutboundRecord.customer_short_name outRecord in
  if negb (falsy_string code) && bool_decide (is_Some (codeMap !! default "" code))
  then codeMap !! default "" code
  else if negb (falsy_string short) && bool_decide (is_Some (shortMap !! default "" short))
  then shortMap !! default "" short
  else None.

(** One round of the loop over [allInbound]: push a batch on the
    product's queue. *)
Definition seed (inventoryState : gmap string (list Batch))
    (inRecord : InboundRecord.t) : gmap string (list Batch) :=
  if falsy_string (InboundRecord.product_model inRecord)
     || falsy_number (InboundRecord.quantity inRecord)
  then inventoryState
  else
    let model := default "" (InboundRecord.product_model inRecord) in
    <[model := (default [] (inventoryState !! model)
                ++ [mkBatch (default 0 (InboundRecord.quantity inRecord))
                            (default 0%Q (InboundRecord.unit_price inRecord))])%list]>
      inventoryState.

(** [outRecord.outbound_date >= startDate && outRecord.outbound_date <= endDate] *)
Definition isTarget (startDate endDate : string) (outRecord : OutboundRecord.t) : bool :=
  match OutboundRecord.outbound_date outRecord with
  | Some d => str_le startDate d && str_le d endDate
  | None => false
  end.

(** One round of the loop over [allOutbound].  The queue in
    [inventoryState] is the array the loop shifts, so what the loop leaves
    is what later records see; a product with no queue keeps having none. *)
Definition process (startDate endDate : string)
    (codeMap shortMap : gmap string Partner.t)
    (st : gmap string (list Batch) * list Processed.t)
    (outRecord : OutboundRecord.t) : gmap string (list Batch) * list Processed.t :=
  let (inventoryState, processedRecords) := st in
  if falsy_string (OutboundRecord.product_model outRecord)
     || falsy_number (OutboundRecord.quantity outRecord)
  then st
  else
    let model := default "" (OutboundRecord.product_model outRecord) in
    let qtyToFulfill := default 0 (OutboundRecord.quantity outRecord) in
    let batches := default [] (inventoryState !! model) in
    let target := isTarget startDate endDate outRecord in
    let partner := resolve_partner codeMap shortMap outRecord in
    let '(batches', _, currentRecordCost) :=
      consume (target && bool_decide (is_Some partner)) batches qtyToFulfill
              (decimalCalc.decimal (ArgValue 0)) in
    let inventoryState' :=
      match inventoryState !! model with
      | Some _ => <[model := batches']> inventoryState
      | None => inventoryState
      end in
    match partner with
    | Some p =>
        if target
        then (inventoryState',
              (processedRecords ++
               [Processed.mk outRecord
                  (decimalCalc.toNumber currentRecordCost 2)
                  (default 0%Q (OutboundRecord.total_price outRecord))
                  (Partner.full_name p) (Partner.code p)])%list)
        else (inventoryState', processedRecords)
    | None => (inventoryState', processedRecords)
    end.

(** Step 3 of [calculateFIFOData], on the fetched rows. *)
Definition simulate (startDate endDate : string)
    (allInbound : list InboundRecord.t) (allOutbound : list OutboundRecord.t)
    (partners : list Partner.t) : gmap string (list Batch) * list Processed.t :=
  foldl (process startDate endDate (partnerCodeMap partners) (partnerShortMap partners))
        (foldl seed ∅ allInbound, [])
        allOutbound.

Definition calculateFIFOData (startDate endDate : string) : M (list Processed.t) :=
  await allInbound <- tx.inboundRecord.findMany_in_stock;
  await allOutbound <- tx.outboundRecord.findMany_shipped_until endDate;
  await partners <- tx.partner.findMany;
  ret (snd (simulate startDate endDate allInbound allOutbound partners)).

(** The two reports built on the rows of the matcher. *)
Section ReportQueries.

Context `{Arithmetic}.

(** [String.prototype.trim] *)
Variable trim : string -> string.

Definition getCustomerAnalysisData (startDate endDate : string)
    : M (list (Group.t (option string * option string) (option string))) :=
  try_catch (
    await records <- calculateFIFOData startDate endDate;
    let customerMap := foldl (tally customer_of product_of) Dict.empty records in
    ret (by_sales Group.totals (List.map finish (Dict.values customerMap))))
  (fun error => throw error).

Definition getProductAnalysisData (startDate endDate : string)
    : M (list (Group.t (option string) (option string * option string))) :=
  try_catch (
    await records <- calculateFIFOData startDate endDate;
    let productMap := foldl (tally product_of customer_of) Dict.empty records in
    ret (by_sales Group.totals
           (List.filter
              (fun product =>
                 negb (falsy_string (Group.label product))
                 && negb (String.eqb (trim (default "" (Group.label product))) ""))
              (List.map finish (Dict.values productMap)))))
  (fun error => throw error).

End ReportQueries.

End AnalysisQueries.

Import AnalysisQueries.

(* ===================================================================== *)
(** * Specification vocabulary                                            *)
(* ===================================================================== *)

(** The quantity the projection gives for a product: that of its row,
    zero when it has no row. *)
Definition query (inv : gmap string Z) (product_model : string) : Z :=
  default 0 (inv !! product_model).

(** The sum of [change_qty] over the ledger entries of a product. *)
Definition ledger_sum (ledger : list LedgerEntry.t) (product_model : string) : Z :=
  foldr (fun e acc =>
           if String.eqb (LedgerEntry.product_model e) product_model
           then LedgerEntry.change_qty e + acc else acc) 0 ledger.

(** The projection invariant: every product's projected quantity is the
    sum of its ledger entries. *)
Definition projection_ok (s : Store) : Prop :=
  forall product_model,
    query (inventory s) product_model
    = ledger_sum (inventoryLedger s) product_model.

(** Partial correctness of a computation that returns normally. *)
Definition returns {A} (P : Store -> Prop) (m : M A) (Q : A -> Store -> Prop) : Prop :=
  forall w a w', P (db w) -> m w = (inr a, w') -> Q a (db w').

(** What [tx.inventory.upsert] leaves in the row of [product_model]. *)
Definition upserted (update : QuantityUpdate) (create : Z)
    (inv : gmap string Z) (product_model : string) : gmap string Z :=
  <[product_model := match inv !! product_model with
                     | Some q => apply_update update q
                     | None => create
                     end]> inv.

(** The tables after a committed create of a ledger entry. *)
Definition appended (e : LedgerEntry.t) (s : Store) : Store :=
  set_inventory
    (upserted (increment (LedgerEntry.change_qty e)) (LedgerEntry.change_qty e)
              (inventory s) (LedgerEntry.product_model e))
    (set_inventoryLedger (inventoryLedger s ++ [e]) s).

(** The projection after the revert loop has run over [entries]. *)
Definition reverted_inventory (entries : list LedgerEntry.t) (inv : gmap string Z)
    : gmap string Z :=
  foldl (fun inv e =>
           upserted (decrement (LedgerEntry.change_qty e)) (- LedgerEntry.change_qty e)
                    inv (LedgerEntry.product_model e))
        inv entries.

(** The tables after a committed revert of [(reference_id, change_type)]. *)
Definition reverted (reference_id : Z) (change_type : ChangeType) (s : Store) : Store :=
  set_inventoryLedger
    (List.filter (fun e => negb (tx.inventoryLedger.matches reference_id change_type e))
                 (inventoryLedger s))
    (set_inventory
       (reverted_inventory
          (List.filter (tx.inventoryLedger.matches reference_id change_type)
                       (inventoryLedger s))
          (inventory s))
       s).

(** A property of the tables survives a computation, however it ends. *)
Definition preserves {A} (Inv : Store -> Prop) (m : M A) : Prop :=
  forall w, Inv (db w) -> Inv (db (snd (m w))).

(** What a ledger entry says, its date apart: product, signed quantity,
    kind and reference. *)
Definition Key : Type := string * Z * ChangeType * Z.

Definition entry_key (e : LedgerEntry.t) : Key :=
  (LedgerEntry.product_model e, LedgerEntry.change_qty e,
   LedgerEntry.change_type e, LedgerEntry.reference_id e).

Definition event_key (e : Event.t) : Key :=
  (Event.model e, Event.qty e, Event.type e, Event.refId e).

Definition key_matches (reference_id : Z) (change_type : ChangeType) (k : Key) : bool :=
  let '(_, _, ty, ref) := k in (ref =? reference_id) && ChangeType_eqb ty change_type.

Definition key_sum (ks : list Key) (product_model : string) : Z :=
  foldr (fun (k : Key) acc =>
           let '(pm, q, _, _) := k in
           if String.eqb pm product_model then q + acc else acc) 0 ks.

(** The contribution of an inbound record to the ledger. *)
Definition inbound_keys (r : InboundRecord.t) : list Key :=
  if falsy_string (InboundRecord.product_model r) || falsy_number (InboundRecord.quantity r)
  then []
  else [(default "" (InboundRecord.product_model r),
         default 0 (InboundRecord.quantity r), INBOUND, InboundRecord.id r)].

(** The contribution of an outbound record to the ledger. *)
Definition outbound_keys (r : OutboundRecord.t) : list Key :=
  if falsy_string (OutboundRecord.product_model r) || falsy_number (OutboundRecord.quantity r)
  then []
  else [(default "" (OutboundRecord.product_model r),
         - default 0 (OutboundRecord.quantity r), OUTBOUND, OutboundRecord.id r)].

Definition source_keys (s : Store) : list Key :=
  flat_map inbound_keys (inboundRecord s) ++ flat_map outbound_keys (outboundRecord s).

(** A correctly maintained database: the projection sums the ledger, the
    ledger holds exactly the contributions of the source records, and the
    source tables have distinct ids below their counters. *)
Record in_sync (s : Store) : Prop := mk_in_sync {
  sync_projection : projection_ok s;
  sync_ledger : Permutation (List.map entry_key (inventoryLedger s)) (source_keys s);
  sync_inbound_ids : NoDup (List.map InboundRecord.id (inboundRecord s));
  sync_outbound_ids : NoDup (List.map OutboundRecord.id (outboundRecord s));
  sync_inbound_seq : Forall (fun r => InboundRecord.id r < inbound_seq s) (inboundRecord s);
  sync_outbound_seq : Forall (fun r => OutboundRecord.id r < outbound_seq s) (outboundRecord s);
}.

(** The sorted [events] timeline that [recalculateAll] builds at time
    [today] from the source tables. *)
Definition timeline (today : string) (s : Store) : list Event.t :=
  sort_by (fun a b => str_le (Event.date a) (Event.date b))
    (inventoryService.inbound_events today
       (sort_by (fun a b => date_le (InboundRecord.inbound_date a)
                                    (InboundRecord.inbound_date b)) (inboundRecord s))
     ++ inventoryService.outbound_events today
       (sort_by (fun a b => date_le (OutboundRecord.outbound_date a)
                                    (OutboundRecord.outbound_date b)) (outboundRecord s))).

(** The tables a committed rebuild leaves. *)
Definition rebuilt (today : string) (s : Store) : Store :=
  set_inventory (foldl inventoryService.add_total ∅ (timeline today s))
    (set_inventoryLedger (List.map inventoryService.ledger_row (timeline today s)) s).

(** The tables after a committed [onInboundCreate] at time [today]. *)
Definition inbound_created (today : string) (r : InboundRecord.t) (s : Store) : Store :=
  if falsy_string (InboundRecord.product_model r) || falsy_number (InboundRecord.quantity r)
  then s
  else appended
         (LedgerEntry.mk (default "" (InboundRecord.product_model r))
            (default 0 (InboundRecord.quantity r)) INBOUND (InboundRecord.id r)
            (or_else (InboundRecord.inbound_date r) today)) s.

(** The tables after a committed [onOutboundCreate] at time [today]. *)
Definition outbound_created (today : string) (r : OutboundRecord.t) (s : Store) : Store :=
  if falsy_string (OutboundRecord.product_model r) || falsy_number (OutboundRecord.quantity r)
  then s
  else appended
         (LedgerEntry.mk (default "" (OutboundRecord.product_model r))
            (- default 0 (OutboundRecord.quantity r)) OUTBOUND (OutboundRecord.id r)
            (or_else (OutboundRecord.outbound_date r) today)) s.

(** Units left in a queue. *)
Definition total_remaining (batches : list Batch) : Z :=
  foldr (fun b acc => quantity_remaining b + acc) 0 batches.


Definition in_stock (batches : list Batch) : Prop :=
  Forall (fun b => 0 < quantity_remaining b) batches.



(** The projection's quantity column of a ledger key. *)
Definition key_model (k : Key) : string := k.1.1.1.

(** The same world with no fault planned. *)
Definition quiet (w : World) : World := mkWorld (db w) [] (now w).

(** A computation that returns normally under some fault plan returns
    the same value, and leaves the same tables, when no call fails: faults
    only ever make it raise. *)
Definition steady {A} (m : M A) : Prop :=
  forall w a w', m w = (inr a, w') ->
    now w' = now w /\ m (quiet w) = (inr a, quiet w').

(** The exceptions a computation can raise. *)
Definition raises_only {A} (P : Exn -> Prop) (m : M A) : Prop :=
  forall w e w', m w = (inl e, w') -> P e.

(** What a revert of [(reference_id, change_type)] may touch: the ledger
    entries under that reference and the projection rows of their
    products, nothing else. *)
Definition only_reverted (reference_id : Z) (change_type : ChangeType) (s s' : Store) : Prop :=
  List.filter (fun e => negb (tx.inventoryLedger.matches reference_id change_type e))
              (inventoryLedger s')
  = List.filter (fun e => negb (tx.inventoryLedger.matches reference_id change_type e))
                (inventoryLedger s)
  /\ (forall product_model,
        Forall (fun e => tx.inventoryLedger.matches reference_id change_type e = true ->
                         LedgerEntry.product_model e <> product_model)
               (inventoryLedger s) ->
        inventory s' !! product_model = inventory s !! product_model)
  /\ inboundRecord s' = inboundRecord s
  /\ outboundRecord s' = outboundRecord s
  /\ partner s' = partner s.

(** The [try] block of a handler, and its [catch]. *)
Definition handler_body (req : Request) : M Z :=
  match req with
  | PostInbound body =>
      await result <- tx.inboundRecord.create body;
      exec inventoryService.onInboundCreate result;
      ret 200
  | PutInbound id body =>
      await oldRecord <- tx.inboundRecord.findUnique id;
      match oldRecord with
      | None => ret 404
      | Some oldRecord =>
          await result <- tx.inboundRecord.update id body;
          exec inventoryService.onInboundUpdate oldRecord result;
          ret 200
      end
  | DeleteInbound id =>
      exec tx.inboundRecord.delete id;
      exec inventoryService.onInboundDelete id;
      ret 200
  | PostOutbound body =>
      await result <- tx.outboundRecord.create (outboundRoutes.priced body);
      exec inventoryService.onOutboundCreate result;
      ret 200
  | PutOutbound id body =>
      await oldRecord <- tx.outboundRecord.findUnique id;
      match oldRecord with
      | None => ret 404
      | Some oldRecord =>
          await result <- tx.outboundRecord.update id (outboundRoutes.priced body);
          exec inventoryService.onOutboundUpdate oldRecord result;
          ret 200
      end
  | DeleteOutbound id =>
      exec tx.outboundRecord.delete id;
      exec inventoryService.onOutboundDelete id;
      ret 200
  end.

Definition handler_catch (req : Request) : Exn -> M Z :=
  match req with
  | PostInbound _ | PostOutbound _ => fun _ => ret 500
  | _ => on_error
  end.

(** One round of a batch loop counted one record: one of the three
    counters went up by one, and [notFound] grew by that record at most. *)
Definition counted (recordId : Z) (acc acc' : BatchReport) : Prop :=
  (updated acc' + length (notFound acc') + errors acc'
   = S (updated acc + length (notFound acc) + errors acc))%nat
  /\ (notFound acc' = notFound acc \/ notFound acc' = notFound acc ++ [recordId]).

(** A batch request answered with a report that accounts for every id. *)
Definition batch_answered (ids : list Z) (run : (Exn + BatchAnswer) * World) : Prop :=
  exists report,
    fst run = inr (Completed report)
    /\ (updated report + length (notFound report) + errors report = length ids)%nat
    /\ incl (notFound report) ids.

(** A batch request turned down with status 400 before any database
    call. *)
Definition batch_rejected (w : World) (run : (Exn + BatchAnswer) * World) : Prop :=
  exists error, run = (inr (BadRequest error), w).

(** Whether a source table has a row under an id. *)
Definition known_inbound (s : Store) (id : Z) : bool :=
  existsb (fun r => InboundRecord.id r =? id) (inboundRecord s).

Definition known_outbound (s : Store) (id : Z) : bool :=
  existsb (fun r => OutboundRecord.id r =? id) (outboundRecord s).

(** The report of a batch over [ids] none of whose rounds fails. *)
Definition clean_report (known : Z -> bool) (ids : list Z) : BatchReport :=
  mkBatchReport (length (List.filter known ids))
                (List.filter (fun id => negb (known id)) ids) 0.







(** The construction shared by [partnerCodeMap] and [partnerShortMap]. *)
Definition index_partners (key : Partner.t -> option string)
    (m : gmap string Partner.t) (partners : list Partner.t) : gmap string Partner.t :=
  foldl (fun m p => if falsy_string (key p) then m
                    else <[default "" (key p) := p]> m) m partners.












(** A report in descending order of sales. *)
Definition descending `{Arithmetic} {X} (totals : X -> Totals.t) (l : list X) : Prop :=
  StronglySorted
    (fun a b => positive (minus (Totals.sales_amount (totals b))
                                (Totals.sales_amount (totals a))) = false) l.



(* ===================================================================== *)
(** * Scenarios                                                           *)
(* ===================================================================== *)

(** An empty database where no database call fails. *)
Definition quiet_world : World := mkWorld empty_store [] "2024-06-01T00:00:00.000Z".

(** An inbound record with a negative quantity. *)
Definition negative_inbound : InboundRecord.t :=
  InboundRecord.mk 1 (Some "X") (Some (-5)) (Some 2%Q) (Some "2024-01-01").

(** One inbound record of 10 units, its ledger entry and its projection. *)
Definition one_entry_store : Store :=
  mkStore [InboundRecord.mk 1 (Some "X") (Some 10) (Some 5%Q) (Some "2024-01-01")] 2
          [] 1 []
          [LedgerEntry.mk "X" 10 INBOUND 1 "2024-01-01"]
          {["X" := 10]}.

(** The fourth database call of an update (the ledger insert of the
    re-create) fails. *)
Definition recreate_fails : World :=
  mkWorld one_entry_store [false; false; false; true] "2024-06-01T00:00:00.000Z".

(** One outbound record of 4 units, its ledger entry and its projection,
    and the same failure. *)
Definition one_shipment_store : Store :=
  mkStore [] 1
          [OutboundRecord.mk 1 (Some "X") (Some 4) (Some "2024-01-02") None None None None] 2
          []
          [LedgerEntry.mk "X" (-4) OUTBOUND 1 "2024-01-02"]
          {["X" := -4]}.

Definition reship_fails : World :=
  mkWorld one_shipment_store [false; false; false; true] "2024-06-01T00:00:00.000Z".

Definition acme : Partner.t := Partner.mk (Some "C1") (Some "acme") (Some "Acme Ltd").

(** Two batches of one product, and three shipments to Acme: one before
    March, one in March, one after. *)
Definition early_shipment_store : Store :=
  mkStore
    [InboundRecord.mk 1 (Some "X") (Some 10) (Some 5%Q) (Some "2024-01-01");
     InboundRecord.mk 2 (Some "X") (Some 10) (Some 8%Q) (Some "2024-02-01")] 3
    [OutboundRecord.mk 1 (Some "X") (Some 10) (Some "2024-02-15") None (Some 100%Q)
                       (Some "C1") None;
     OutboundRecord.mk 2 (Some "X") (Some 5) (Some "2024-03-10") None (Some 75%Q)
                       (Some "C1") None;
     OutboundRecord.mk 3 (Some "X") (Some 5) (Some "2024-04-02") None (Some 75%Q)
                       (Some "C1") None] 4
    [acme] [] ∅.

(** Fifteen units shipped to Acme in March. *)
Definition march_shipment : OutboundRecord.t :=
  OutboundRecord.mk 1 (Some "X") (Some 15) (Some "2024-03-10") (Some 20%Q) (Some 300%Q)
                    (Some "C1") None.





(** Ten units received and four shipped, with the ledger and the
    projection that go with them. *)
Definition synced_store : Store :=
  mkStore [InboundRecord.mk 1 (Some "X") (Some 10) (Some 5%Q) (Some "2024-01-01")] 2
          [OutboundRecord.mk 1 (Some "X") (Some 4) (Some "2024-01-02") (Some 9%Q)
                             (Some 36%Q) (Some "C1") None] 2
          [acme]
          [LedgerEntry.mk "X" 10 INBOUND 1 "2024-01-01";
           LedgerEntry.mk "X" (-4) OUTBOUND 1 "2024-01-02"]
          {["X" := 6]}.

(** The second database call of a request fails. *)
Definition second_call_fails : World :=
  mkWorld synced_store [false; true] "2024-06-01T00:00:00.000Z".

(** The same tables with the inbound rows stored the other way round. *)
Definition early_shipment_store_reversed : Store :=
  set_inboundRecord (rev (inboundRecord early_shipment_store)) 3 early_shipment_store.

(** Exact arithmetic on rationals, as an instance of the arithmetic of
    the reports. *)
Definition exact_arithmetic : Arithmetic :=
  Build_Arithmetic Q 0%Q 100%Q Qplus Qminus Qmult Qdiv
                   (fun x => Qnum x =? 0) (fun x => negb (Qle_bool x 0)) (fun q => q).


(* ===================================================================== *)
(** * The effect monad: inversion and success-path rules                  *)
(* ===================================================================== *)

Lemma bind_inr {A B} (m : M A) (k : A -> M B) w b w' :
  bind m k w = (inr b, w') ->
  exists a w1, m w = (inr a, w1) /\ k a w1 = (inr b, w').
Proof.
  unfold bind. destruct (m w) as [[e|a] w1]; [discriminate|]. eauto.
Qed.

Lemma prisma_call_inr {A} (f : Store -> (Exn + A) * Store) w a w' :
  prisma_call f w = (inr a, w') -> f (db w) = (inr a, db w').
Proof.
  unfold prisma_call. destruct (faults w) as [|[] rest];
    try discriminate; destruct (f (db w)) as [r s']; intros [= -> <-]; reflexivity.
Qed.

Lemma transaction_cases {A} (body : M A) w :
  (exists a w', body w = (inr a, w') /\ transaction body w = (inr a, w'))
  \/ (exists e w', transaction body w = (inl e, w') /\ db w' = db w).
Proof.
  unfold transaction. destruct (body w) as [[e|a] w1]; [right|left]; eauto.
Qed.

Lemma returns_bind {A B} (P : Store -> Prop) (m : M A) (k : A -> M B) Q R :
  returns P m Q -> (forall a, returns (Q a) (k a) R) -> returns P (bind m k) R.
Proof.
  intros Hm Hk w b w' HP Hrun.
  apply bind_inr in Hrun as (a & w1 & H1 & H2). eapply Hk; eauto.
Qed.

Lemma returns_weaken {A} (P P' : Store -> Prop) (m : M A) (Q Q' : A -> Store -> Prop) :
  returns P m Q -> (forall s, P' s -> P s) -> (forall a s, Q a s -> Q' a s) ->
  returns P' m Q'.
Proof. intros H HP HQ w a w' HP' Hrun. eauto. Qed.

Lemma returns_call {A} (P : Store -> Prop) (f : Store -> (Exn + A) * Store) :
  returns P (prisma_call f) (fun a s' => exists s, P s /\ f s = (inr a, s')).
Proof. intros w a w' HP Hrun. apply prisma_call_inr in Hrun. eauto. Qed.

Lemma returns_now (P : Store -> Prop) :
  returns P new_Date_toISOString (fun _ s => P s).
Proof. intros w a w' HP [= <- <-]. exact HP. Qed.

Lemma returns_for_each {A} (Inv : list A -> Store -> Prop) (body : A -> M unit) :
  (forall seen x, returns (Inv seen) (body x) (fun _ s => Inv (seen ++ [x]) s)) ->
  forall xs seen, returns (Inv seen) (for_each xs body) (fun _ s => Inv (seen ++ xs) s).
Proof.
  intros Hbody xs. induction xs as [|x rest IH]; intros seen; simpl.
  - intros w a w' HI [= <- <-]. by rewrite app_nil_r.
  - eapply returns_bind; [apply Hbody|]. intros u; simpl.
    eapply returns_weaken.
    + apply (IH (seen ++ [x])).
    + intros s Hs. exact Hs.
    + intros a s HI. simpl in HI. rewrite <- app_assoc in HI. exact HI.
Qed.

(* ===================================================================== *)
(** * Ledger arithmetic                                                   *)
(* ===================================================================== *)

Lemma ledger_sum_app l1 l2 m :
  ledger_sum (l1 ++ l2) m = ledger_sum l1 m + ledger_sum l2 m.
Proof.
  induction l1 as [|e l1 IH]; simpl; [reflexivity|].
  destruct (String.eqb _ _); lia.
Qed.

Lemma ledger_sum_filter_split (p : LedgerEntry.t -> bool) l m :
  ledger_sum l m
  = ledger_sum (List.filter p l) m + ledger_sum (List.filter (fun e => negb (p e)) l) m.
Proof.
  induction l as [|e l IH]; simpl; [reflexivity|].
  destruct (p e); simpl; destruct (String.eqb _ _); lia.
Qed.

Lemma query_upserted_increment d inv pm m :
  query (upserted (increment d) d inv pm) m
  = query inv m + (if String.eqb pm m then d else 0).
Proof.
  unfold query, upserted. destruct (String.eqb_spec pm m) as [->|Hne].
  - rewrite lookup_insert_eq. destruct (inv !! m); simpl; lia.
  - rewrite lookup_insert_ne by done. lia.
Qed.

Lemma query_upserted_decrement d inv pm m :
  query (upserted (decrement d) (- d) inv pm) m
  = query inv m - (if String.eqb pm m then d else 0).
Proof.
  unfold query, upserted. destruct (String.eqb_spec pm m) as [->|Hne].
  - rewrite lookup_insert_eq. destruct (inv !! m); simpl; lia.
  - rewrite lookup_insert_ne by done. lia.
Qed.

Lemma query_reverted_inventory entries inv m :
  query (reverted_inventory entries inv) m = query inv m - ledger_sum entries m.
Proof.
  revert inv. induction entries as [|e entries IH]; intros inv; simpl; [lia|].
  unfold reverted_inventory in *. simpl. rewrite IH, query_upserted_decrement.
  destruct (String.eqb _ _); lia.
Qed.

Lemma appended_ok e s : projection_ok s -> projection_ok (appended e s).
Proof.
  intros H m. unfold appended. simpl.
  rewrite query_upserted_increment, ledger_sum_app, H. simpl.
  destruct (String.eqb _ _); lia.
Qed.

Lemma reverted_ok id ty s : projection_ok s -> projection_ok (reverted id ty s).
Proof.
  intros H m. unfold reverted. simpl.
  rewrite query_reverted_inventory, H.
  rewrite (ledger_sum_filter_split (tx.inventoryLedger.matches id ty) (inventoryLedger s) m).
  lia.
Qed.

Lemma empty_store_ok : projection_ok empty_store.
Proof. intros m. reflexivity. Qed.

(* ===================================================================== *)
(** * What the reconciler's transactions commit                           *)
(* ===================================================================== *)

Lemma upsert_returns s0 pm u c :
  returns (eq s0) (tx.inventory.upsert pm u c)
          (fun _ s => s = set_inventory (upserted u c (inventory s0) pm) s0).
Proof.
  intros w a w' -> Hrun. apply prisma_call_inr in Hrun.
  inversion Hrun. reflexivity.
Qed.

Lemma ledger_create_returns s0 e :
  returns (eq s0) (tx.inventoryLedger.create e)
          (fun _ s => s = set_inventoryLedger (inventoryLedger s0 ++ [e]) s0).
Proof.
  intros w a w' -> Hrun. apply prisma_call_inr in Hrun.
  inversion Hrun. reflexivity.
Qed.

(** The body shared by both creates. *)
Lemma create_body_returns s0 pm qty ty id date :
  returns (eq s0)
    (await today <- new_Date_toISOString;
     exec tx.inventoryLedger.create (LedgerEntry.mk pm qty ty id (or_else date today));
     tx.inventory.upsert pm (increment qty) qty)
    (fun _ s => exists d, s = appended (LedgerEntry.mk pm qty ty id d) s0).
Proof.
  eapply returns_bind; [apply returns_now|]. intros today. simpl.
  eapply returns_bind; [apply ledger_create_returns|]. intros u. simpl.
  intros w a w' Hs Hrun. exists (or_else date today).
  eapply upsert_returns in Hrun; [|reflexivity]. rewrite Hrun, Hs. reflexivity.
Qed.

Lemma revert_loop_returns s0 entries :
  returns (eq s0) (for_each entries inventoryService.revert_entry)
          (fun _ s => s = set_inventory (reverted_inventory entries (inventory s0)) s0).
Proof.
  eapply returns_weaken.
  - apply (returns_for_each
             (fun seen s => s = set_inventory (reverted_inventory seen (inventory s0)) s0)
             inventoryService.revert_entry) with (seen := []).
    intros seen x w a w' Hs Hrun. unfold inventoryService.revert_entry in Hrun.
    eapply upsert_returns in Hrun; [|reflexivity]. rewrite Hrun, Hs. simpl.
    unfold reverted_inventory. rewrite foldl_app. reflexivity.
  - intros s <-. destruct s0; reflexivity.
  - intros a s Hs. exact Hs.
Qed.

(** The body shared by both deletes. *)
Lemma delete_body_returns s0 id ty :
  returns (eq s0)
    (await entries <- tx.inventoryLedger.findMany id ty;
     exec for_each entries inventoryService.revert_entry;
     tx.inventoryLedger.deleteMany id ty)
    (fun _ s => s = reverted id ty s0).
Proof.
  eapply returns_bind; [apply returns_call|]. intros entries. simpl.
  intros w a w' (s & -> & [= <- ->]) Hrun.
  apply bind_inr in Hrun as (u & w1 & Hloop & Hdel).
  eapply revert_loop_returns in Hloop; [|reflexivity].
  apply prisma_call_inr in Hdel. inversion Hdel.
  rewrite Hloop. reflexivity.
Qed.

(* ===================================================================== *)
(** * The projection invariant                                            *)
(* ===================================================================== *)

Section Preservation.

Variable Inv : Store -> Prop.

Lemma preserves_ret {A} (a : A) : preserves Inv (ret a).
Proof. intros w H. exact H. Qed.

Lemma preserves_bind {A B} (m : M A) (k : A -> M B) :
  preserves Inv m -> (forall a, preserves Inv (k a)) -> preserves Inv (bind m k).
Proof.
  intros Hm Hk w H. unfold bind. specialize (Hm w H).
  destruct (m w) as [[e|a] w1]; simpl in *; [exact Hm|]. by apply Hk.
Qed.

(** A transaction only needs its committed effect to re-establish the
    property: a failing body leaves the tables as they were. *)
Lemma preserves_transaction {A} (body : M A) :
  (forall s0, Inv s0 -> returns (eq s0) body (fun _ s => Inv s)) ->
  preserves Inv (transaction body).
Proof.
  intros Hbody w H.
  destruct (transaction_cases body w) as [(a & w' & Hrun & ->)|(e & w' & -> & Hdb)]; simpl.
  - eapply Hbody; eauto.
  - by rewrite Hdb.
Qed.

End Preservation.

Lemma onInboundCreate_preserves r :
  preserves projection_ok (inventoryService.onInboundCreate r).
Proof.
  unfold inventoryService.onInboundCreate.
  destruct (_ || _); [apply preserves_ret|].
  apply preserves_transaction. intros s0 H.
  eapply returns_weaken.
  - apply (create_body_returns s0).
  - intros s Hs; exact Hs.
  - intros a s [d ->]. by apply appended_ok.
Qed.

Lemma onOutboundCreate_preserves r :
  preserves projection_ok (inventoryService.onOutboundCreate r).
Proof.
  unfold inventoryService.onOutboundCreate.
  destruct (_ || _); [apply preserves_ret|].
  apply preserves_transaction. intros s0 H.
  eapply returns_weaken.
  - apply (create_body_returns s0).
  - intros s Hs; exact Hs.
  - intros a s [d ->]. by apply appended_ok.
Qed.

Lemma onInboundDelete_preserves id :
  preserves projection_ok (inventoryService.onInboundDelete id).
Proof.
  apply preserves_transaction. intros s0 H.
  eapply returns_weaken.
  - apply (delete_body_returns s0).
  - intros s Hs; exact Hs.
  - intros a s ->. by apply reverted_ok.
Qed.

Lemma onOutboundDelete_preserves id :
  preserves projection_ok (inventoryService.onOutboundDelete id).
Proof.
  apply preserves_transaction. intros s0 H.
  eapply returns_weaken.
  - apply (delete_body_returns s0).
  - intros s Hs; exact Hs.
  - intros a s ->. by apply reverted_ok.
Qed.

Lemma mutate_preserves mu : preserves projection_ok (mutate mu).
Proof.
  destruct mu; simpl.
  - apply onInboundCreate_preserves.
  - apply onOutboundCreate_preserves.
  - apply onInboundDelete_preserves.
  - apply onOutboundDelete_preserves.
  - apply preserves_bind; [apply onInboundDelete_preserves|].
    intros _. apply onInboundCreate_preserves.
  - apply preserves_bind; [apply onOutboundDelete_preserves|].
    intros _. apply onOutboundCreate_preserves.
Qed.

Lemma mutate_all_preserves mus :
  forall w, projection_ok (db w) -> projection_ok (db (mutate_all mus w)).
Proof.
  induction mus as [|[time mu] mus IH]; intros w H; simpl; [exact H|].
  apply IH. by apply (mutate_preserves mu (mkWorld (db w) (faults w) time)).
Qed.

(** C1. Starting from tables where every product's projected quantity is
    the sum of its ledger entries, after any sequence of reconciler calls
    (creates, deletes and the updates composed from them, inbound and
    outbound, whatever their arguments, whichever database calls fail on
    the way) a product's stored quantity is the sum of [change_qty] over
    its ledger entries, and a product without a stored row has entries
    summing to zero. *)
Theorem C1_projection_invariant :
  forall (mus : list (string * Mutation)) (w : World) (product_model : string),
    projection_ok (db w) ->
    let s := db (mutate_all mus w) in
    (forall q, inventory s !! product_model = Some q ->
               q = ledger_sum (inventoryLedger s) product_model)
    /\ (inventory s !! product_model = None ->
        ledger_sum (inventoryLedger s) product_model = 0).
Proof.
  intros mus w m H s.
  pose proof (mutate_all_preserves mus w H m) as Hm. fold s in Hm.
  unfold query in Hm. split.
  - intros q Hq. rewrite Hq in Hm. exact Hm.
  - intros Hq. rewrite Hq in Hm. simpl in Hm. lia.
Qed.

(* ===================================================================== *)
(** * Runs without database faults                                        *)
(* ===================================================================== *)

Lemma set_inventory_id s : set_inventory (inventory s) s = s.
Proof. destruct s; reflexivity. Qed.

Lemma set_inventoryLedger_id s : set_inventoryLedger (inventoryLedger s) s = s.
Proof. destruct s; reflexivity. Qed.

Lemma revert_loop_no_fault entries s t :
  for_each entries inventoryService.revert_entry (mkWorld s [] t)
  = (inr tt, mkWorld (set_inventory (reverted_inventory entries (inventory s)) s) [] t).
Proof.
  revert s. induction entries as [|e entries IH]; intros s; simpl.
  - unfold ret. by rewrite set_inventory_id.
  - unfold bind, inventoryService.revert_entry, tx.inventory.upsert, prisma_call. simpl.
    rewrite IH. reflexivity.
Qed.

Lemma delete_no_fault id ty s t :
  transaction
    (await entries <- tx.inventoryLedger.findMany id ty;
     exec for_each entries inventoryService.revert_entry;
     tx.inventoryLedger.deleteMany id ty) (mkWorld s [] t)
  = (inr tt, mkWorld (reverted id ty s) [] t).
Proof.
  unfold transaction, bind, tx.inventoryLedger.findMany, prisma_call. simpl.
  rewrite revert_loop_no_fault. reflexivity.
Qed.

Lemma create_no_fault pm qty ty id date s t :
  transaction
    (await today <- new_Date_toISOString;
     exec tx.inventoryLedger.create (LedgerEntry.mk pm qty ty id (or_else date today));
     tx.inventory.upsert pm (increment qty) qty) (mkWorld s [] t)
  = (inr tt, mkWorld (appended (LedgerEntry.mk pm qty ty id (or_else date t)) s) [] t).
Proof. reflexivity. Qed.

Lemma filter_none_negb {A} (p : A -> bool) (l : list A) :
  List.filter p l = [] -> List.filter (fun x => negb (p x)) l = l.
Proof.
  induction l as [|x l IH]; simpl; [reflexivity|].
  destruct (p x); [discriminate|]. intros H. simpl. by rewrite IH.
Qed.

Lemma reverted_unknown id ty s :
  List.filter (tx.inventoryLedger.matches id ty) (inventoryLedger s) = [] ->
  reverted id ty s = s.
Proof.
  intros H. unfold reverted. rewrite H, filter_none_negb by exact H. simpl.
  rewrite set_inventory_id. apply set_inventoryLedger_id.
Qed.

(* ===================================================================== *)
(** * Invalid input and unknown references                                *)
(* ===================================================================== *)

(** C7, as amended.  A create whose record has no product model ([null] or
    the empty string) or whose quantity is absent or zero returns normally
    and leaves the whole world as it was: no ledger entry, no projection
    change, not even a database call. *)
Theorem C7_falsy_create_is_noop :
  forall (w : World),
    (forall r : InboundRecord.t,
        InboundRecord.product_model r = None \/ InboundRecord.product_model r = Some ""
        \/ InboundRecord.quantity r = None \/ InboundRecord.quantity r = Some 0 ->
        inventoryService.onInboundCreate r w = (inr tt, w))
    /\ (forall r : OutboundRecord.t,
        OutboundRecord.product_model r = None \/ OutboundRecord.product_model r = Some ""
        \/ OutboundRecord.quantity r = None \/ OutboundRecord.quantity r = Some 0 ->
        inventoryService.onOutboundCreate r w = (inr tt, w)).
Proof.
  intros w. split; intros r H.
  - unfold inventoryService.onInboundCreate.
    destruct H as [H|[H|[H|H]]]; rewrite H; simpl; try reflexivity;
      by rewrite orb_true_r.
  - unfold inventoryService.onOutboundCreate.
    destruct H as [H|[H|[H|H]]]; rewrite H; simpl; try reflexivity;
      by rewrite orb_true_r.
Qed.

(** C8.  Reverting a reference that has no ledger entry of the given kind
    leaves every table as it was, whichever database calls fail, and
    returns normally when none fails. *)
Theorem C8_revert_unknown_is_noop :
  forall (id : Z) (w : World),
    (List.filter (tx.inventoryLedger.matches id INBOUND) (inventoryLedger (db w)) = [] ->
     db (snd (inventoryService.onInboundDelete id w)) = db w
     /\ (faults w = [] -> inventoryService.onInboundDelete id w = (inr tt, w)))
    /\ (List.filter (tx.inventoryLedger.matches id OUTBOUND) (inventoryLedger (db w)) = [] ->
        db (snd (inventoryService.onOutboundDelete id w)) = db w
        /\ (faults w = [] -> inventoryService.onOutboundDelete id w = (inr tt, w))).
Proof.
  intros id w. split; intros H; split.
  - unfold inventoryService.onInboundDelete.
    match goal with |- context [transaction ?b] =>
      destruct (transaction_cases b w) as [(a & w' & Hrun & ->)|(e & w' & -> & Hdb)] end;
      simpl; [|exact Hdb].
    eapply delete_body_returns in Hrun; [|reflexivity].
    rewrite Hrun. by apply reverted_unknown.
  - intros Hf. destruct w as [s plan t]. simpl in *. subst plan.
    unfold inventoryService.onInboundDelete. rewrite delete_no_fault.
    by rewrite reverted_unknown.
  - unfold inventoryService.onOutboundDelete.
    match goal with |- context [transaction ?b] =>
      destruct (transaction_cases b w) as [(a & w' & Hrun & ->)|(e & w' & -> & Hdb)] end;
      simpl; [|exact Hdb].
    eapply delete_body_returns in Hrun; [|reflexivity].
    rewrite Hrun. by apply reverted_unknown.
  - intros Hf. destruct w as [s plan t]. simpl in *. subst plan.
    unfold inventoryService.onOutboundDelete. rewrite delete_no_fault.
    by rewrite reverted_unknown.
Qed.

(** C7, as stated, fails: a non-positive quantity is not always a no-op. *)
Lemma C7_counterexample :
  ~ (forall (r : InboundRecord.t) (w : World),
        (InboundRecord.product_model r = None
         \/ InboundRecord.quantity r = None
         \/ exists q, InboundRecord.quantity r = Some q /\ q <= 0) ->
        inventoryLedger (db (snd (inventoryService.onInboundCreate r w)))
        = inventoryLedger (db w)).
Proof.
  intros H. specialize (H negative_inbound quiet_world).
  assert (Hpre : InboundRecord.product_model negative_inbound = None
                 \/ InboundRecord.quantity negative_inbound = None
                 \/ exists q, InboundRecord.quantity negative_inbound = Some q /\ q <= 0).
  { right. right. exists (-5). split; [reflexivity|lia]. }
  specialize (H Hpre). vm_compute in H. discriminate H.
Qed.

Lemma C7_falsy_create_is_noop_witness :
  (InboundRecord.quantity (InboundRecord.mk 3 (Some "X") (Some 0) None None) = Some 0
   /\ inventoryService.onInboundCreate
        (InboundRecord.mk 3 (Some "X") (Some 0) None None) quiet_world
      = (inr tt, quiet_world))
  /\ (OutboundRecord.product_model
        (OutboundRecord.mk 4 (Some "") (Some 9) None None None None None) = Some ""
      /\ inventoryService.onOutboundCreate
           (OutboundRecord.mk 4 (Some "") (Some 9) None None None None None) quiet_world
         = (inr tt, quiet_world)).
Proof.
  split; (split; [reflexivity|]).
  - apply (proj1 (C7_falsy_create_is_noop quiet_world)).
    right; right; right; reflexivity.
  - apply (proj2 (C7_falsy_create_is_noop quiet_world)).
    right; left; reflexivity.
Defined.

Lemma C8_revert_unknown_is_noop_witness :
  (List.filter (tx.inventoryLedger.matches 2 INBOUND) (inventoryLedger one_entry_store) = []
   /\ inventoryService.onInboundDelete 2 (mkWorld one_entry_store [] "t")
      = (inr tt, mkWorld one_entry_store [] "t"))
  /\ (List.filter (tx.inventoryLedger.matches 1 OUTBOUND) (inventoryLedger one_entry_store) = []
      /\ inventoryService.onOutboundDelete 1 (mkWorld one_entry_store [] "t")
         = (inr tt, mkWorld one_entry_store [] "t")).
Proof.
  split; (split; [reflexivity|]).
  - apply (proj1 (C8_revert_unknown_is_noop 2 (mkWorld one_entry_store [] "t")));
      reflexivity.
  - apply (proj2 (C8_revert_unknown_is_noop 1 (mkWorld one_entry_store [] "t")));
      reflexivity.
Defined.

Lemma C1_projection_invariant_witness :
  projection_ok empty_store
  /\ (forall q,
        inventory (db (mutate_all
          [("2024-01-01", OnInboundCreate negative_inbound);
           ("2024-01-02", OnInboundUpdate negative_inbound
                            (InboundRecord.mk 1 (Some "X") (Some 7) None None));
           ("2024-01-03", OnOutboundCreate
                            (OutboundRecord.mk 1 (Some "X") (Some 3) None None None None None));
           ("2024-01-04", OnOutboundDelete 9)]
          (mkWorld empty_store [false; false; true] "2024-01-01"))) !! "X" = Some q ->
        q = ledger_sum (inventoryLedger (db (mutate_all
          [("2024-01-01", OnInboundCreate negative_inbound);
           ("2024-01-02", OnInboundUpdate negative_inbound
                            (InboundRecord.mk 1 (Some "X") (Some 7) None None));
           ("2024-01-03", OnOutboundCreate
                            (OutboundRecord.mk 1 (Some "X") (Some 3) None None None None None));
           ("2024-01-04", OnOutboundDelete 9)]
          (mkWorld empty_store [false; false; true] "2024-01-01")))) "X").
Proof.
  split; [exact empty_store_ok|].
  apply (C1_projection_invariant _ (mkWorld empty_store [false; false; true] "2024-01-01") "X").
  exact empty_store_ok.
Defined.

(* ===================================================================== *)
(** * Updates: two transactions, not one                                  *)
(* ===================================================================== *)

Lemma transaction_inl {A} (body : M A) w e w' :
  transaction body w = (inl e, w') -> db w' = db w.
Proof.
  destruct (transaction_cases body w) as [(a & w1 & _ & ->)|(e1 & w1 & -> & Hdb)].
  - discriminate.
  - intros [= _ <-]. exact Hdb.
Qed.

Lemma transaction_inr {A} (body : M A) w a w' :
  transaction body w = (inr a, w') -> body w = (inr a, w').
Proof.
  unfold transaction. destruct (body w) as [[e|a0] w1]; [discriminate|]. auto.
Qed.

Lemma onInboundCreate_inl r w e w' :
  inventoryService.onInboundCreate r w = (inl e, w') -> db w' = db w.
Proof.
  unfold inventoryService.onInboundCreate. destruct (_ || _); [discriminate|].
  apply transaction_inl.
Qed.

Lemma onOutboundCreate_inl r w e w' :
  inventoryService.onOutboundCreate r w = (inl e, w') -> db w' = db w.
Proof.
  unfold inventoryService.onOutboundCreate. destruct (_ || _); [discriminate|].
  apply transaction_inl.
Qed.

Lemma onInboundDelete_inr id w a w' :
  inventoryService.onInboundDelete id w = (inr a, w') ->
  db w' = reverted id INBOUND (db w).
Proof.
  intros H. apply transaction_inr in H.
  eapply delete_body_returns in H; [exact H|reflexivity].
Qed.

Lemma onOutboundDelete_inr id w a w' :
  inventoryService.onOutboundDelete id w = (inr a, w') ->
  db w' = reverted id OUTBOUND (db w).
Proof.
  intros H. apply transaction_inr in H.
  eapply delete_body_returns in H; [exact H|reflexivity].
Qed.

(** C3, as stated, fails: when the re-create raises, the revert stays
    committed and the stock of the old record is gone. *)
Lemma C3_counterexample :
  ~ (forall (oldRecord newRecord : InboundRecord.t) (w : World) (e : Exn),
        fst (inventoryService.onInboundUpdate oldRecord newRecord w) = inl e ->
        db (snd (inventoryService.onInboundUpdate oldRecord newRecord w)) = db w).
Proof.
  intros H.
  specialize (H (InboundRecord.mk 1 (Some "X") (Some 10) (Some 5%Q) (Some "2024-01-01"))
                (InboundRecord.mk 1 (Some "X") (Some 20) (Some 5%Q) (Some "2024-01-01"))
                recreate_fails db_failure eq_refl).
  apply (f_equal inventoryLedger) in H. vm_compute in H. discriminate H.
Qed.

(** C3, as amended.  Each of the two steps of an update is atomic on its
    own.  When the update raises, the tables are either exactly as before
    the update (the revert raised) or exactly as the committed revert of
    the old record left them (the re-create raised; the revert is not
    rolled back). *)
Theorem C3_update_steps_atomic_separately :
  forall (w : World) (e : Exn),
    (forall oldRecord newRecord : InboundRecord.t,
        fst (inventoryService.onInboundUpdate oldRecord newRecord w) = inl e ->
        db (snd (inventoryService.onInboundUpdate oldRecord newRecord w)) = db w
        \/ db (snd (inventoryService.onInboundUpdate oldRecord newRecord w))
           = reverted (InboundRecord.id oldRecord) INBOUND (db w))
    /\ (forall oldRecord newRecord : OutboundRecord.t,
        fst (inventoryService.onOutboundUpdate oldRecord newRecord w) = inl e ->
        db (snd (inventoryService.onOutboundUpdate oldRecord newRecord w)) = db w
        \/ db (snd (inventoryService.onOutboundUpdate oldRecord newRecord w))
           = reverted (OutboundRecord.id oldRecord) OUTBOUND (db w)).
Proof.
  intros w e. split; intros o n.
  - unfold inventoryService.onInboundUpdate, bind.
    destruct (inventoryService.onInboundDelete _ w) as [[e1|a] w1] eqn:E1; simpl.
    + intros _. left. eapply transaction_inl. exact E1.
    + destruct (inventoryService.onInboundCreate n w1) as [r w2] eqn:E2. simpl.
      intros ->. right. apply onInboundCreate_inl in E2. rewrite E2.
      eapply onInboundDelete_inr. exact E1.
  - unfold inventoryService.onOutboundUpdate, bind.
    destruct (inventoryService.onOutboundDelete _ w) as [[e1|a] w1] eqn:E1; simpl.
    + intros _. left. eapply transaction_inl. exact E1.
    + destruct (inventoryService.onOutboundCreate n w1) as [r w2] eqn:E2. simpl.
      intros ->. right. apply onOutboundCreate_inl in E2. rewrite E2.
      eapply onOutboundDelete_inr. exact E1.
Qed.

Lemma C3_update_steps_atomic_separately_witness :
  (fst (inventoryService.onInboundUpdate
          (InboundRecord.mk 1 (Some "X") (Some 10) (Some 5%Q) (Some "2024-01-01"))
          (InboundRecord.mk 1 (Some "X") (Some 20) (Some 5%Q) (Some "2024-01-01"))
          recreate_fails) = inl db_failure
   /\ (db (snd (inventoryService.onInboundUpdate
          (InboundRecord.mk 1 (Some "X") (Some 10) (Some 5%Q) (Some "2024-01-01"))
          (InboundRecord.mk 1 (Some "X") (Some 20) (Some 5%Q) (Some "2024-01-01"))
          recreate_fails)) = db recreate_fails
       \/ db (snd (inventoryService.onInboundUpdate
          (InboundRecord.mk 1 (Some "X") (Some 10) (Some 5%Q) (Some "2024-01-01"))
          (InboundRecord.mk 1 (Some "X") (Some 20) (Some 5%Q) (Some "2024-01-01"))
          recreate_fails)) = reverted 1 INBOUND (db recreate_fails)))
  /\ (fst (inventoryService.onOutboundUpdate
             (OutboundRecord.mk 1 (Some "X") (Some 4) (Some "2024-01-02") None None None None)
             (OutboundRecord.mk 1 (Some "X") (Some 6) (Some "2024-01-02") None None None None)
             reship_fails) = inl db_failure
      /\ (db (snd (inventoryService.onOutboundUpdate
             (OutboundRecord.mk 1 (Some "X") (Some 4) (Some "2024-01-02") None None None None)
             (OutboundRecord.mk 1 (Some "X") (Some 6) (Some "2024-01-02") None None None None)
             reship_fails)) = db reship_fails
          \/ db (snd (inventoryService.onOutboundUpdate
             (OutboundRecord.mk 1 (Some "X") (Some 4) (Some "2024-01-02") None None None None)
             (OutboundRecord.mk 1 (Some "X") (Some 6) (Some "2024-01-02") None None None None)
             reship_fails)) = reverted 1 OUTBOUND (db reship_fails))).
Proof.
  split; (split; [reflexivity|]).
  - apply (proj1 (C3_update_steps_atomic_separately recreate_fails db_failure)
                 (InboundRecord.mk 1 (Some "X") (Some 10) (Some 5%Q) (Some "2024-01-01"))
                 (InboundRecord.mk 1 (Some "X") (Some 20) (Some 5%Q) (Some "2024-01-01"))).
    reflexivity.
  - apply (proj2 (C3_update_steps_atomic_separately reship_fails db_failure)
                 (OutboundRecord.mk 1 (Some "X") (Some 4) (Some "2024-01-02")
                                    None None None None)
                 (OutboundRecord.mk 1 (Some "X") (Some 6) (Some "2024-01-02")
                                    None None None None)).
    reflexivity.
Defined.

(* ===================================================================== *)
(** * Ledger entries and source records, compared by what they carry     *)
(* ===================================================================== *)

Lemma key_sum_Permutation l1 l2 m :
  Permutation l1 l2 -> key_sum l1 m = key_sum l2 m.
Proof.
  induction 1 as [|[[[pm q] ty] ref] l l' _ IH
                  |[[[pm q] ty] ref] [[[pm' q'] ty'] ref'] l| l l' l'' _ IH1 _ IH2];
    simpl; try congruence.
  - destruct (String.eqb _ _); lia.
  - repeat destruct (String.eqb _ _); lia.
Qed.


Lemma inbound_events_keys today l :
  List.map event_key (inventoryService.inbound_events today l) = flat_map inbound_keys l.
Proof.
  induction l as [|r l IH]; simpl; [reflexivity|].
  rewrite map_app, IH. unfold inbound_keys. by destruct (_ || _).
Qed.

Lemma outbound_events_keys today l :
  List.map event_key (inventoryService.outbound_events today l) = flat_map outbound_keys l.
Proof.
  induction l as [|r l IH]; simpl; [reflexivity|].
  rewrite map_app, IH. unfold outbound_keys. by destruct (_ || _).
Qed.

Lemma insert_by_Permutation {A} (le : A -> A -> bool) x l :
  Permutation (insert_by le x l) (x :: l).
Proof.
  induction l as [|y l IH]; simpl; [reflexivity|].
  destruct (le x y); [reflexivity|].
  rewrite IH. apply perm_swap.
Qed.

Lemma sort_by_Permutation {A} (le : A -> A -> bool) l :
  Permutation (sort_by le l) l.
Proof.
  induction l as [|x l IH]; simpl; [reflexivity|].
  unfold sort_by in *. simpl. rewrite insert_by_Permutation. by constructor.
Qed.

Lemma query_totals events totals m :
  query (foldl inventoryService.add_total totals events) m
  = query totals m + key_sum (List.map event_key events) m.
Proof.
  revert totals. induction events as [|e events IH]; intros totals; simpl; [lia|].
  rewrite IH. unfold inventoryService.add_total, query.
  destruct (String.eqb_spec (Event.model e) m) as [->|Hne].
  - rewrite lookup_insert_eq. simpl. lia.
  - rewrite lookup_insert_ne by done. lia.
Qed.

(* ===================================================================== *)
(** * Full rebuild                                                        *)
(* ===================================================================== *)

Lemma inventory_createMany_fresh totals s t :
  inventory s = ∅ ->
  tx.inventory.createMany (map_to_list totals) (mkWorld s [] t)
  = (inr tt, mkWorld (set_inventory totals s) [] t).
Proof.
  intros Hempty. unfold tx.inventory.createMany, prisma_call. simpl.
  rewrite bool_decide_eq_true_2.
  - rewrite Hempty, list_to_map_to_list, (right_id_L ∅ (∪)). reflexivity.
  - split; [apply NoDup_fst_map_to_list|].
    rewrite Hempty. apply Forall_forall. intros k _. apply lookup_empty.
Qed.

Lemma recalculateAll_no_fault s t :
  inventoryService.recalculateAll (mkWorld s [] t)
  = (inr (mkRecalcResult
            (length (timeline t s))
            (length (map_to_list (foldl inventoryService.add_total ∅ (timeline t s))))),
     mkWorld (rebuilt t s) [] t).
Proof.
  unfold inventoryService.recalculateAll, rebuilt.
  unfold transaction, bind at 1 2 3 4 5.
  unfold tx.inventory.deleteAll, tx.inventoryLedger.deleteAll,
    tx.inboundRecord.findMany_by_date, tx.outboundRecord.findMany_by_date,
    new_Date_toISOString, prisma_call. simpl.
  fold (timeline t s).
  set (events := timeline t s).
  set (totals := foldl inventoryService.add_total ∅ events).
  assert (Hledger :
    (if 0 <? Z.of_nat (length (List.map inventoryService.ledger_row events))
     then tx.inventoryLedger.createMany (List.map inventoryService.ledger_row events)
     else ret tt)
      (mkWorld (set_inventoryLedger [] (set_inventory ∅ s)) [] t)
    = (inr tt,
       mkWorld (set_inventoryLedger (List.map inventoryService.ledger_row events)
                  (set_inventory ∅ s)) [] t)).
  { destruct (List.map inventoryService.ledger_row events); reflexivity. }
  assert (Hinv :
    (if 0 <? Z.of_nat (length (map_to_list totals))
     then tx.inventory.createMany (map_to_list totals)
     else ret tt)
      (mkWorld (set_inventoryLedger (List.map inventoryService.ledger_row events)
                  (set_inventory ∅ s)) [] t)
    = (inr tt,
       mkWorld (set_inventory totals
                  (set_inventoryLedger (List.map inventoryService.ledger_row events) s))
               [] t)).
  { destruct (map_to_list totals) as [|kv rest] eqn:E.
    - apply map_to_list_empty_iff in E. rewrite E. reflexivity.
    - rewrite <- E. simpl.
      replace (0 <? Z.of_nat (length (map_to_list totals))) with true
        by (rewrite E; reflexivity).
      rewrite inventory_createMany_fresh by reflexivity. reflexivity. }
  unfold bind. rewrite length_map in *.
  unfold set_inventoryLedger, set_inventory in *. simpl in *.
  rewrite Hledger, Hinv. reflexivity.
Qed.

Lemma rebuilt_query today s m :
  query (inventory (rebuilt today s)) m = key_sum (source_keys s) m.
Proof.
  unfold rebuilt. simpl. rewrite query_totals. unfold query at 1.
  rewrite lookup_empty. simpl.
  apply key_sum_Permutation. unfold timeline, source_keys.
  rewrite (Permutation_map event_key (sort_by_Permutation _ _)).
  rewrite map_app, inbound_events_keys, outbound_events_keys.
  apply Permutation_app; apply Permutation_flat_map, sort_by_Permutation.
Qed.


Lemma filter_Permutation' {A} (p : A -> bool) l l' :
  Permutation l l' -> Permutation (List.filter p l) (List.filter p l').
Proof.
  induction 1 as [|x l l' _ IH|x y l|l l' l'' _ IH1 _ IH2]; simpl.
  - reflexivity.
  - destruct (p x); [by constructor|exact IH].
  - destruct (p x), (p y); try reflexivity. apply perm_swap.
  - by rewrite IH1.
Qed.

Lemma filter_all_false {A} (p : A -> bool) l :
  (forall x, In x l -> p x = false) -> List.filter p l = [].
Proof.
  induction l as [|x l IH]; simpl; intros H; [reflexivity|].
  rewrite (H x) by auto. apply IH. auto.
Qed.

Lemma filter_all_true {A} (p : A -> bool) l :
  (forall x, In x l -> p x = true) -> List.filter p l = l.
Proof.
  induction l as [|x l IH]; simpl; intros H; [reflexivity|].
  rewrite (H x) by auto. f_equal. apply IH. auto.
Qed.

(** Reverting a reference on the ledger is removing its keys. *)
Lemma reverted_keys id ty ledger ks :
  Permutation (List.map entry_key ledger) ks ->
  Permutation
    (List.map entry_key
       (List.filter (fun e => negb (tx.inventoryLedger.matches id ty e)) ledger))
    (List.filter (fun k => negb (key_matches id ty k)) ks).
Proof.
  intros H. rewrite <- (filter_Permutation' _ _ _ H).
  clear H. induction ledger as [|e ledger IH]; simpl; [reflexivity|].
  unfold tx.inventoryLedger.matches at 1.
  destruct ((_ =? _) && _); simpl; [exact IH|by constructor].
Qed.

(** A source table, seen through the ids of its rows and the ledger keys
    they contribute. *)
Section Table.

Context {A : Type}.
Variable rid : A -> Z.
Variable keys : A -> list Key.
Variable ty : ChangeType.

Hypothesis keys_tagged :
  forall r k i, In k (keys r) -> key_matches i ty k = (rid r =? i).

Lemma removed_keys i l :
  List.filter (fun k => negb (key_matches i ty k)) (flat_map keys l)
  = flat_map keys (List.filter (fun r => negb (rid r =? i)) l).
Proof.
  induction l as [|r l IH]; simpl; [reflexivity|].
  rewrite List.filter_app, IH. destruct (rid r =? i) eqn:E; simpl.
  - rewrite filter_all_false; [reflexivity|].
    intros k Hk. by rewrite (keys_tagged r k i Hk), E.
  - rewrite filter_all_true; [reflexivity|].
    intros k Hk. by rewrite (keys_tagged r k i Hk), E.
Qed.

Lemma absent_replace i (f : A -> A) l :
  ~ In i (List.map rid l) ->
  List.map (fun r => if rid r =? i then f r else r) l = l
  /\ List.filter (fun r => negb (rid r =? i)) l = l.
Proof.
  induction l as [|r l IH]; simpl; intros H; [done|].
  destruct (Z.eqb_spec (rid r) i) as [Hi|Hne]; [tauto|].
  simpl. destruct IH as [-> ->]; tauto.
Qed.

Lemma replaced_keys i (f : A -> A) l old :
  NoDup (List.map rid l) ->
  List.find (fun r => rid r =? i) l = Some old ->
  Permutation
    (flat_map keys (List.map (fun r => if rid r =? i then f r else r) l))
    (flat_map keys (List.filter (fun r => negb (rid r =? i)) l) ++ keys (f old)).
Proof.
  induction l as [|r l IH]; simpl; intros Hnd Hfind; [discriminate|].
  apply NoDup_cons in Hnd as [Hnotin Hnd].
  destruct (Z.eqb_spec (rid r) i) as [Hi|Hne]; simpl.
  - injection Hfind as ->. rewrite Hi in Hnotin.
    destruct (absent_replace i f l) as [-> ->];
      [by rewrite <- list_elem_of_In|].
    apply Permutation_app_comm.
  - rewrite <- app_assoc. apply Permutation_app_head. by apply IH.
Qed.

Lemma replaced_ids i (f : A -> A) l :
  (forall r, rid (f r) = rid r) ->
  List.map rid (List.map (fun r => if rid r =? i then f r else r) l) = List.map rid l.
Proof.
  intros Hf. induction l as [|r l IH]; simpl; [reflexivity|].
  rewrite IH. destruct (rid r =? i); by rewrite ?Hf.
Qed.

Lemma removed_ids_NoDup i l :
  NoDup (List.map rid l) ->
  NoDup (List.map rid (List.filter (fun r => negb (rid r =? i)) l)).
Proof.
  induction l as [|r l IH]; simpl; intros Hnd; [constructor|].
  apply NoDup_cons in Hnd as [Hnotin Hnd].
  destruct (negb _); simpl; [|by apply IH].
  apply NoDup_cons. split; [|by apply IH].
  intros Hin. apply Hnotin. apply list_elem_of_In in Hin. apply list_elem_of_In.
  apply in_map_iff in Hin as (x & Hx & Hin). apply in_map_iff.
  exists x. split; [exact Hx|]. apply filter_In in Hin. tauto.
Qed.

Lemma added_ids_NoDup seq row l :
  rid row = seq ->
  Forall (fun r => rid r < seq) l ->
  NoDup (List.map rid l) ->
  NoDup (List.map rid (l ++ [row])).
Proof.
  intros Hrow Hlt Hnd. rewrite map_app. simpl.
  apply NoDup_app. split; [exact Hnd|]. split; [|apply NoDup_singleton].
  intros x Hx Hx'. apply list_elem_of_In in Hx, Hx'.
  destruct Hx' as [<-|[]]. apply in_map_iff in Hx as (r & Hr & Hin).
  rewrite Forall_forall in Hlt. apply list_elem_of_In in Hin.
  specialize (Hlt r Hin). lia.
Qed.

End Table.

(* ===================================================================== *)
(** * The handlers keep the database in sync                              *)
(* ===================================================================== *)

Lemma onInboundCreate_no_fault r s t :
  inventoryService.onInboundCreate r (mkWorld s [] t)
  = (inr tt, mkWorld (inbound_created t r s) [] t).
Proof.
  unfold inventoryService.onInboundCreate, inbound_created.
  destruct (_ || _); [reflexivity|]. apply create_no_fault.
Qed.

Lemma onOutboundCreate_no_fault r s t :
  inventoryService.onOutboundCreate r (mkWorld s [] t)
  = (inr tt, mkWorld (outbound_created t r s) [] t).
Proof.
  unfold inventoryService.onOutboundCreate, outbound_created.
  destruct (_ || _); [reflexivity|]. apply create_no_fault.
Qed.

Lemma onInboundDelete_no_fault id s t :
  inventoryService.onInboundDelete id (mkWorld s [] t)
  = (inr tt, mkWorld (reverted id INBOUND s) [] t).
Proof. apply delete_no_fault. Qed.

Lemma onOutboundDelete_no_fault id s t :
  inventoryService.onOutboundDelete id (mkWorld s [] t)
  = (inr tt, mkWorld (reverted id OUTBOUND s) [] t).
Proof. apply delete_no_fault. Qed.

Lemma inbound_keys_tagged r k i :
  In k (inbound_keys r) -> key_matches i INBOUND k = (InboundRecord.id r =? i).
Proof.
  unfold inbound_keys. destruct (_ || _); simpl; [tauto|].
  intros [<-|[]]. simpl. apply andb_true_r.
Qed.

Lemma outbound_keys_tagged r k i :
  In k (outbound_keys r) -> key_matches i OUTBOUND k = (OutboundRecord.id r =? i).
Proof.
  unfold outbound_keys. destruct (_ || _); simpl; [tauto|].
  intros [<-|[]]. simpl. apply andb_true_r.
Qed.

Lemma inbound_keys_not_outbound l i k :
  In k (flat_map inbound_keys l) -> negb (key_matches i OUTBOUND k) = true.
Proof.
  intros H. apply in_flat_map in H as (r & _ & H). revert H.
  unfold inbound_keys. destruct (_ || _); simpl; [tauto|].
  intros [<-|[]]. simpl. by rewrite andb_false_r.
Qed.

Lemma outbound_keys_not_inbound l i k :
  In k (flat_map outbound_keys l) -> negb (key_matches i INBOUND k) = true.
Proof.
  intros H. apply in_flat_map in H as (r & _ & H). revert H.
  unfold outbound_keys. destruct (_ || _); simpl; [tauto|].
  intros [<-|[]]. simpl. by rewrite andb_false_r.
Qed.

Lemma inbound_created_keys t r s :
  List.map entry_key (inventoryLedger (inbound_created t r s))
  = List.map entry_key (inventoryLedger s) ++ inbound_keys r.
Proof.
  unfold inbound_created, inbound_keys. destruct (_ || _); simpl.
  - by rewrite app_nil_r.
  - by rewrite map_app.
Qed.

Lemma outbound_created_keys t r s :
  List.map entry_key (inventoryLedger (outbound_created t r s))
  = List.map entry_key (inventoryLedger s) ++ outbound_keys r.
Proof.
  unfold outbound_created, outbound_keys. destruct (_ || _); simpl.
  - by rewrite app_nil_r.
  - by rewrite map_app.
Qed.

Lemma inbound_created_ok t r s : projection_ok s -> projection_ok (inbound_created t r s).
Proof. unfold inbound_created. destruct (_ || _); [done|]. apply appended_ok. Qed.

Lemma outbound_created_ok t r s : projection_ok s -> projection_ok (outbound_created t r s).
Proof. unfold outbound_created. destruct (_ || _); [done|]. apply appended_ok. Qed.

(** Creates and reverts leave the source tables alone. *)
Lemma inbound_created_frame t r s :
  inboundRecord (inbound_created t r s) = inboundRecord s
  /\ inbound_seq (inbound_created t r s) = inbound_seq s
  /\ outboundRecord (inbound_created t r s) = outboundRecord s
  /\ outbound_seq (inbound_created t r s) = outbound_seq s.
Proof. unfold inbound_created. by destruct (_ || _). Qed.

Lemma outbound_created_frame t r s :
  inboundRecord (outbound_created t r s) = inboundRecord s
  /\ inbound_seq (outbound_created t r s) = inbound_seq s
  /\ outboundRecord (outbound_created t r s) = outboundRecord s
  /\ outbound_seq (outbound_created t r s) = outbound_seq s.
Proof. unfold outbound_created. by destruct (_ || _). Qed.

Lemma Forall_replaced {A} (rid : A -> Z) i seq (f : A -> A) l :
  (forall r, rid (f r) = rid r) ->
  Forall (fun r => rid r < seq) l ->
  Forall (fun r => rid r < seq) (List.map (fun r => if rid r =? i then f r else r) l).
Proof.
  intros Hf Hlt.
  apply Forall_forall. intros x Hx. apply list_elem_of_In, in_map_iff in Hx as (r & <- & Hin).
  rewrite Forall_forall in Hlt. apply list_elem_of_In in Hin. specialize (Hlt r Hin).
  destruct (rid r =? i); by rewrite ?Hf.
Qed.

Lemma Forall_removed {A} (P : A -> Prop) (p : A -> bool) l :
  Forall P l -> Forall P (List.filter p l).
Proof.
  intros H. apply Forall_forall. intros x Hx.
  apply list_elem_of_In, filter_In in Hx as [Hx _].
  rewrite Forall_forall in H. apply H. by apply list_elem_of_In.
Qed.


Lemma in_sync_post_inbound t body s :
  in_sync s ->
  let row := tx.inboundRecord.fresh (inbound_seq s) body in
  in_sync (inbound_created t row
             (set_inboundRecord (inboundRecord s ++ [row]) (inbound_seq s + 1) s)).
Proof.
  intros [Hp Hl Hi Ho Hsi Hso] row.
  set (s1 := set_inboundRecord _ _ s).
  destruct (inbound_created_frame t row s1) as (E1 & E2 & E3 & E4).
  constructor; rewrite ?E1, ?E2, ?E3, ?E4; simpl; try assumption.
  - by apply inbound_created_ok.
  - rewrite inbound_created_keys. unfold source_keys. rewrite E1, E3. simpl.
    rewrite List.flat_map_app. simpl. rewrite app_nil_r, Hl. unfold source_keys.
    rewrite <- !app_assoc. apply Permutation_app_head, Permutation_app_comm.
  - by apply (added_ids_NoDup InboundRecord.id (inbound_seq s)).
  - apply Forall_app. split.
    + eapply Forall_impl; [exact Hsi|]. simpl. intros; lia.
    + constructor; [simpl; lia|constructor].
Qed.

Lemma in_sync_post_outbound t body s :
  in_sync s ->
  let row := tx.outboundRecord.fresh (outbound_seq s) body in
  in_sync (outbound_created t row
             (set_outboundRecord (outboundRecord s ++ [row]) (outbound_seq s + 1) s)).
Proof.
  intros [Hp Hl Hi Ho Hsi Hso] row.
  set (s1 := set_outboundRecord _ _ s).
  destruct (outbound_created_frame t row s1) as (E1 & E2 & E3 & E4).
  constructor; rewrite ?E1, ?E2, ?E3, ?E4; simpl; try assumption.
  - by apply outbound_created_ok.
  - rewrite outbound_created_keys. unfold source_keys. rewrite E1, E3. simpl.
    rewrite List.flat_map_app. simpl. rewrite app_nil_r, Hl. unfold source_keys.
    by rewrite <- !app_assoc.
  - by apply (added_ids_NoDup OutboundRecord.id (outbound_seq s)).
  - apply Forall_app. split.
    + eapply Forall_impl; [exact Hso|]. simpl. intros; lia.
    + constructor; [simpl; lia|constructor].
Qed.

Lemma in_sync_delete_inbound id s :
  in_sync s ->
  in_sync (reverted id INBOUND
             (set_inboundRecord
                (List.filter (fun r => negb (InboundRecord.id r =? id)) (inboundRecord s))
                (inbound_seq s) s)).
Proof.
  intros [Hp Hl Hi Ho Hsi Hso].
  constructor; simpl; try assumption.
  - apply (reverted_ok id INBOUND (set_inboundRecord _ _ s)). exact Hp.
  - rewrite (reverted_keys id INBOUND _ _ Hl). unfold source_keys. simpl.
    rewrite List.filter_app.
    rewrite (removed_keys InboundRecord.id inbound_keys INBOUND inbound_keys_tagged).
    rewrite (filter_all_true _ (flat_map outbound_keys _)); [reflexivity|].
    intros k Hk. by eapply outbound_keys_not_inbound.
  - by apply removed_ids_NoDup.
  - by apply Forall_removed.
Qed.

Lemma in_sync_delete_outbound id s :
  in_sync s ->
  in_sync (reverted id OUTBOUND
             (set_outboundRecord
                (List.filter (fun r => negb (OutboundRecord.id r =? id)) (outboundRecord s))
                (outbound_seq s) s)).
Proof.
  intros [Hp Hl Hi Ho Hsi Hso].
  constructor; simpl; try assumption.
  - apply (reverted_ok id OUTBOUND (set_outboundRecord _ _ s)). exact Hp.
  - rewrite (reverted_keys id OUTBOUND _ _ Hl). unfold source_keys. simpl.
    rewrite List.filter_app.
    rewrite (removed_keys OutboundRecord.id outbound_keys OUTBOUND outbound_keys_tagged).
    rewrite (filter_all_true _ (flat_map inbound_keys _)); [reflexivity|].
    intros k Hk. by eapply inbound_keys_not_outbound.
  - by apply removed_ids_NoDup.
  - by apply Forall_removed.
Qed.

Lemma in_sync_put_inbound t id body old s :
  in_sync s ->
  List.find (fun r => InboundRecord.id r =? id) (inboundRecord s) = Some old ->
  let row := tx.inboundRecord.patch body old in
  in_sync (inbound_created t row
             (reverted id INBOUND
                (set_inboundRecord
                   (List.map (fun r => if InboundRecord.id r =? id
                                       then tx.inboundRecord.patch body r else r)
                             (inboundRecord s))
                   (inbound_seq s) s))).
Proof.
  intros [Hp Hl Hi Ho Hsi Hso] Hex row.
  set (s1 := set_inboundRecord _ _ s).
  destruct (inbound_created_frame t row (reverted id INBOUND s1)) as (E1 & E2 & E3 & E4).
  constructor; rewrite ?E1, ?E2, ?E3, ?E4; simpl; try assumption.
  - apply inbound_created_ok, reverted_ok. exact Hp.
  - rewrite inbound_created_keys. unfold source_keys. rewrite E1, E3. simpl.
    rewrite (reverted_keys id INBOUND _ _ Hl). unfold source_keys.
    rewrite List.filter_app.
    rewrite (removed_keys InboundRecord.id inbound_keys INBOUND inbound_keys_tagged).
    rewrite (filter_all_true _ (flat_map outbound_keys _))
      by (intros k Hk; by eapply outbound_keys_not_inbound).
    rewrite (replaced_keys InboundRecord.id inbound_keys id _ _ old Hi Hex).
    rewrite <- !app_assoc. apply Permutation_app_head, Permutation_app_comm.
  - by rewrite (replaced_ids InboundRecord.id).
  - by apply (Forall_replaced InboundRecord.id).
Qed.

Lemma in_sync_put_outbound t id body old s :
  in_sync s ->
  List.find (fun r => OutboundRecord.id r =? id) (outboundRecord s) = Some old ->
  let row := tx.outboundRecord.patch body old in
  in_sync (outbound_created t row
             (reverted id OUTBOUND
                (set_outboundRecord
                   (List.map (fun r => if OutboundRecord.id r =? id
                                       then tx.outboundRecord.patch body r else r)
                             (outboundRecord s))
                   (outbound_seq s) s))).
Proof.
  intros [Hp Hl Hi Ho Hsi Hso] Hex row.
  set (s1 := set_outboundRecord _ _ s).
  destruct (outbound_created_frame t row (reverted id OUTBOUND s1)) as (E1 & E2 & E3 & E4).
  constructor; rewrite ?E1, ?E2, ?E3, ?E4; simpl; try assumption.
  - apply outbound_created_ok, reverted_ok. exact Hp.
  - rewrite outbound_created_keys. unfold source_keys. rewrite E1, E3. simpl.
    rewrite (reverted_keys id OUTBOUND _ _ Hl). unfold source_keys.
    rewrite List.filter_app.
    rewrite (removed_keys OutboundRecord.id outbound_keys OUTBOUND outbound_keys_tagged).
    rewrite (filter_all_true _ (flat_map inbound_keys _))
      by (intros k Hk; by eapply inbound_keys_not_outbound).
    rewrite (replaced_keys OutboundRecord.id outbound_keys id _ _ old Ho Hex).
    by rewrite <- !app_assoc.
  - by rewrite (replaced_ids OutboundRecord.id).
  - by apply (Forall_replaced OutboundRecord.id).
Qed.

Lemma find_existsb {A} (p : A -> bool) l x :
  List.find p l = Some x -> p x = true /\ existsb p l = true.
Proof.
  intros H. apply find_some in H as [Hin Hp]. split; [exact Hp|].
  apply existsb_exists. eauto.
Qed.

(** Without database faults, a handler answers and leaves a database in
    sync in sync. *)
Lemma handle_in_sync req s t :
  in_sync s ->
  exists status s',
    handle req (mkWorld s [] t) = (inr status, mkWorld s' [] t) /\ in_sync s'.
Proof.
  intros Hs. destruct req as [body|id body|id|body|id body|id]; simpl.
  - unfold inboundRoutes.post, try_catch, bind, tx.inboundRecord.create, prisma_call.
    simpl. rewrite onInboundCreate_no_fault. simpl.
    eexists _, _. split; [reflexivity|]. by apply in_sync_post_inbound.
  - unfold inboundRoutes.put, try_catch, bind at 1,
      tx.inboundRecord.findUnique, prisma_call. simpl.
    destruct (List.find _ _) as [old|] eqn:Efind; simpl.
    + pose proof (find_existsb _ _ _ Efind) as [Hold _]. apply Z.eqb_eq in Hold.
      unfold bind, tx.inboundRecord.update, prisma_call. simpl. rewrite Efind. simpl.
      unfold inventoryService.onInboundUpdate, bind.
      rewrite onInboundDelete_no_fault, onInboundCreate_no_fault. simpl.
      eexists _, _. split; [reflexivity|]. rewrite Hold.
      by apply in_sync_put_inbound.
    + eexists _, _. split; [reflexivity|]. exact Hs.
  - unfold inboundRoutes.delete, try_catch, bind, tx.inboundRecord.delete, prisma_call.
    simpl. destruct (existsb _ _) eqn:Hex; simpl.
    + rewrite onInboundDelete_no_fault. simpl.
      eexists _, _. split; [reflexivity|]. by apply in_sync_delete_inbound.
    + eexists _, _. split; [reflexivity|]. exact Hs.
  - unfold outboundRoutes.post, try_catch, bind, tx.outboundRecord.create, prisma_call.
    simpl. rewrite onOutboundCreate_no_fault. simpl.
    eexists _, _. split; [reflexivity|]. by apply in_sync_post_outbound.
  - unfold outboundRoutes.put, try_catch, bind at 1,
      tx.outboundRecord.findUnique, prisma_call. simpl.
    destruct (List.find _ _) as [old|] eqn:Efind; simpl.
    + pose proof (find_existsb _ _ _ Efind) as [Hold _]. apply Z.eqb_eq in Hold.
      unfold bind, tx.outboundRecord.update, prisma_call. simpl. rewrite Efind. simpl.
      unfold inventoryService.onOutboundUpdate, bind.
      rewrite onOutboundDelete_no_fault, onOutboundCreate_no_fault. simpl.
      eexists _, _. split; [reflexivity|]. rewrite Hold.
      by apply in_sync_put_outbound.
    + eexists _, _. split; [reflexivity|]. exact Hs.
  - unfold outboundRoutes.delete, try_catch, bind, tx.outboundRecord.delete, prisma_call.
    simpl. destruct (existsb _ _) eqn:Hex; simpl.
    + rewrite onOutboundDelete_no_fault. simpl.
      eexists _, _. split; [reflexivity|]. by apply in_sync_delete_outbound.
    + eexists _, _. split; [reflexivity|]. exact Hs.
Qed.



(** After a create followed by the delete of the same record, the
    incremental projection keeps a row with quantity zero, where the
    rebuild leaves no row: the quantities agree, the rows need not. *)
Example zero_row_survives :
  let w := serve [("2024-01-01",
                   PostInbound (InboundData.mk (Some (Some "X")) (Some (Some 4))
                                               None None));
                  ("2024-01-02", DeleteInbound 1)]
                 (mkWorld empty_store [] "2024-01-01") in
  inventory (db w) !! "X" = Some 0
  /\ inventory (db (snd (inventoryService.recalculateAll w))) !! "X" = None.
Proof. split; reflexivity. Qed.

(* ===================================================================== *)
(** * The FIFO loop                                                       *)
(* ===================================================================== *)

(** One turn of the loop, written out. *)
Lemma consume_unfold charge batches qtyToFulfill currentRecordCost :
  consume charge batches qtyToFulfill currentRecordCost =
  if 0 <? qtyToFulfill then
    match batches with
    | [] => ([], qtyToFulfill, currentRecordCost)
    | batch :: rest =>
        let taken := Z.min (quantity_remaining batch) qtyToFulfill in
        let cost' :=
          if charge
          then decimalCalc.add (ArgValue currentRecordCost)
                 (ArgValue (decimalCalc.multiply (ArgValue (inject_Z taken))
                              (ArgValue (unit_price batch))))
          else currentRecordCost in
        if quantity_remaining batch - taken <=? 0
        then consume charge rest (qtyToFulfill - taken) cost'
        else consume charge
               (mkBatch (quantity_remaining batch - taken) (unit_price batch) :: rest)
               (qtyToFulfill - taken) cost'
    end
  else (batches, qtyToFulfill, currentRecordCost).
Proof.
  funelim (consume charge batches qtyToFulfill currentRecordCost); clear Heqcall;
    repeat match goal with
           | H : (_ <? _) = _ |- _ => progress rewrite H
           | H : (_ <=? _) = _ |- _ => progress rewrite H
           end; reflexivity.
Qed.

(** The loop with nothing to fulfil does nothing. *)
Lemma consume_done charge batches qtyToFulfill cost :
  qtyToFulfill <= 0 ->
  consume charge batches qtyToFulfill cost = (batches, qtyToFulfill, cost).
Proof.
  intros H. rewrite consume_unfold.
  destruct (Z.ltb_spec 0 qtyToFulfill); [lia|reflexivity].
Qed.

(** On a queue of positive batches, the loop takes
    [min qtyToFulfill (total_remaining batches)] units, leaves a queue of
    positive batches, and what it leaves does not depend on [charge] or on
    the cost so far. *)
Lemma consume_depletes batches :
  in_stock batches ->
  forall charge qtyToFulfill cost,
    0 <= qtyToFulfill ->
    let '(batches', unmet, _) := consume charge batches qtyToFulfill cost in
    in_stock batches'
    /\ total_remaining batches'
       = total_remaining batches - Z.min qtyToFulfill (total_remaining batches)
    /\ unmet = qtyToFulfill - Z.min qtyToFulfill (total_remaining batches).
Proof.
  induction 1 as [|batch rest Hpos Hrest IH]; intros charge qty cost Hq.
  - rewrite consume_unfold. simpl.
    destruct (0 <? qty); (split; [constructor|simpl; lia]).
  - assert (Htot : 0 <= total_remaining rest).
    { clear -Hrest. induction Hrest; simpl; lia. }
    rewrite consume_unfold. destruct (Z.ltb_spec 0 qty) as [Hlt|Hge].
    + cbv zeta. destruct (Z.leb_spec (quantity_remaining batch
                                       - Z.min (quantity_remaining batch) qty) 0)
        as [Hshift|Hstay].
      * match goal with |- context [consume charge rest ?q ?c] =>
          specialize (IH charge q c ltac:(lia)); destruct (consume charge rest q c)
            as [[batches' unmet] cost'] end.
        destruct IH as (H1 & H2 & H3). simpl. split; [exact H1|]. lia.
      * rewrite consume_done by lia. simpl.
        split; [constructor; [simpl; lia|exact Hrest]|]. lia.
    + simpl. split; [by constructor|]. lia.
Qed.




(* ===================================================================== *)
(** * Division by zero                                                    *)
(* ===================================================================== *)

Example toNumber_half_up :
  (decimalCalc.toNumber (1005 # 1000) 2 == 101 # 100)%Q /\
  (decimalCalc.toNumber (- (1005 # 1000)) 2 == - (101 # 100))%Q /\
  (decimalCalc.toNumber (1004 # 1000) 2 == 1)%Q.
Proof. repeat split; vm_compute; reflexivity. Qed.

(** C9.  Whatever the dividend, [divide] raises the error
    ["Division by zero"] when the divisor is zero, [null] or [undefined];
    it then returns no number at all. *)
Theorem C9_divide_by_zero_raises :
  forall (a b : DecimalArg),
    (b = ArgNull \/ b = ArgUndefined \/ exists q, b = ArgValue q /\ (q == 0)%Q) ->
    decimalCalc.divide a b = inl (Error "Division by zero")
    /\ forall d : Decimal.t, decimalCalc.divide a b <> inr d.
Proof.
  intros a b Hb.
  assert (Hz : Decimal.isZero (decimalCalc.decimal b) = true).
  { destruct Hb as [->|[->|(q & -> & Hq)]]; try reflexivity.
    unfold Decimal.isZero. simpl. apply Z.eqb_eq.
    unfold Qeq in Hq. simpl in Hq. lia. }
  unfold decimalCalc.divide. rewrite Hz. split; [reflexivity|discriminate].
Qed.

Lemma C9_divide_by_zero_raises_witness :
  decimalCalc.divide (ArgValue (7 # 2)) ArgNull = inl (Error "Division by zero")
  /\ decimalCalc.divide ArgUndefined (ArgValue (0 # 5)) = inl (Error "Division by zero").
Proof.
  split.
  - apply (C9_divide_by_zero_raises (ArgValue (7 # 2)) ArgNull). left. reflexivity.
  - apply (C9_divide_by_zero_raises ArgUndefined (ArgValue (0 # 5))).
    right. right. exists (0 # 5). split; reflexivity.
Defined.

(* ===================================================================== *)
(** * One outbound record through the matcher                             *)
(* ===================================================================== *)



Lemma consume_empty charge qtyToFulfill cost :
  consume charge [] qtyToFulfill cost = ([], qtyToFulfill, cost).
Proof. rewrite consume_unfold. by destruct (0 <? qtyToFulfill). Qed.






(** Every queue the matcher ever holds is made of batches with a positive
    remaining quantity: the inbound query keeps positive quantities only,
    and the loop drops a batch as soon as nothing is left of it. *)
Lemma seed_in_stock inventoryState inRecord :
  map_Forall (fun _ batches => in_stock batches) inventoryState ->
  (exists q, InboundRecord.quantity inRecord = Some q /\ 0 < q) ->
  map_Forall (fun _ batches => in_stock batches) (seed inventoryState inRecord).
Proof.
  intros Hst (q & Hq & Hpos). unfold seed. destruct (_ || _); [exact Hst|].
  apply map_Forall_insert_2; [|exact Hst].
  apply Forall_app. split.
  - destruct (inventoryState !! _) as [batches|] eqn:E; simpl; [|constructor].
    exact (Hst _ _ E).
  - constructor; [|constructor]. rewrite Hq. simpl. exact Hpos.
Qed.

Lemma process_in_stock startDate endDate codeMap shortMap st outRecord :
  map_Forall (fun _ batches => in_stock batches) (fst st) ->
  map_Forall (fun _ batches => in_stock batches)
             (fst (process startDate endDate codeMap shortMap st outRecord)).
Proof.
  destruct st as [inventoryState processedRecords]. simpl. intros Hst.
  unfold process. destruct (_ || _); [exact Hst|].
  set (model := default "" (OutboundRecord.product_model outRecord)).
  set (qty := default 0 (OutboundRecord.quantity outRecord)).
  assert (Hqueue : in_stock (default [] (inventoryState !! model))).
  { destruct (inventoryState !! model) as [batches|] eqn:E; simpl; [|constructor].
    exact (Hst _ _ E). }
  assert (Hafter : forall charge z,
             in_stock (fst (fst (consume charge (default [] (inventoryState !! model)) qty z)))).
  { intros charge z. destruct (Z.le_gt_cases 0 qty) as [Hq|Hq].
    - pose proof (consume_depletes _ Hqueue charge qty z Hq) as H.
      destruct (consume _ _ _ _) as [[batches' unmet] cost]. simpl. tauto.
    - rewrite consume_done by lia. exact Hqueue. }
  match goal with |- context [consume ?c _ qty ?z] =>
    specialize (Hafter c z); destruct (consume c _ qty z) as [[batches' unmet] cost] end.
  simpl in Hafter.
  assert (map_Forall (fun _ batches => in_stock batches)
            (match inventoryState !! model with
             | Some _ => <[model := batches']> inventoryState
             | None => inventoryState
             end)).
  { destruct (inventoryState !! model); [by apply map_Forall_insert_2|exact Hst]. }
  destruct (resolve_partner _ _ _); [destruct (isTarget _ _ _)|]; assumption.
Qed.

Lemma simulate_in_stock startDate endDate allInbound allOutbound partners :
  Forall (fun r => exists q, InboundRecord.quantity r = Some q /\ 0 < q) allInbound ->
  map_Forall (fun _ batches => in_stock batches)
             (fst (simulate startDate endDate allInbound allOutbound partners)).
Proof.
  intros Hin. unfold simulate.
  assert (Hseed : forall st,
             map_Forall (fun _ batches => in_stock batches) st ->
             map_Forall (fun _ batches => in_stock batches) (foldl seed st allInbound)).
  { induction Hin as [|r rest Hr _ IH]; intros st Hst; simpl; [exact Hst|].
    apply IH. by apply seed_in_stock. }
  specialize (Hseed ∅ (map_Forall_empty _)).
  generalize dependent (foldl seed ∅ allInbound). intros inventoryState Hst.
  generalize (@nil Processed.t).
  revert inventoryState Hst.
  induction allOutbound as [|r rest IH]; intros inventoryState Hst rows; cbn [foldl];
    [exact Hst|].
  pose proof (process_in_stock startDate endDate (partnerCodeMap partners)
                (partnerShortMap partners) (inventoryState, rows) r Hst) as Hnext.
  destruct (process _ _ _ _ _ r) as [inventoryState' rows']. by apply IH.
Qed.

Lemma fetched_inbound_positive (le : InboundRecord.t -> InboundRecord.t -> bool) rows :
  Forall (fun r => exists q, InboundRecord.quantity r = Some q /\ 0 < q)
         (sort_by le
            (List.filter (fun r => match InboundRecord.quantity r with
                                   | Some q => 0 <? q
                                   | None => false
                                   end) rows)).
Proof.
  rewrite sort_by_Permutation. apply Forall_forall. intros r Hr.
  apply list_elem_of_In, filter_In in Hr as [_ Hr].
  destruct (InboundRecord.quantity r) as [q|]; [|discriminate].
  exists q. split; [reflexivity|]. by apply Z.ltb_lt.
Qed.



(* ===================================================================== *)
(** * The analysis window                                                 *)
(* ===================================================================== *)











(** The February shipment eats the cheap batch: the March shipment is
    costed from the dearer one (5 x 8 = 40, not 5 x 5 = 25), and it is the
    only row returned. *)
Example early_shipment_shifts_cost :
  exists row,
    fst (calculateFIFOData "2024-03-01" "2024-03-31"
           (mkWorld early_shipment_store [] "2024-06-01")) = inr [row]
    /\ OutboundRecord.id (Processed.record row) = 2
    /\ (Processed.cost_amount row == 40)%Q.
Proof. eexists. split; [vm_compute; reflexivity|]. split; reflexivity. Qed.

(* ===================================================================== *)
(** * FIFO determinism                                                    *)
(* ===================================================================== *)








(* ===================================================================== *)
(** * End to end                                                          *)
(* ===================================================================== *)

(** Ten units at 5, five units at 9, then twelve units out: three units
    are left in the projection, and the twelve cost 10 x 5 + 2 x 9 = 68. *)
Example end_to_end_projection :
  query (inventory (db (serve
    [("2024-01-01", PostInbound (InboundData.mk (Some (Some "X")) (Some (Some 10))
                                                (Some (Some 5%Q)) (Some (Some "2024-01-01"))));
     ("2024-01-02", PostInbound (InboundData.mk (Some (Some "X")) (Some (Some 5))
                                                (Some (Some 9%Q)) (Some (Some "2024-01-02"))));
     ("2024-01-03", PostOutbound (OutboundData.mk (Some (Some "X")) (Some (Some 12))
                                                  (Some (Some "2024-01-03")) (Some (Some 11%Q))
                                                  None (Some (Some "C1")) None))]
    quiet_world))) "X" = 3.
Proof. reflexivity. Qed.

Example end_to_end_cost :
  let '(queue, unmet, cost) :=
    consume true [mkBatch 10 5; mkBatch 5 9] 12 (decimalCalc.decimal (ArgValue 0)) in
  queue = [mkBatch 3 9] /\ unmet = 0 /\ (decimalCalc.toNumber cost 2 == 68)%Q.
Proof. vm_compute. repeat split; reflexivity. Qed.

(* ===================================================================== *)
(** * Faults only make a computation raise                              *)
(* ===================================================================== *)

Lemma steady_ret {A} (a : A) : steady (ret a).
Proof. intros w b w' [= <- <-]. split; reflexivity. Qed.

Lemma steady_bind {A B} (m : M A) (k : A -> M B) :
  steady m -> (forall a, steady (k a)) -> steady (bind m k).
Proof.
  intros Hm Hk w b w' Hrun.
  apply bind_inr in Hrun as (a & w1 & H1 & H2).
  apply Hm in H1 as [Hn1 H1]. apply Hk in H2 as [Hn2 H2].
  split; [congruence|]. unfold bind. rewrite H1. exact H2.
Qed.

Lemma steady_call {A} (f : Store -> (Exn + A) * Store) : steady (prisma_call f).
Proof.
  intros w a w'. unfold prisma_call, quiet. simpl.
  destruct (faults w) as [|[] rest]; try discriminate;
    destruct (f (db w)) as [r s']; intros [= -> <-]; split; reflexivity.
Qed.

Lemma steady_now : steady new_Date_toISOString.
Proof. intros w a w' [= <- <-]. split; reflexivity. Qed.

Lemma steady_transaction {A} (body : M A) : steady body -> steady (transaction body).
Proof.
  intros Hb w a w' Hrun. apply transaction_inr in Hrun.
  apply Hb in Hrun as [Hn Hrun]. split; [exact Hn|].
  unfold transaction. rewrite Hrun. reflexivity.
Qed.

Lemma steady_for_each {A} (xs : list A) (body : A -> M unit) :
  (forall x, steady (body x)) -> steady (for_each xs body).
Proof.
  intros Hb. induction xs as [|x xs IH]; simpl.
  - apply steady_ret.
  - apply steady_bind; [apply Hb|]. intros _. exact IH.
Qed.


Ltac steady :=
  repeat first
    [ apply steady_ret | apply steady_call | apply steady_now
    | apply steady_transaction | apply steady_for_each; intros ?
    | apply steady_bind; [|intros ?]
    | match goal with |- steady (if ?b then _ else _) => destruct b end
    | match goal with |- steady (match ?x with _ => _ end) => destruct x end ].

Lemma recalculateAll_steady : steady inventoryService.recalculateAll.
Proof. unfold inventoryService.recalculateAll. steady. Qed.

Lemma onInboundCreate_steady r : steady (inventoryService.onInboundCreate r).
Proof. unfold inventoryService.onInboundCreate. steady. Qed.
Lemma onInboundDelete_steady r : steady (inventoryService.onInboundDelete r).
Proof. unfold inventoryService.onInboundDelete, inventoryService.revert_entry. steady. Qed.

(* ===================================================================== *)
(** * The full rebuild, under any fault plan                            *)
(* ===================================================================== *)

Lemma totals_dom events totals m :
  is_Some (foldl inventoryService.add_total totals events !! m)
  <-> is_Some (totals !! m) \/ In m (List.map Event.model events).
Proof.
  revert totals. induction events as [|e events IH]; intros totals; simpl; [tauto|].
  rewrite IH. unfold inventoryService.add_total.
  destruct (String.eqb_spec (Event.model e) m) as [->|Hne].
  - rewrite lookup_insert_eq. split; [auto|]. intros _. left. eauto.
  - rewrite lookup_insert_ne by done. tauto.
Qed.

Lemma In_Permutation_iff {A} (l l' : list A) x :
  Permutation l l' -> In x l <-> In x l'.
Proof.
  intros H. split; apply Permutation_in; [exact H|symmetry; exact H].
Qed.

Lemma timeline_keys today s :
  Permutation (List.map event_key (timeline today s)) (source_keys s).
Proof.
  unfold timeline, source_keys.
  rewrite (Permutation_map event_key (sort_by_Permutation _ _)).
  rewrite map_app, inbound_events_keys, outbound_events_keys.
  apply Permutation_app; apply Permutation_flat_map, sort_by_Permutation.
Qed.

Lemma rebuilt_dom today s m :
  is_Some (inventory (rebuilt today s) !! m)
  <-> In m (List.map key_model (source_keys s)).
Proof.
  unfold rebuilt. simpl. rewrite totals_dom, lookup_empty.
  rewrite <- (In_Permutation_iff _ _ m (Permutation_map key_model (timeline_keys today s))).
  rewrite map_map. simpl. split.
  - intros [[x Hx]|H]; [discriminate|exact H].
  - auto.
Qed.


Lemma recalculateAll_inr w result w' :
  inventoryService.recalculateAll w = (inr result, w') ->
  db w' = rebuilt (now w) (db w)
  /\ result = mkRecalcResult
                (length (timeline (now w) (db w)))
                (length (map_to_list (inventory (rebuilt (now w) (db w))))).
Proof.
  intros H. apply recalculateAll_steady in H as [_ H].
  unfold quiet in H. rewrite recalculateAll_no_fault in H.
  injection H as <- Hdb. split; [symmetry; exact Hdb|reflexivity].
Qed.



Lemma source_keys_Permutation s s' :
  Permutation (inboundRecord s) (inboundRecord s') ->
  Permutation (outboundRecord s) (outboundRecord s') ->
  Permutation (source_keys s) (source_keys s').
Proof.
  intros Hi Ho. unfold source_keys.
  apply Permutation_app; by apply Permutation_flat_map.
Qed.

Lemma rebuilt_inventory_sources :
  forall (s s' : Store) (today today' : string),
    Permutation (inboundRecord s) (inboundRecord s') ->
    Permutation (outboundRecord s) (outboundRecord s') ->
    inventory (rebuilt today s) = inventory (rebuilt today' s').
Proof.
  intros s s' t t' Hi Ho.
  pose proof (source_keys_Permutation s s' Hi Ho) as Hk.
  apply map_eq. intros m.
  pose proof (rebuilt_dom t s m) as H1. pose proof (rebuilt_dom t' s' m) as H2.
  pose proof (rebuilt_query t s m) as Q1. pose proof (rebuilt_query t' s' m) as Q2.
  rewrite (key_sum_Permutation _ _ m Hk) in Q1.
  rewrite (In_Permutation_iff _ _ m (Permutation_map key_model Hk)) in H1.
  unfold query in Q1, Q2.
  destruct (inventory (rebuilt t s) !! m) as [q|], (inventory (rebuilt t' s') !! m) as [q'|];
    simpl in *.
  - congruence.
  - exfalso. assert (is_Some (@None Z)) as [? ?] by (apply H2, H1; eauto). discriminate.
  - exfalso. assert (is_Some (@None Z)) as [? ?] by (apply H1, H2; eauto). discriminate.
  - reflexivity.
Qed.

(* ===================================================================== *)
(** * Date order                                                        *)
(* ===================================================================== *)

Lemma ascii_compare_N a b :
  Ascii.compare a b = N.compare (Ascii.N_of_ascii a) (Ascii.N_of_ascii b).
Proof. reflexivity. Qed.


Lemma string_compare_lt_trans a : forall b c,
  String.compare a b = Lt -> String.compare b c = Lt -> String.compare a c = Lt.
Proof.
  induction a as [|x a IH]; intros [|y b] [|z c]; simpl; try congruence.
  rewrite !ascii_compare_N.
  destruct (Ascii.N_of_ascii x ?= Ascii.N_of_ascii y)%N eqn:Exy;
    destruct (Ascii.N_of_ascii y ?= Ascii.N_of_ascii z)%N eqn:Eyz;
    try congruence; intros H1 H2.
  - apply N.compare_eq in Exy, Eyz. rewrite Exy, Eyz, N.compare_refl. eauto.
  - apply N.compare_eq in Exy. by rewrite Exy, Eyz.
  - apply N.compare_eq in Eyz. by rewrite <- Eyz, Exy.
  - rewrite N.compare_lt_iff in Exy, Eyz.
    assert ((Ascii.N_of_ascii x ?= Ascii.N_of_ascii z)%N = Lt) as ->
      by (apply N.compare_lt_iff; lia).
    reflexivity.
Qed.


Lemma str_le_trans a b c :
  str_le a b = true -> str_le b c = true -> str_le a c = true.
Proof.
  unfold str_le.
  destruct (String.compare a b) eqn:Eab; [| |discriminate]; intros _.
  - apply String.compare_eq_iff in Eab as ->. auto.
  - destruct (String.compare b c) eqn:Ebc; [| |discriminate]; intros _.
    + apply String.compare_eq_iff in Ebc as <-. by rewrite Eab.
    + by rewrite (string_compare_lt_trans a b c Eab Ebc).
Qed.

Lemma str_le_total a b : str_le a b = false -> str_le b a = true.
Proof.
  unfold str_le. rewrite (String.compare_antisym a b).
  destruct (String.compare b a); simpl; congruence.
Qed.

(** Insertion sort sorts, for a total and transitive order. *)
Section Sorting.

Context {A : Type}.
Variable le : A -> A -> bool.
Hypothesis le_total : forall x y, le x y = false -> le y x = true.
Hypothesis le_trans : forall x y z, le x y = true -> le y z = true -> le x z = true.

Lemma insert_by_sorted x l :
  StronglySorted (fun a b => le a b = true) l ->
  StronglySorted (fun a b => le a b = true) (insert_by le x l).
Proof.
  induction 1 as [|y l Hl IH Hy]; simpl.
  - constructor; constructor.
  - destruct (le x y) eqn:E.
    + constructor; [by constructor|].
      constructor; [exact E|].
      eapply Forall_impl; [exact Hy|]. simpl. intros z Hz. by eapply le_trans.
    + constructor; [exact IH|].
      eapply Permutation_Forall; [symmetry; apply insert_by_Permutation|].
      constructor; [by apply le_total|exact Hy].
Qed.

Lemma sort_by_sorted l : StronglySorted (fun a b => le a b = true) (sort_by le l).
Proof.
  induction l as [|x l IH]; [constructor|].
  unfold sort_by in *. simpl. by apply insert_by_sorted.
Qed.



End Sorting.







(** X5.  [getAllInventory] returns one row for each product of the
    projection, with its quantity, in ascending order of product model,
    and changes nothing; when it raises, it is the database failure and
    nothing changed either. *)
Theorem X5_getAllInventory_sorted_complete :
  forall w : World,
    match inventoryService.getAllInventory w with
    | (inr rows, w') =>
        db w' = db w
        /\ StronglySorted (fun a b => str_le a.1 b.1 = true) rows
        /\ NoDup rows.*1
        /\ forall product_model quantity,
             In (product_model, quantity) rows
             <-> inventory (db w) !! product_model = Some quantity
    | (inl e, w') => db w' = db w /\ e = db_failure
    end.
Proof.
  intros w. unfold inventoryService.getAllInventory, tx.inventory.findMany_by_model,
    prisma_call.
  assert (Hgood :
    let rows := sort_by (fun a b : string * Z => str_le a.1 b.1) (map_to_list (inventory (db w))) in
    StronglySorted (fun a b => str_le a.1 b.1 = true) rows
    /\ NoDup rows.*1
    /\ forall m q, In (m, q) rows <-> inventory (db w) !! m = Some q).
  { cbv zeta. split; [|split].
    - apply sort_by_sorted.
      + intros x y. apply str_le_total.
      + intros x y z. apply str_le_trans.
    - rewrite sort_by_Permutation. apply NoDup_fst_map_to_list.
    - intros m q.
      rewrite (In_Permutation_iff _ _ (m, q) (sort_by_Permutation _ _)).
      rewrite <- list_elem_of_In. apply elem_of_map_to_list. }
  destruct (faults w) as [|[] rest]; simpl; auto.
Qed.

(* ===================================================================== *)
(** * Reverts, round trips and updates                                  *)
(* ===================================================================== *)

Lemma onOutboundCreate_steady r : steady (inventoryService.onOutboundCreate r).
Proof. unfold inventoryService.onOutboundCreate. steady. Qed.
Lemma onOutboundDelete_steady r : steady (inventoryService.onOutboundDelete r).
Proof. unfold inventoryService.onOutboundDelete, inventoryService.revert_entry. steady. Qed.

Lemma onInboundCreate_inr r w a w' :
  inventoryService.onInboundCreate r w = (inr a, w') ->
  db w' = inbound_created (now w) r (db w).
Proof.
  intros H. apply onInboundCreate_steady in H as [_ H]. unfold quiet in H.
  rewrite onInboundCreate_no_fault in H. by injection H as _ <-.
Qed.

Lemma onOutboundCreate_inr r w a w' :
  inventoryService.onOutboundCreate r w = (inr a, w') ->
  db w' = outbound_created (now w) r (db w).
Proof.
  intros H. apply onOutboundCreate_steady in H as [_ H]. unfold quiet in H.
  rewrite onOutboundCreate_no_fault in H. by injection H as _ <-.
Qed.

Lemma filter_filter_same {A} (p : A -> bool) l :
  List.filter p (List.filter p l) = List.filter p l.
Proof.
  induction l as [|x l IH]; simpl; [reflexivity|].
  destruct (p x) eqn:E; simpl; rewrite ?E, IH; reflexivity.
Qed.

Lemma reverted_inventory_frame entries inv m :
  Forall (fun e => LedgerEntry.product_model e <> m) entries ->
  reverted_inventory entries inv !! m = inv !! m.
Proof.
  intros H. revert inv. induction H as [|e entries He _ IH]; intros inv; [reflexivity|].
  unfold reverted_inventory in *. simpl. rewrite IH. unfold upserted.
  by rewrite lookup_insert_ne.
Qed.

Lemma reverted_only id ty s : only_reverted id ty s (reverted id ty s).
Proof.
  unfold only_reverted, reverted. simpl.
  split; [apply filter_filter_same|]. split; [|done].
  intros m Hm. apply reverted_inventory_frame.
  apply Forall_forall. intros e He. apply list_elem_of_In, filter_In in He as [Hin He].
  rewrite Forall_forall in Hm. apply Hm; [by apply list_elem_of_In|exact He].
Qed.

Lemma only_reverted_refl id ty s : only_reverted id ty s s.
Proof. unfold only_reverted. tauto. Qed.

(** X6.  A revert touches its own reference only, however it ends: ledger
    entries of another record, or of the other kind under the same id
    (inbound and outbound ids are separate), are kept in place; the
    projection row of a product with no entry under the reference is
    unchanged; the source tables are unchanged. *)
Theorem X6_delete_touches_its_reference_only :
  forall (id : Z) (w : World),
    only_reverted id INBOUND (db w) (db (snd (inventoryService.onInboundDelete id w)))
    /\ only_reverted id OUTBOUND (db w) (db (snd (inventoryService.onOutboundDelete id w))).
Proof.
  intros id w. split.
  - destruct (inventoryService.onInboundDelete id w) as [[e|a] w'] eqn:Hrun; simpl.
    + apply transaction_inl in Hrun. rewrite Hrun. apply only_reverted_refl.
    + apply onInboundDelete_inr in Hrun. rewrite Hrun. apply reverted_only.
  - destruct (inventoryService.onOutboundDelete id w) as [[e|a] w'] eqn:Hrun; simpl.
    + apply transaction_inl in Hrun. rewrite Hrun. apply only_reverted_refl.
    + apply onOutboundDelete_inr in Hrun. rewrite Hrun. apply reverted_only.
Qed.

(** Round trip *)
Lemma appended_reverted e s :
  List.filter (tx.inventoryLedger.matches (LedgerEntry.reference_id e)
                 (LedgerEntry.change_type e)) (inventoryLedger s) = [] ->
  let s' := reverted (LedgerEntry.reference_id e) (LedgerEntry.change_type e) (appended e s) in
  inventoryLedger s' = inventoryLedger s
  /\ forall m, query (inventory s') m = query (inventory s) m.
Proof.
  intros Hnone. 
  assert (Hself : tx.inventoryLedger.matches (LedgerEntry.reference_id e)
                    (LedgerEntry.change_type e) e = true).
  { unfold tx.inventoryLedger.matches. rewrite Z.eqb_refl. by destruct (LedgerEntry.change_type e). }
  cbv zeta. unfold reverted, appended.
  cbn [inventory inventoryLedger set_inventory set_inventoryLedger].
  rewrite !List.filter_app. cbn [List.filter].
  rewrite Hself, Hnone. cbn [negb app]. rewrite app_nil_r. split.
  - by apply filter_none_negb.
  - intros m. rewrite query_reverted_inventory, query_upserted_increment. simpl.
    destruct (String.eqb _ _); lia.
Qed.

(** X7.  Round trip.  When the ledger holds nothing under a record's id
    and kind, reconciling the creation of the record and then its deletion
    restores the ledger as it was and every product's projected
    quantity. *)
Theorem X7_create_then_delete_restores :
  forall (inbound : InboundRecord.t) (outbound : OutboundRecord.t) (w : World),
    List.filter (tx.inventoryLedger.matches (InboundRecord.id inbound) INBOUND)
                (inventoryLedger (db w)) = [] ->
    List.filter (tx.inventoryLedger.matches (OutboundRecord.id outbound) OUTBOUND)
                (inventoryLedger (db w)) = [] ->
    match (exec inventoryService.onInboundCreate inbound;
           inventoryService.onInboundDelete (InboundRecord.id inbound)) w with
    | (inr _, w') =>
        inventoryLedger (db w') = inventoryLedger (db w)
        /\ forall product_model,
             query (inventory (db w')) product_model = query (inventory (db w)) product_model
    | (inl _, _) => True
    end
    /\ match (exec inventoryService.onOutboundCreate outbound;
              inventoryService.onOutboundDelete (OutboundRecord.id outbound)) w with
       | (inr _, w') =>
           inventoryLedger (db w') = inventoryLedger (db w)
           /\ forall product_model,
                query (inventory (db w')) product_model = query (inventory (db w)) product_model
       | (inl _, _) => True
       end.
Proof.
  intros r r' w Hnone Hnone'. split.
  - destruct (bind _ _ w) as [[e|u] w'] eqn:Hrun; [exact I|].
    apply bind_inr in Hrun as (u1 & w1 & Hc & Hd).
    apply onInboundCreate_inr in Hc. apply onInboundDelete_inr in Hd.
    rewrite Hd, Hc. unfold inbound_created. destruct (_ || _).
    + rewrite reverted_unknown by exact Hnone. done.
    + apply (appended_reverted (LedgerEntry.mk _ _ INBOUND (InboundRecord.id r) _)).
      exact Hnone.
  - destruct (bind _ _ w) as [[e|u] w'] eqn:Hrun; [exact I|].
    apply bind_inr in Hrun as (u1 & w1 & Hc & Hd).
    apply onOutboundCreate_inr in Hc. apply onOutboundDelete_inr in Hd.
    rewrite Hd, Hc. unfold outbound_created. destruct (_ || _).
    + rewrite reverted_unknown by exact Hnone'. done.
    + apply (appended_reverted (LedgerEntry.mk _ _ OUTBOUND (OutboundRecord.id r') _)).
      exact Hnone'.
Qed.

Lemma X7_create_then_delete_restores_witness :
  match (exec inventoryService.onInboundCreate negative_inbound;
         inventoryService.onInboundDelete 1) quiet_world with
  | (inr _, w') =>
      inventoryLedger (db w') = []
      /\ forall product_model, query (inventory (db w')) product_model = query ∅ product_model
  | (inl _, _) => True
  end
  /\ match (exec inventoryService.onOutboundCreate march_shipment;
            inventoryService.onOutboundDelete 1) quiet_world with
     | (inr _, w') =>
         inventoryLedger (db w') = []
         /\ forall product_model, query (inventory (db w')) product_model = query ∅ product_model
     | (inl _, _) => True
     end.
Proof.
  apply (X7_create_then_delete_restores negative_inbound march_shipment quiet_world);
    reflexivity.
Defined.

Lemma query_inbound_created t r s m :
  query (inventory (inbound_created t r s)) m
  = query (inventory s) m + key_sum (inbound_keys r) m.
Proof.
  unfold inbound_created, inbound_keys. destruct (_ || _); simpl; [lia|].
  rewrite query_upserted_increment. simpl. destruct (String.eqb _ _); lia.
Qed.

Lemma query_outbound_created t r s m :
  query (inventory (outbound_created t r s)) m
  = query (inventory s) m + key_sum (outbound_keys r) m.
Proof.
  unfold outbound_created, outbound_keys. destruct (_ || _); simpl; [lia|].
  rewrite query_upserted_increment. simpl. destruct (String.eqb _ _); lia.
Qed.

(** X8.  After a reconciled update, a product's projected quantity is what
    it was, minus what the ledger held for it under the old record's id,
    plus the new record's contribution to it (its quantity, negated for
    an outbound record, when the product is the record's and the record
    has a product model and a non-zero quantity). *)
Theorem X8_update_moves_stock :
  forall (w : World) (product_model : string),
    (forall oldRecord newRecord,
        match inventoryService.onInboundUpdate oldRecord newRecord w with
        | (inr _, w') =>
            query (inventory (db w')) product_model
            = query (inventory (db w)) product_model
              - ledger_sum (List.filter (tx.inventoryLedger.matches
                                           (InboundRecord.id oldRecord) INBOUND)
                                        (inventoryLedger (db w))) product_model
              + key_sum (inbound_keys newRecord) product_model
        | (inl _, _) => True
        end)
    /\ (forall oldRecord newRecord,
        match inventoryService.onOutboundUpdate oldRecord newRecord w with
        | (inr _, w') =>
            query (inventory (db w')) product_model
            = query (inventory (db w)) product_model
              - ledger_sum (List.filter (tx.inventoryLedger.matches
                                           (OutboundRecord.id oldRecord) OUTBOUND)
                                        (inventoryLedger (db w))) product_model
              + key_sum (outbound_keys newRecord) product_model
        | (inl _, _) => True
        end).
Proof.
  intros w m. split; intros old new.
  - destruct (inventoryService.onInboundUpdate old new w) as [[e|u] w'] eqn:Hrun; [exact I|].
    apply bind_inr in Hrun as (u1 & w1 & Hd & Hc).
    apply onInboundCreate_inr in Hc. apply onInboundDelete_inr in Hd.
    rewrite Hc, Hd, query_inbound_created. unfold reverted at 1. simpl.
    by rewrite query_reverted_inventory.
  - destruct (inventoryService.onOutboundUpdate old new w) as [[e|u] w'] eqn:Hrun; [exact I|].
    apply bind_inr in Hrun as (u1 & w1 & Hd & Hc).
    apply onOutboundCreate_inr in Hc. apply onOutboundDelete_inr in Hd.
    rewrite Hc, Hd, query_outbound_created. unfold reverted at 1. simpl.
    by rewrite query_reverted_inventory.
Qed.

(* ===================================================================== *)
(** * What a status code says                                           *)
(* ===================================================================== *)

Lemma bind_inl {A B} (m : M A) (k : A -> M B) w e w' :
  bind m k w = (inl e, w') ->
  m w = (inl e, w') \/ exists a w1, m w = (inr a, w1) /\ k a w1 = (inl e, w').
Proof.
  unfold bind. destruct (m w) as [[e1|a] w1]; intros H; [left; by injection H as -> ->|right; eauto].
Qed.

Section Raises.

Variable P : Exn -> Prop.

Lemma raises_only_ret {A} (a : A) : raises_only P (ret a).
Proof. intros w e w'. discriminate. Qed.

Lemma raises_only_now : raises_only P new_Date_toISOString.
Proof. intros w e w'. discriminate. Qed.

Lemma raises_only_bind {A B} (m : M A) (k : A -> M B) :
  raises_only P m -> (forall a, raises_only P (k a)) -> raises_only P (bind m k).
Proof.
  intros Hm Hk w e w' Hrun.
  apply bind_inl in Hrun as [H|(a & w1 & _ & H)]; [eapply Hm|eapply Hk]; eauto.
Qed.

Lemma raises_only_call {A} (f : Store -> (Exn + A) * Store) :
  P db_failure -> (forall s e s', f s = (inl e, s') -> P e) ->
  raises_only P (prisma_call f).
Proof.
  intros Hdb Hf w e w'. unfold prisma_call.
  destruct (faults w) as [|[] rest]; try (intros [= <- _]; exact Hdb);
    destruct (f (db w)) as [r s'] eqn:E; intros [= -> _]; eapply Hf; eauto.
Qed.

Lemma raises_only_transaction {A} (body : M A) :
  raises_only P body -> raises_only P (transaction body).
Proof.
  intros Hb w e w'. unfold transaction.
  destruct (body w) as [[e1|a] w1] eqn:E; [|discriminate].
  intros [= <- _]. eapply Hb; eauto.
Qed.

Lemma raises_only_for_each {A} (xs : list A) (body : A -> M unit) :
  (forall x, raises_only P (body x)) -> raises_only P (for_each xs body).
Proof.
  intros Hb. induction xs as [|x xs IH]; simpl.
  - apply raises_only_ret.
  - apply raises_only_bind; [apply Hb|]. intros _. exact IH.
Qed.

End Raises.

Ltac raises_db_failure :=
  repeat first
    [ apply raises_only_ret | apply raises_only_now
    | apply raises_only_call; [reflexivity|intros ? ? ?; discriminate]
    | apply raises_only_transaction | apply raises_only_for_each; intros ?
    | apply raises_only_bind; [|intros ?]
    | match goal with |- raises_only _ (if ?b then _ else _) => destruct b end ].

Lemma onInboundCreate_raises r : raises_only (eq db_failure) (inventoryService.onInboundCreate r).
Proof. unfold inventoryService.onInboundCreate. raises_db_failure. Qed.

Lemma onOutboundCreate_raises r : raises_only (eq db_failure) (inventoryService.onOutboundCreate r).
Proof. unfold inventoryService.onOutboundCreate. raises_db_failure. Qed.

Lemma onInboundDelete_raises id : raises_only (eq db_failure) (inventoryService.onInboundDelete id).
Proof.
  unfold inventoryService.onInboundDelete, inventoryService.revert_entry. raises_db_failure.
Qed.

Lemma onOutboundDelete_raises id : raises_only (eq db_failure) (inventoryService.onOutboundDelete id).
Proof.
  unfold inventoryService.onOutboundDelete, inventoryService.revert_entry. raises_db_failure.
Qed.

Lemma try_catch_cases {A} (body : M A) (handler : Exn -> M A) w :
  (exists a w', body w = (inr a, w') /\ try_catch body handler w = (inr a, w'))
  \/ (exists e w1, body w = (inl e, w1) /\ try_catch body handler w = handler e w1).
Proof.
  unfold try_catch. destruct (body w) as [[e|a] w1]; [right|left]; eauto.
Qed.

Lemma on_error_status e w :
  exists status, on_error e w = (inr status, w)
                 /\ (status = 404 /\ e = PrismaError "P2025"
                     \/ status = 500 /\ e <> PrismaError "P2025").
Proof.
  destruct e as [msg|code]; simpl.
  - eexists. split; [reflexivity|]. right. split; [reflexivity|discriminate].
  - destruct (String.eqb_spec code "P2025") as [->|Hne].
    + eexists. split; [reflexivity|]. left. split; reflexivity.
    + exists 500. split.
      * unfold on_error.
        repeat match goal with
               | |- context [match ?c with _ => _ end] =>
                   match type of c with
                   | string => destruct c as [|[[] [] [] [] [] [] [] []] ?]
                   end
               end; try reflexivity; contradiction.
      * right. split; [reflexivity|]. congruence.
Qed.

Lemma prisma_call_inl {A} (f : Store -> (Exn + A) * Store) w e w' :
  prisma_call f w = (inl e, w') ->
  (e = db_failure /\ db w' = db w) \/ f (db w) = (inl e, db w').
Proof.
  unfold prisma_call. destruct (faults w) as [|[] rest];
    try (intros [= <- <-]; left; split; reflexivity);
    destruct (f (db w)) as [r s']; intros [= -> <-]; right; reflexivity.
Qed.

Lemma onInboundUpdate_raises o n :
  raises_only (eq db_failure) (inventoryService.onInboundUpdate o n).
Proof.
  apply raises_only_bind; [apply onInboundDelete_raises|].
  intros _. apply onInboundCreate_raises.
Qed.

Lemma onOutboundUpdate_raises o n :
  raises_only (eq db_failure) (inventoryService.onOutboundUpdate o n).
Proof.
  apply raises_only_bind; [apply onOutboundDelete_raises|].
  intros _. apply onOutboundCreate_raises.
Qed.

Lemma onInboundUpdate_steady o n : steady (inventoryService.onInboundUpdate o n).
Proof.
  apply steady_bind; [apply onInboundDelete_steady|].
  intros _. apply onInboundCreate_steady.
Qed.

Lemma onOutboundUpdate_steady o n : steady (inventoryService.onOutboundUpdate o n).
Proof.
  apply steady_bind; [apply onOutboundDelete_steady|].
  intros _. apply onOutboundCreate_steady.
Qed.

(** Without faults a handler answers 200, or 404 with the tables as they
    were. *)
Lemma handle_quiet req s t :
  exists status s',
    handle req (mkWorld s [] t) = (inr status, mkWorld s' [] t)
    /\ (status = 200 \/ status = 404 /\ s' = s).
Proof.
  destruct req as [body|id body|id|body|id body|id]; simpl.
  - unfold inboundRoutes.post, try_catch, bind, tx.inboundRecord.create, prisma_call.
    simpl. rewrite onInboundCreate_no_fault. simpl. eauto.
  - unfold inboundRoutes.put, try_catch, bind at 1,
      tx.inboundRecord.findUnique, prisma_call. simpl.
    destruct (List.find _ _) as [old|] eqn:Efind; simpl.
    + unfold bind, tx.inboundRecord.update, prisma_call. simpl. rewrite Efind. simpl.
      unfold inventoryService.onInboundUpdate, bind.
      rewrite onInboundDelete_no_fault, onInboundCreate_no_fault. simpl. eauto.
    + eexists _, _. split; [reflexivity|]. right. split; reflexivity.
  - unfold inboundRoutes.delete, try_catch, bind, tx.inboundRecord.delete, prisma_call.
    simpl. destruct (existsb _ _) eqn:Hex; simpl.
    + rewrite onInboundDelete_no_fault. simpl. eauto.
    + eexists _, _. split; [reflexivity|]. right. split; reflexivity.
  - unfold outboundRoutes.post, try_catch, bind, tx.outboundRecord.create, prisma_call.
    simpl. rewrite onOutboundCreate_no_fault. simpl. eauto.
  - unfold outboundRoutes.put, try_catch, bind at 1,
      tx.outboundRecord.findUnique, prisma_call. simpl.
    destruct (List.find _ _) as [old|] eqn:Efind; simpl.
    + unfold bind, tx.outboundRecord.update, prisma_call. simpl. rewrite Efind. simpl.
      unfold inventoryService.onOutboundUpdate, bind.
      rewrite onOutboundDelete_no_fault, onOutboundCreate_no_fault. simpl. eauto.
    + eexists _, _. split; [reflexivity|]. right. split; reflexivity.
  - unfold outboundRoutes.delete, try_catch, bind, tx.outboundRecord.delete, prisma_call.
    simpl. destruct (existsb _ _) eqn:Hex; simpl.
    + rewrite onOutboundDelete_no_fault. simpl. eauto.
    + eexists _, _. split; [reflexivity|]. right. split; reflexivity.
Qed.

Lemma handle_try req : handle req = try_catch (handler_body req) (handler_catch req).
Proof. destruct req; reflexivity. Qed.

Lemma handler_body_steady req : steady (handler_body req).
Proof.
  destruct req; simpl.
  - apply steady_bind; [apply steady_call|]. intros r.
    apply steady_bind; [apply onInboundCreate_steady|]. intros _. apply steady_ret.
  - apply steady_bind; [apply steady_call|]. intros [old|]; [|apply steady_ret].
    apply steady_bind; [apply steady_call|]. intros r.
    apply steady_bind; [apply onInboundUpdate_steady|]. intros _. apply steady_ret.
  - apply steady_bind; [apply steady_call|]. intros _.
    apply steady_bind; [apply onInboundDelete_steady|]. intros _. apply steady_ret.
  - apply steady_bind; [apply steady_call|]. intros r.
    apply steady_bind; [apply onOutboundCreate_steady|]. intros _. apply steady_ret.
  - apply steady_bind; [apply steady_call|]. intros [old|]; [|apply steady_ret].
    apply steady_bind; [apply steady_call|]. intros r.
    apply steady_bind; [apply onOutboundUpdate_steady|]. intros _. apply steady_ret.
  - apply steady_bind; [apply steady_call|]. intros _.
    apply steady_bind; [apply onOutboundDelete_steady|]. intros _. apply steady_ret.
Qed.

(** A [try] block that raises [P2025] has not written anything. *)
Lemma handler_body_P2025 req w w' :
  handler_body req w = (inl (PrismaError "P2025"), w') -> db w' = db w.
Proof.
  assert (Hno : db_failure <> PrismaError "P2025") by discriminate.
  destruct req as [body|id body|id|body|id body|id]; simpl; intros H.
  - apply bind_inl in H as [H|(r & w1 & _ & H)].
    + apply prisma_call_inl in H as [[H _]|H]; [by destruct Hno|discriminate].
    + apply bind_inl in H as [H|(? & ? & _ & H)]; [|discriminate].
      apply onInboundCreate_raises in H. by destruct Hno.
  - apply bind_inl in H as [H|(old & w1 & H1 & H)].
    + apply prisma_call_inl in H as [[H _]|H]; [by destruct Hno|discriminate].
    + apply prisma_call_inr in H1. simpl in H1. injection H1 as _ H1.
      destruct old as [old|]; [|discriminate].
      apply bind_inl in H as [H|(r & w2 & _ & H)].
      * apply prisma_call_inl in H as [[H _]|H]; [by destruct Hno|].
        simpl in H. destruct (List.find _ _); [discriminate|].
        injection H as H. congruence.
      * apply bind_inl in H as [H|(? & ? & _ & H)]; [|discriminate].
        apply onInboundUpdate_raises in H. by destruct Hno.
  - apply bind_inl in H as [H|(r & w1 & _ & H)].
    + apply prisma_call_inl in H as [[H _]|H]; [by destruct Hno|].
      simpl in H. destruct (existsb _ _); [discriminate|]. injection H as H. congruence.
    + apply bind_inl in H as [H|(? & ? & _ & H)]; [|discriminate].
      apply onInboundDelete_raises in H. by destruct Hno.
  - apply bind_inl in H as [H|(r & w1 & _ & H)].
    + apply prisma_call_inl in H as [[H _]|H]; [by destruct Hno|discriminate].
    + apply bind_inl in H as [H|(? & ? & _ & H)]; [|discriminate].
      apply onOutboundCreate_raises in H. by destruct Hno.
  - apply bind_inl in H as [H|(old & w1 & H1 & H)].
    + apply prisma_call_inl in H as [[H _]|H]; [by destruct Hno|discriminate].
    + apply prisma_call_inr in H1. simpl in H1. injection H1 as _ H1.
      destruct old as [old|]; [|discriminate].
      apply bind_inl in H as [H|(r & w2 & _ & H)].
      * apply prisma_call_inl in H as [[H _]|H]; [by destruct Hno|].
        simpl in H. destruct (List.find _ _); [discriminate|].
        injection H as H. congruence.
      * apply bind_inl in H as [H|(? & ? & _ & H)]; [|discriminate].
        apply onOutboundUpdate_raises in H. by destruct Hno.
  - apply bind_inl in H as [H|(r & w1 & _ & H)].
    + apply prisma_call_inl in H as [[H _]|H]; [by destruct Hno|].
      simpl in H. destruct (existsb _ _); [discriminate|]. injection H as H. congruence.
    + apply bind_inl in H as [H|(? & ? & _ & H)]; [|discriminate].
      apply onOutboundDelete_raises in H. by destruct Hno.
Qed.

(** X9.  What the status of a write request says, under any fault plan.  A
    handler never lets an exception out and answers 200, 404 or 500.
    After a 404 every table is as it was.  After a 200 a database that
    was in sync is in sync. *)
Theorem X9_status_is_truthful :
  forall (req : Request) (w : World),
    match handle req w with
    | (inr status, w') =>
        (status = 200 \/ status = 404 \/ status = 500)
        /\ (status = 404 -> db w' = db w)
        /\ (status = 200 -> in_sync (db w) -> in_sync (db w'))
    | (inl _, _) => False
    end.
Proof.
  intros req w. rewrite handle_try.
  destruct (try_catch_cases (handler_body req) (handler_catch req) w)
    as [(a & w' & Hbody & ->)|(e & w1 & Hbody & ->)].
  - apply handler_body_steady in Hbody as [_ Hq].
    assert (Hh : handle req (quiet w) = (inr a, quiet w')).
    { rewrite handle_try. unfold try_catch. by rewrite Hq. }
    unfold quiet in Hh.
    destruct (handle_quiet req (db w) (now w)) as (st & s' & Hrun & Hst).
    rewrite Hh in Hrun. injection Hrun as -> Hdb _.
    split; [tauto|]. split.
    + intros ->. destruct Hst as [|[_ ->]]; [discriminate|]. exact Hdb.
    + intros _ Hs.
      destruct (handle_in_sync req (db w) (now w) Hs) as (st' & s'' & Hrun & Hs').
      rewrite Hh in Hrun. injection Hrun as _ <- _. exact Hs'.
  - assert (Hcatch : exists status,
               handler_catch req e w1 = (inr status, w1)
               /\ (status = 404 /\ e = PrismaError "P2025" \/ status = 500)).
    { destruct (on_error_status e w1) as (st & Hst & Hcase).
      destruct req; simpl; eauto; exists st; (split; [exact Hst|tauto]). }
    destruct Hcatch as (st & -> & Hcase).
    split; [tauto|]. split.
    + intros ->. destruct Hcase as [[_ ->]|]; [|discriminate].
      by apply handler_body_P2025 in Hbody.
    + intros ->. destruct Hcase as [[? _]|]; discriminate.
Qed.

(* ===================================================================== *)
(** * Unknown ids and failures between the two writes                   *)
(* ===================================================================== *)

Lemma find_none_existsb {A} (p : A -> bool) l :
  List.find p l = None -> existsb p l = false.
Proof.
  induction l as [|x l IH]; simpl; [reflexivity|].
  destruct (p x); [discriminate|exact IH].
Qed.

Lemma prisma_call_ok {A} (f : Store -> (Exn + A) * Store) w :
  hd false (faults w) = false ->
  prisma_call f w
  = (fst (f (db w)), mkWorld (snd (f (db w))) (tl (faults w)) (now w)).
Proof.
  unfold prisma_call. destruct (faults w) as [|[] rest]; simpl; try discriminate;
    intros _; by destruct (f (db w)).
Qed.

(** X10.  A [PUT] or a [DELETE] on an id the table does not hold answers
    404 after a single database call and changes nothing. *)
Theorem X10_unknown_id_is_404 :
  forall (id : Z) (inbound : InboundData.t) (outbound : OutboundData.t) (w : World),
    hd false (faults w) = false ->
    List.find (fun r => InboundRecord.id r =? id) (inboundRecord (db w)) = None ->
    List.find (fun r => OutboundRecord.id r =? id) (outboundRecord (db w)) = None ->
    let w' := mkWorld (db w) (tl (faults w)) (now w) in
    handle (PutInbound id inbound) w = (inr 404, w')
    /\ handle (DeleteInbound id) w = (inr 404, w')
    /\ handle (PutOutbound id outbound) w = (inr 404, w')
    /\ handle (DeleteOutbound id) w = (inr 404, w').
Proof.
  intros id inb outb w Hq Hin Hout w'. simpl.
  unfold inboundRoutes.put, inboundRoutes.delete, outboundRoutes.put, outboundRoutes.delete,
    try_catch, bind, tx.inboundRecord.findUnique, tx.inboundRecord.delete,
    tx.outboundRecord.findUnique, tx.outboundRecord.delete.
  rewrite !prisma_call_ok by exact Hq. simpl.
  rewrite Hin, Hout, (find_none_existsb _ _ Hin), (find_none_existsb _ _ Hout). simpl.
  repeat split; reflexivity.
Qed.

Lemma X10_unknown_id_is_404_witness :
  let w' := mkWorld one_entry_store [] "2024-06-01T00:00:00.000Z" in
  handle (PutInbound 7 (InboundData.mk None (Some (Some 3)) None None))
         (mkWorld one_entry_store [] "2024-06-01T00:00:00.000Z") = (inr 404, w')
  /\ handle (DeleteInbound 7) (mkWorld one_entry_store [] "2024-06-01T00:00:00.000Z")
     = (inr 404, w')
  /\ handle (PutOutbound 7 (OutboundData.mk None (Some (Some 3)) None None None None None))
            (mkWorld one_entry_store [] "2024-06-01T00:00:00.000Z") = (inr 404, w')
  /\ handle (DeleteOutbound 7) (mkWorld one_entry_store [] "2024-06-01T00:00:00.000Z")
     = (inr 404, w').
Proof.
  apply (X10_unknown_id_is_404 7 (InboundData.mk None (Some (Some 3)) None None)
           (OutboundData.mk None (Some (Some 3)) None None None None None)
           (mkWorld one_entry_store [] "2024-06-01T00:00:00.000Z")); reflexivity.
Defined.

Lemma transaction_first_fails {A B} (f : Store -> (Exn + A) * Store) (k : A -> M B) s plan t :
  transaction (bind (prisma_call f) k) (mkWorld s (true :: plan) t)
  = (inl db_failure, mkWorld s plan t).
Proof. reflexivity. Qed.

(** X11.  The write to the source table and the reconciliation are not one
    transaction.  When the source write succeeds and the first database
    call of the reconciler fails, the handler answers 500, the source
    write stays (the created row is in the table, the deleted row is gone)
    and the ledger and the projection are as they were. *)
Theorem X11_reconcile_failure_leaves_drift :
  forall (w : World) (plan : list bool) (inbound : InboundData.t) (outbound : OutboundData.t)
         (inbound_id outbound_id : Z),
    faults w = false :: true :: plan ->
    falsy_string (stored (InboundData.product_model inbound))
    || falsy_number (stored (InboundData.quantity inbound)) = false ->
    falsy_string (stored (OutboundData.product_model outbound))
    || falsy_number (stored (OutboundData.quantity outbound)) = false ->
    existsb (fun r => InboundRecord.id r =? inbound_id) (inboundRecord (db w)) = true ->
    existsb (fun r => OutboundRecord.id r =? outbound_id) (outboundRecord (db w)) = true ->
    let s := db w in
    handle (PostInbound inbound) w
    = (inr 500,
       mkWorld (set_inboundRecord
                  (inboundRecord s ++ [tx.inboundRecord.fresh (inbound_seq s) inbound])
                  (inbound_seq s + 1) s) plan (now w))
    /\ handle (PostOutbound outbound) w
       = (inr 500,
          mkWorld (set_outboundRecord
                     (outboundRecord s
                      ++ [tx.outboundRecord.fresh (outbound_seq s)
                            (outboundRoutes.priced outbound)])
                     (outbound_seq s + 1) s) plan (now w))
    /\ handle (DeleteInbound inbound_id) w
       = (inr 500,
          mkWorld (set_inboundRecord
                     (List.filter (fun r => negb (InboundRecord.id r =? inbound_id))
                                  (inboundRecord s))
                     (inbound_seq s) s) plan (now w))
    /\ handle (DeleteOutbound outbound_id) w
       = (inr 500,
          mkWorld (set_outboundRecord
                     (List.filter (fun r => negb (OutboundRecord.id r =? outbound_id))
                                  (outboundRecord s))
                     (outbound_seq s) s) plan (now w)).
Proof.
  intros [s plan0 t] plan inb outb i o Hplan Hin Hout Hi Ho. simpl in *. subst plan0.
  repeat split.
  - unfold inboundRoutes.post, try_catch, bind at 1, tx.inboundRecord.create, prisma_call.
    cbn [faults db now tl]. unfold bind at 1.
    unfold inventoryService.onInboundCreate. cbn [tx.inboundRecord.fresh InboundRecord.product_model InboundRecord.quantity].
    rewrite Hin. reflexivity.
  - unfold outboundRoutes.post, try_catch, bind at 1, tx.outboundRecord.create, prisma_call.
    cbn [faults db now tl]. unfold bind at 1.
    unfold inventoryService.onOutboundCreate.
    cbn [tx.outboundRecord.fresh OutboundRecord.product_model OutboundRecord.quantity
         outboundRoutes.priced OutboundData.product_model OutboundData.quantity].
    rewrite Hout. reflexivity.
  - unfold inboundRoutes.delete, try_catch, bind at 1, tx.inboundRecord.delete, prisma_call.
    cbn [faults db now tl]. rewrite Hi. unfold bind at 1.
    unfold inventoryService.onInboundDelete, tx.inventoryLedger.findMany.
    rewrite transaction_first_fails. reflexivity.
  - unfold outboundRoutes.delete, try_catch, bind at 1, tx.outboundRecord.delete, prisma_call.
    cbn [faults db now tl]. rewrite Ho. unfold bind at 1.
    unfold inventoryService.onOutboundDelete, tx.inventoryLedger.findMany.
    rewrite transaction_first_fails. reflexivity.
Qed.

(* ===================================================================== *)
(** * Batch updates                                                     *)
(* ===================================================================== *)

Lemma batch_catch_counted acc recordId e w :
  exists acc', batch_catch acc recordId e w = (inr acc', w) /\ counted recordId acc acc'.
Proof.
  assert (Herr : counted recordId acc
                   (mkBatchReport (updated acc) (notFound acc) (S (errors acc)))).
  { split; simpl; [lia|by left]. }
  assert (Hnf : counted recordId acc
                  (mkBatchReport (updated acc) (notFound acc ++ [recordId]) (errors acc))).
  { split; simpl; [rewrite length_app; simpl; lia|by right]. }
  destruct e as [msg|code]; simpl; [eauto|].
  destruct (String.eqb_spec code "P2025") as [->|Hne]; [eauto|].
  eexists. split; [|exact Herr].
  unfold batch_catch.
  repeat match goal with
         | |- context [match ?c with _ => _ end] =>
             match type of c with
             | string => destruct c as [|[[] [] [] [] [] [] [] []] ?]
             end
         end; try reflexivity; contradiction.
Qed.

Lemma inbound_round_counted updates acc recordId w :
  exists acc' w',
    inboundRoutes.batch_round updates acc recordId w = (inr acc', w')
    /\ counted recordId acc acc'.
Proof.
  unfold inboundRoutes.batch_round.
  match goal with |- context [try_catch ?b ?h] =>
    destruct (try_catch_cases b h w) as [(a & w' & Hbody & ->)|(e & w1 & Hbody & ->)] end.
  - exists a, w'. split; [reflexivity|].
    apply bind_inr in Hbody as ([old|] & w1 & _ & Hrest).
    + apply bind_inr in Hrest as (r & w2 & _ & Hrest).
      apply bind_inr in Hrest as (u & w3 & _ & Hrest).
      injection Hrest as <- _. split; simpl; [lia|by left].
    + injection Hrest as <- _. split; simpl; [rewrite length_app; simpl; lia|by right].
  - destruct (batch_catch_counted acc recordId e w1) as (acc' & -> & Hc). eauto.
Qed.

Lemma outbound_round_counted updates acc recordId w :
  exists acc' w',
    outboundRoutes.batch_round updates acc recordId w = (inr acc', w')
    /\ counted recordId acc acc'.
Proof.
  unfold outboundRoutes.batch_round.
  match goal with |- context [try_catch ?b ?h] =>
    destruct (try_catch_cases b h w) as [(a & w' & Hbody & ->)|(e & w1 & Hbody & ->)] end.
  - exists a, w'. split; [reflexivity|].
    apply bind_inr in Hbody as ([old|] & w1 & _ & Hrest).
    + apply bind_inr in Hrest as (r & w2 & _ & Hrest).
      apply bind_inr in Hrest as (u & w3 & _ & Hrest).
      injection Hrest as <- _. split; simpl; [lia|by left].
    + injection Hrest as <- _. split; simpl; [rewrite length_app; simpl; lia|by right].
  - destruct (batch_catch_counted acc recordId e w1) as (acc' & -> & Hc). eauto.
Qed.

(** A loop whose every round counts its record reports on every record. *)
Lemma fold_each_counted (round : BatchReport -> Z -> M BatchReport) :
  (forall acc recordId w,
      exists acc' w', round acc recordId w = (inr acc', w') /\ counted recordId acc acc') ->
  forall ids acc w,
    exists report w',
      fold_each ids round acc w = (inr report, w')
      /\ (updated report + length (notFound report) + errors report
          = updated acc + length (notFound acc) + errors acc + length ids)%nat
      /\ exists missing, notFound report = notFound acc ++ missing /\ incl missing ids.
Proof.
  intros Hround ids. induction ids as [|id ids IH]; intros acc w; simpl.
  - exists acc, w. split; [reflexivity|]. split; [lia|].
    exists []. split; [by rewrite app_nil_r|]. intros x [].
  - destruct (Hround acc id w) as (acc1 & w1 & Hrun & Hsum & Hnf).
    destruct (IH acc1 w1) as (report & w' & Hrest & Hsum' & missing & Hmiss & Hincl).
    exists report, w'. unfold bind. rewrite Hrun. split; [exact Hrest|].
    split; [lia|].
    destruct Hnf as [Hnf|Hnf]; rewrite Hnf in Hmiss.
    + exists missing. split; [exact Hmiss|]. by apply incl_tl.
    + exists (id :: missing). split; [by rewrite Hmiss, <- app_assoc|].
      apply incl_cons; [by left|by apply incl_tl].
Qed.

(** X12.  A batch request is turned down with status 400, before any
    database call, when [ids] is missing, not an array or empty, when
    [updates] is missing or not an object, or when no allowed field is
    provided.  Otherwise it is answered with a report, under any fault
    plan: the handler's outer [catch] is never reached, every id is
    counted exactly once among [updated], [notFound] and [errors], and
    [notFound] holds ids of the request only. *)
Theorem X12_batch_answers :
  forall (inbound : inboundRoutes.BatchBody) (outbound : outboundRoutes.BatchBody)
         (w : World),
    match inboundRoutes.ids inbound, inboundRoutes.updates inbound with
    | Some (id :: ids), Some updates =>
        if inboundRoutes.no_update updates (inboundRoutes.other_columns inbound)
        then batch_rejected w (inboundRoutes.batch inbound w)
        else batch_answered (id :: ids) (inboundRoutes.batch inbound w)
    | _, _ => batch_rejected w (inboundRoutes.batch inbound w)
    end
    /\ match outboundRoutes.ids outbound, outboundRoutes.updates outbound with
       | Some (id :: ids), Some updates =>
           if outboundRoutes.no_update updates (outboundRoutes.other_columns outbound)
           then batch_rejected w (outboundRoutes.batch outbound w)
           else batch_answered (id :: ids) (outboundRoutes.batch outbound w)
       | _, _ => batch_rejected w (outboundRoutes.batch outbound w)
       end.
Proof.
  intros [ids0 u0 other0] [ids1 u1 other1] w. split; simpl.
  - unfold inboundRoutes.batch, batch_rejected, try_catch. simpl.
    destruct ids0 as [[|id rest]|]; [eauto| |by destruct u0; eauto].
    destruct u0 as [u|]; [|eauto].
    destruct (inboundRoutes.no_update u other0); [eauto|].
    destruct (fold_each_counted (inboundRoutes.batch_round u)
                (inbound_round_counted u) (id :: rest) (mkBatchReport 0 [] 0) w)
      as (report & w' & Hrun & Hsum & missing & Hmiss & Hincl).
    unfold bind. rewrite Hrun. exists report. simpl in *. subst missing.
    split; [reflexivity|]. split; [lia|exact Hincl].
  - unfold outboundRoutes.batch, batch_rejected. simpl.
    destruct ids1 as [[|id rest]|]; [eauto| |by destruct u1; eauto].
    destruct u1 as [u|]; [|eauto].
    destruct (outboundRoutes.no_update u other1); [eauto|].
    destruct (fold_each_counted (outboundRoutes.batch_round u)
                (outbound_round_counted u) (id :: rest) (mkBatchReport 0 [] 0) w)
      as (report & w' & Hrun & Hsum & missing & Hmiss & Hincl).
    unfold try_catch, bind. rewrite Hrun. exists report. simpl in *. subst missing.
    split; [reflexivity|]. split; [lia|exact Hincl].
Qed.

Lemma existsb_ids {A} (rid : A -> Z) i l :
  existsb (fun r => rid r =? i) l = existsb (fun z => z =? i) (List.map rid l).
Proof. induction l as [|r l IH]; simpl; [reflexivity|]. by rewrite IH. Qed.

Lemma find_known {A} (p : A -> bool) l :
  existsb p l = match List.find p l with Some _ => true | None => false end.
Proof.
  induction l as [|x l IH]; simpl; [reflexivity|]. destruct (p x); [reflexivity|exact IH].
Qed.

Lemma inbound_round_quiet updates acc recordId s t :
  in_sync s ->
  exists s',
    inboundRoutes.batch_round updates acc recordId (mkWorld s [] t)
    = (inr (if known_inbound s recordId
            then mkBatchReport (S (updated acc)) (notFound acc) (errors acc)
            else mkBatchReport (updated acc) (notFound acc ++ [recordId]) (errors acc)),
       mkWorld s' [] t)
    /\ in_sync s'
    /\ List.map InboundRecord.id (inboundRecord s')
       = List.map InboundRecord.id (inboundRecord s).
Proof.
  intros Hs. unfold known_inbound. rewrite find_known.
  unfold inboundRoutes.batch_round, try_catch, bind at 1,
    tx.inboundRecord.findUnique, prisma_call. simpl.
  destruct (List.find _ _) as [old|] eqn:Efind; simpl.
  - pose proof (find_existsb _ _ _ Efind) as [Hold _]. apply Z.eqb_eq in Hold.
    unfold bind, tx.inboundRecord.update, prisma_call. simpl. rewrite Efind. simpl.
    unfold inventoryService.onInboundUpdate, bind.
    rewrite onInboundDelete_no_fault, onInboundCreate_no_fault. simpl.
    eexists. split; [reflexivity|]. rewrite Hold. split.
    + by apply in_sync_put_inbound.
    + destruct (inbound_created_frame t
                  (tx.inboundRecord.patch (inboundRoutes.updateData updates) old)
                  (reverted recordId INBOUND
                     (set_inboundRecord
                        (List.map (fun r => if InboundRecord.id r =? recordId
                                            then tx.inboundRecord.patch
                                                   (inboundRoutes.updateData updates) r
                                            else r) (inboundRecord s))
                        (inbound_seq s) s))) as (E1 & _).
      rewrite E1. simpl. by rewrite (replaced_ids InboundRecord.id).
  - exists s. split; [reflexivity|]. split; [exact Hs|reflexivity].
Qed.

Lemma outbound_round_quiet updates acc recordId s t :
  in_sync s ->
  exists s',
    outboundRoutes.batch_round updates acc recordId (mkWorld s [] t)
    = (inr (if known_outbound s recordId
            then mkBatchReport (S (updated acc)) (notFound acc) (errors acc)
            else mkBatchReport (updated acc) (notFound acc ++ [recordId]) (errors acc)),
       mkWorld s' [] t)
    /\ in_sync s'
    /\ List.map OutboundRecord.id (outboundRecord s')
       = List.map OutboundRecord.id (outboundRecord s).
Proof.
  intros Hs. unfold known_outbound. rewrite find_known.
  unfold outboundRoutes.batch_round, try_catch, bind at 1,
    tx.outboundRecord.findUnique, prisma_call. simpl.
  destruct (List.find _ _) as [old|] eqn:Efind; simpl.
  - pose proof (find_existsb _ _ _ Efind) as [Hold _]. apply Z.eqb_eq in Hold.
    unfold bind, tx.outboundRecord.update, prisma_call. simpl. rewrite Efind. simpl.
    unfold inventoryService.onOutboundUpdate, bind.
    rewrite onOutboundDelete_no_fault, onOutboundCreate_no_fault. simpl.
    eexists. split; [reflexivity|]. rewrite Hold. split.
    + by apply in_sync_put_outbound.
    + destruct (outbound_created_frame t
                  (tx.outboundRecord.patch (outboundRoutes.batch_data updates old) old)
                  (reverted recordId OUTBOUND
                     (set_outboundRecord
                        (List.map (fun r => if OutboundRecord.id r =? recordId
                                            then tx.outboundRecord.patch
                                                   (outboundRoutes.batch_data updates old) r
                                            else r) (outboundRecord s))
                        (outbound_seq s) s))) as (_ & _ & E3 & _).
      rewrite E3. simpl. by rewrite (replaced_ids OutboundRecord.id).
  - exists s. split; [reflexivity|]. split; [exact Hs|reflexivity].
Qed.

Lemma fold_each_quiet (round : BatchReport -> Z -> M BatchReport)
    (known : Store -> Z -> bool) t :
  (forall acc recordId s,
      in_sync s ->
      exists s',
        round acc recordId (mkWorld s [] t)
        = (inr (if known s recordId
                then mkBatchReport (S (updated acc)) (notFound acc) (errors acc)
                else mkBatchReport (updated acc) (notFound acc ++ [recordId]) (errors acc)),
           mkWorld s' [] t)
        /\ in_sync s'
        /\ forall id, known s' id = known s id) ->
  forall ids acc s,
    in_sync s ->
    exists s',
      fold_each ids round acc (mkWorld s [] t)
      = (inr (mkBatchReport
                (updated acc + length (List.filter (known s) ids))
                (notFound acc ++ List.filter (fun id => negb (known s id)) ids)
                (errors acc)),
         mkWorld s' [] t)
      /\ in_sync s'.
Proof.
  intros Hround ids. induction ids as [|id ids IH]; intros acc s Hs; simpl.
  - exists s. split; [|exact Hs]. unfold ret. rewrite Nat.add_0_r, app_nil_r.
    by destruct acc.
  - destruct (Hround acc id s Hs) as (s1 & Hrun & Hs1 & Hknown).
    destruct (IH (if known s id
                  then mkBatchReport (S (updated acc)) (notFound acc) (errors acc)
                  else mkBatchReport (updated acc) (notFound acc ++ [id]) (errors acc))
                 s1 Hs1) as (s' & Hrest & Hs').
    exists s'. split; [|exact Hs']. unfold bind. rewrite Hrun, Hrest.
    rewrite (filter_ext _ _ (Hknown)).
    rewrite (filter_ext (fun id => negb (known s1 id)) (fun id => negb (known s id)))
      by (intros x; by rewrite Hknown).
    destruct (known s id); simpl; do 2 f_equal.
    + f_equal. lia.
    + by rewrite <- app_assoc.
Qed.

(** X13.  Without database faults, a batch update of a database in sync
    leaves it in sync, and reports no error, the ids the table does not
    hold as [notFound], in request order, and the others as updated. *)
Theorem X13_batch_keeps_sync :
  forall (s : Store) (t : string) (ids : list Z)
         (inbound : InboundData.t) (outbound : OutboundData.t) (other_columns : bool),
    in_sync s ->
    ids <> [] ->
    inboundRoutes.no_update inbound other_columns = false ->
    outboundRoutes.no_update outbound other_columns = false ->
    (exists s',
        inboundRoutes.batch (inboundRoutes.mkBatchBody (Some ids) (Some inbound) other_columns)
                            (mkWorld s [] t)
        = (inr (Completed (clean_report (known_inbound s) ids)), mkWorld s' [] t)
        /\ in_sync s')
    /\ (exists s',
        outboundRoutes.batch
          (outboundRoutes.mkBatchBody (Some ids) (Some outbound) other_columns)
          (mkWorld s [] t)
        = (inr (Completed (clean_report (known_outbound s) ids)), mkWorld s' [] t)
        /\ in_sync s').
Proof.
  intros s t ids inb outb other Hs Hids Hin Hout. split.
  - destruct (fold_each_quiet (inboundRoutes.batch_round inb) known_inbound t) with
      (ids := ids) (acc := mkBatchReport 0 [] 0) (s := s) as (s' & Hrun & Hs'); [|exact Hs|].
    + intros acc id s0 Hs0.
      destruct (inbound_round_quiet inb acc id s0 t Hs0) as (s1 & Hrun & Hs1 & Hids1).
      exists s1. split; [exact Hrun|]. split; [exact Hs1|].
      intros x. unfold known_inbound. by rewrite !(existsb_ids InboundRecord.id), Hids1.
    + exists s'. split; [|exact Hs'].
      unfold inboundRoutes.batch, try_catch. simpl. rewrite Hin.
      destruct ids as [|id rest]; [contradiction|].
      unfold bind. rewrite Hrun. reflexivity.
  - destruct (fold_each_quiet (outboundRoutes.batch_round outb) known_outbound t) with
      (ids := ids) (acc := mkBatchReport 0 [] 0) (s := s) as (s' & Hrun & Hs'); [|exact Hs|].
    + intros acc id s0 Hs0.
      destruct (outbound_round_quiet outb acc id s0 t Hs0) as (s1 & Hrun & Hs1 & Hids1).
      exists s1. split; [exact Hrun|]. split; [exact Hs1|].
      intros x. unfold known_outbound. by rewrite !(existsb_ids OutboundRecord.id), Hids1.
    + exists s'. split; [|exact Hs'].
      unfold outboundRoutes.batch. simpl. rewrite Hout.
      destruct ids as [|id rest]; [contradiction|].
      unfold try_catch, bind. rewrite Hrun. reflexivity.
Qed.

(* ===================================================================== *)
(** * The FIFO loop: value, bounds and order                            *)
(* ===================================================================== *)

Lemma consume_step charge batch rest qty cost :
  0 < qty ->
  0 < quantity_remaining batch ->
  consume charge (batch :: rest) qty cost
  = let taken := Z.min (quantity_remaining batch) qty in
    let cost' := if charge
                 then (cost + inject_Z taken * unit_price batch)%Q
                 else cost in
    if quantity_remaining batch <=? qty
    then consume charge rest (qty - quantity_remaining batch) cost'
    else (mkBatch (quantity_remaining batch - qty) (unit_price batch) :: rest, 0, cost').
Proof.
  intros Hq Hr. rewrite consume_unfold.
  destruct (Z.ltb_spec 0 qty) as [_|]; [|lia]. cbv zeta.
  destruct (Z.leb_spec (quantity_remaining batch) qty) as [Hle|Hgt].
  - replace (Z.min (quantity_remaining batch) qty) with (quantity_remaining batch) by lia.
    rewrite Z.sub_diag. reflexivity.
  - replace (Z.min (quantity_remaining batch) qty) with qty by lia.
    destruct (Z.leb_spec (quantity_remaining batch - qty) 0); [lia|].
    rewrite consume_done by lia. rewrite Z.sub_diag. reflexivity.
Qed.



(** X16.  The loop consumes from the front: the queue it leaves is the
    queue it found without its first [k] batches, the first of those left
    possibly with a smaller (still positive) remaining quantity and its
    unit price unchanged. *)
Theorem X16_fifo_consumes_a_prefix :
  forall (batches : list Batch) (charge : bool) (qtyToFulfill : Z) (cost : Decimal.t),
    in_stock batches ->
    let batches' := fst (fst (consume charge batches qtyToFulfill cost)) in
    exists k : nat,
      batches' = drop k batches
      \/ exists batch remaining,
           batches !! k = Some batch
           /\ 0 < remaining < quantity_remaining batch
           /\ batches' = mkBatch remaining (unit_price batch) :: drop (S k) batches.
Proof.
  intros batches charge qty cost Hstock. revert qty cost.
  induction Hstock as [|batch rest Hpos Hrest IH]; intros qty cost; cbv zeta.
  - rewrite consume_empty. exists 0%nat. by left.
  - destruct (Z.le_gt_cases qty 0) as [Hq|Hq].
    + rewrite consume_done by exact Hq. exists 0%nat. by left.
    + rewrite consume_step by lia. cbv zeta.
      destruct (Z.leb_spec (quantity_remaining batch) qty) as [Hle|Hgt].
      * match goal with |- context [consume charge rest ?q ?c] =>
          destruct (IH q c) as [k Hk] end.
        exists (S k). exact Hk.
      * exists 0%nat. right. exists batch, (quantity_remaining batch - qty).
        split; [reflexivity|]. split; [lia|reflexivity].
Qed.

(* ===================================================================== *)
(** * Queues, partners and rows of the matcher                          *)
(* ===================================================================== *)

(** X17.  A round of the loop over the outbound records changes the queue
    of the record's own product at most, and only when that product has
    a queue: it never creates one. *)
Theorem X17_process_touches_one_queue :
  forall (startDate endDate : string) (codeMap shortMap : gmap string Partner.t)
         (st : gmap string (list Batch) * list Processed.t)
         (outRecord : OutboundRecord.t) (product_model : string),
    fst (process startDate endDate codeMap shortMap st outRecord) !! product_model
    = fst st !! product_model
    \/ (OutboundRecord.product_model outRecord = Some product_model
        /\ is_Some (fst st !! product_model)).
Proof.
  intros startDate endDate codeMap shortMap [inventoryState rows] r m. unfold process.
  destruct (falsy_string (OutboundRecord.product_model r)) eqn:Em; [by left|].
  destruct (falsy_number (OutboundRecord.quantity r)) eqn:Eq; [by left|]. cbn [orb].
  destruct (consume _ _ _ _) as [[batches' unmet] cost].
  set (model := default "" (OutboundRecord.product_model r)).
  assert (Hst : (match inventoryState !! model with
                 | Some _ => <[model := batches']> inventoryState
                 | None => inventoryState
                 end !! m = inventoryState !! m)
                \/ (OutboundRecord.product_model r = Some m /\ is_Some (inventoryState !! m))).
  { destruct (inventoryState !! model) as [q|] eqn:E; [|by left].
    destruct (decide (model = m)) as [<-|Hne].
    - right. split; [|by rewrite E].
      subst model. by destruct (OutboundRecord.product_model r).
    - left. by rewrite lookup_insert_ne. }
  destruct (resolve_partner _ _ _); [destruct (isTarget _ _ _)|]; exact Hst.
Qed.



Lemma index_some key m partners k p :
  index_partners key m partners !! k = Some p ->
  m !! k = Some p \/ (In p partners /\ key p = Some k /\ k <> "").
Proof.
  revert m. induction partners as [|q partners IH]; intros m; simpl; [by left|].
  intros H. apply IH in H as [H|(Hin & Hk)]; [|right; tauto].
  destruct (key q) as [kq|] eqn:Ekq; simpl in H; [|by left].
  destruct (String.eqb_spec kq "") as [->|Hne]; [by left|].
  destruct (decide (kq = k)) as [->|Hk].
  - rewrite lookup_insert_eq in H. injection H as ->. right. tauto.
  - rewrite lookup_insert_ne in H by done. by left.
Qed.

Lemma index_none key m partners k :
  index_partners key m partners !! k = None ->
  m !! k = None /\ forall p, In p partners -> key p = Some k -> k = "".
Proof.
  revert m. induction partners as [|q partners IH]; intros m; simpl; [by split|].
  intros H. apply IH in H as [H Hrest].
  destruct (key q) as [kq|] eqn:Ekq; simpl in H.
  - destruct (String.eqb_spec kq "") as [->|Hne].
    + split; [exact H|]. intros p [<-|Hin] Hp; [congruence|by apply (Hrest p)].
    + destruct (decide (kq = k)) as [->|Hk].
      * by rewrite lookup_insert_eq in H.
      * rewrite lookup_insert_ne in H by done. split; [exact H|].
        intros p [<-|Hin] Hp; [congruence|by apply (Hrest p)].
  - split; [exact H|]. intros p [<-|Hin] Hp; [congruence|by apply (Hrest p)].
Qed.

(** X19.  Partner resolution.  A resolved partner is one of the partners,
    and it carries the record's customer code; or no partner carries that
    code (or the record has none) and it carries the record's customer
    short name.  A record stays unresolved only when no partner carries
    its code and none carries its short name. *)
Theorem X19_resolve_partner_by_code_first :
  forall (partners : list Partner.t) (outRecord : OutboundRecord.t),
    let code := OutboundRecord.customer_code outRecord in
    let short := OutboundRecord.customer_short_name outRecord in
    let no_code_match :=
      forall q, In q partners -> falsy_string code = true \/ Partner.code q <> code in
    match resolve_partner (partnerCodeMap partners) (partnerShortMap partners) outRecord with
    | Some p =>
        In p partners
        /\ ((falsy_string code = false /\ Partner.code p = code)
            \/ (no_code_match
                /\ falsy_string short = false /\ Partner.short_name p = short))
    | None =>
        no_code_match
        /\ forall q, In q partners ->
             falsy_string short = true \/ Partner.short_name q <> short
    end.
Proof.
  intros partners r code short no_code_match. unfold resolve_partner.
  fold code short.
  assert (Hcode : partnerCodeMap partners !! default "" code = None ->
                  no_code_match).
  { intros Hnone q Hq.
    destruct (index_none Partner.code ∅ partners _ Hnone) as [_ H].
    destruct code as [c|]; [|by left].
    destruct (String.eqb_spec c "") as [->|Hne]; [by left|].
    right. intros Hqc. apply Hne. by apply (H q). }
  assert (Hfalsy : falsy_string code = true -> no_code_match).
  { intros H q _. by left. }
  destruct (falsy_string code) eqn:Ec; cbn [negb andb].
  - specialize (Hfalsy eq_refl).
    destruct (falsy_string short) eqn:Es; cbn [negb andb].
    + split; [exact Hfalsy|]. intros q _. by left.
    + destruct (partnerShortMap partners !! default "" short) as [p|] eqn:Ep;
        [rewrite bool_decide_eq_true_2 by eauto|rewrite bool_decide_eq_false_2 by (by intros [? ?])].
      * apply (index_some Partner.short_name) in Ep as [Ep|(Hin & Hk & _)];
          [by rewrite lookup_empty in Ep|].
        split; [exact Hin|]. right. split; [exact Hfalsy|]. split; [reflexivity|].
        rewrite Hk. by destruct short.
      * split; [exact Hfalsy|]. intros q Hq. right. intros Hqs.
        destruct (index_none Partner.short_name ∅ partners _ Ep) as [_ H].
        destruct short as [c|]; [|discriminate]. simpl in *.
        apply String.eqb_neq in Es. apply Es. by apply (H q).
  - destruct (partnerCodeMap partners !! default "" code) as [p|] eqn:Ep;
      [rewrite bool_decide_eq_true_2 by eauto|rewrite bool_decide_eq_false_2 by (by intros [? ?])].
    + apply (index_some Partner.code) in Ep as [Ep|(Hin & Hk & _)];
        [by rewrite lookup_empty in Ep|].
      split; [exact Hin|]. left. split; [reflexivity|].
      rewrite Hk. by destruct code.
    + specialize (Hcode eq_refl).
      destruct (falsy_string short) eqn:Es; cbn [negb andb].
      * split; [exact Hcode|]. intros q _. by left.
      * destruct (partnerShortMap partners !! default "" short) as [p|] eqn:Eq;
          [rewrite bool_decide_eq_true_2 by eauto
          |rewrite bool_decide_eq_false_2 by (by intros [? ?])].
        -- apply (index_some Partner.short_name) in Eq as [Eq|(Hin & Hk & _)];
             [by rewrite lookup_empty in Eq|].
           split; [exact Hin|]. right. split; [exact Hcode|]. split; [reflexivity|].
           rewrite Hk. by destruct short.
        -- split; [exact Hcode|]. intros q Hq. right. intros Hqs.
           destruct (index_none Partner.short_name ∅ partners _ Eq) as [_ H].
           destruct short as [c|]; [|discriminate]. simpl in *.
           apply String.eqb_neq in Es. apply Es. by apply (H q).
Qed.




(* ===================================================================== *)
(** * Rounding                                                          *)
(* ===================================================================== *)

Lemma scale_pos dp : 0 < 10 ^ Z.of_nat dp.
Proof. apply Z.pow_pos_nonneg; lia. Qed.

Lemma scale_Q_pos dp : (0 < inject_Z (10 ^ Z.of_nat dp))%Q.
Proof. change 0%Q with (inject_Z 0). rewrite <- Zlt_Qlt. apply scale_pos. Qed.

Lemma toFixed_spec d dp :
  (Decimal.toFixed d dp
   == inject_Z (if Qle_bool 0 d
                then Qfloor (Qabs d * inject_Z (10 ^ Z.of_nat dp) + (1 # 2))
                else - Qfloor (Qabs d * inject_Z (10 ^ Z.of_nat dp) + (1 # 2)))
      / inject_Z (10 ^ Z.of_nat dp))%Q.
Proof.
  unfold Decimal.toFixed. cbv zeta. rewrite Qmake_Qdiv.
  rewrite Z2Pos.id by apply scale_pos. reflexivity.
Qed.

Lemma toFixed_wd d d' dp : (d == d')%Q -> Decimal.toFixed d dp = Decimal.toFixed d' dp.
Proof.
  intros H. unfold Decimal.toFixed. cbv zeta.
  assert (Hb : Qle_bool 0 d = Qle_bool 0 d') by (by rewrite H).
  assert (Hf : Qfloor (Qabs d * inject_Z (10 ^ Z.of_nat dp) + (1 # 2))
               = Qfloor (Qabs d' * inject_Z (10 ^ Z.of_nat dp) + (1 # 2)))
    by (by rewrite H).
  by rewrite Hb, Hf.
Qed.







Lemma toFixed_opp d dp : (Decimal.toFixed (- d) dp == - Decimal.toFixed d dp)%Q.
Proof.
  rewrite !toFixed_spec.
  set (scale := inject_Z (10 ^ Z.of_nat dp)).
  assert (Hs : (0 < scale)%Q) by apply scale_Q_pos.
  assert (Hf : Qfloor (Qabs (- d) * scale + (1 # 2)) = Qfloor (Qabs d * scale + (1 # 2)))
    by (by rewrite Qabs_opp).
  rewrite Hf. set (n := Qfloor (Qabs d * scale + (1 # 2))).
  destruct (Qle_bool 0 d) eqn:H1, (Qle_bool 0 (- d)) eqn:H2.
  - apply Qle_bool_iff in H1, H2.
    assert (Hd : (d == 0)%Q) by lra.
    assert (Hn : n = 0).
    { unfold n. rewrite Hd. reflexivity. }
    rewrite Hn. simpl. field. lra.
  - rewrite inject_Z_opp. field. lra.
  - rewrite inject_Z_opp. field. lra.
  - exfalso.
    assert (Hd : ~ (0 <= d)%Q) by (intros H; apply Qle_bool_iff in H; congruence).
    assert (Hd' : ~ (0 <= - d)%Q) by (intros H; apply Qle_bool_iff in H; congruence).
    lra.
Qed.

(** X24.  Rounding is symmetric about zero, so swapping the two amounts of
    [calculateBalance] negates the balance. *)
Theorem X24_calculateBalance_antisymmetric :
  forall (totalAmount paidAmount : DecimalArg),
    (decimalCalc.calculateBalance totalAmount paidAmount
     == - decimalCalc.calculateBalance paidAmount totalAmount)%Q.
Proof.
  intros a b. unfold decimalCalc.calculateBalance, decimalCalc.toNumber, Decimal.sub.
  cbv zeta. rewrite <- toFixed_opp.
  rewrite (toFixed_wd (decimalCalc.decimal a - decimalCalc.decimal b)
                      (- (decimalCalc.decimal b - decimalCalc.decimal a)) 5) by ring.
  reflexivity.
Qed.





(* ===================================================================== *)
(** * Further scenarios                                                 *)
(* ===================================================================== *)

Lemma synced_store_in_sync : in_sync synced_store.
Proof.
  constructor; simpl.
  - intros m. unfold query, ledger_sum, synced_store.
    cbn [inventory inventoryLedger foldr LedgerEntry.product_model LedgerEntry.change_qty].
    destruct (String.eqb_spec "X" m) as [<-|Hne].
    + by rewrite lookup_singleton_eq.
    + by rewrite lookup_singleton_ne.
  - reflexivity.
  - apply NoDup_singleton.
  - apply NoDup_singleton.
  - repeat constructor.
  - repeat constructor.
Qed.

(** X3.  The projection a rebuild leaves depends on the source records
    only: two rebuilds over tables holding the same inbound and outbound
    rows, in whatever storage order, at whatever times, over whatever
    ledger and projection, leave the same projection.  (A second rebuild
    right after a first is a case of this.) *)
Theorem X3_rebuild_depends_on_sources_only :
  forall (w1 w2 : World),
    Permutation (inboundRecord (db w1)) (inboundRecord (db w2)) ->
    Permutation (outboundRecord (db w1)) (outboundRecord (db w2)) ->
    match inventoryService.recalculateAll w1, inventoryService.recalculateAll w2 with
    | (inr _, w1'), (inr _, w2') => inventory (db w1') = inventory (db w2')
    | _, _ => True
    end.
Proof.
  intros w1 w2 Hi Ho.
  destruct (inventoryService.recalculateAll w1) as [[e1|r1] w1'] eqn:H1; [exact I|].
  destruct (inventoryService.recalculateAll w2) as [[e2|r2] w2'] eqn:H2; [exact I|].
  apply recalculateAll_inr in H1 as [-> _]. apply recalculateAll_inr in H2 as [-> _].
  by apply rebuilt_inventory_sources.
Qed.

Lemma X3_rebuild_depends_on_sources_only_witness :
  match inventoryService.recalculateAll
          (mkWorld early_shipment_store [] "2024-06-01T00:00:00.000Z"),
        inventoryService.recalculateAll
          (mkWorld early_shipment_store_reversed [false] "2025-01-01T00:00:00.000Z") with
  | (inr _, w1'), (inr _, w2') => inventory (db w1') = inventory (db w2')
  | _, _ => True
  end.
Proof.
  apply (X3_rebuild_depends_on_sources_only
           (mkWorld early_shipment_store [] "2024-06-01T00:00:00.000Z")
           (mkWorld early_shipment_store_reversed [false] "2025-01-01T00:00:00.000Z")).
  - simpl. apply perm_swap.
  - simpl. reflexivity.
Defined.

Lemma X11_reconcile_failure_leaves_drift_witness :
  handle (PostInbound (InboundData.mk (Some (Some "Y")) (Some (Some 3)) None None))
         second_call_fails
  = (inr 500,
     mkWorld (set_inboundRecord
                (inboundRecord synced_store
                 ++ [InboundRecord.mk 2 (Some "Y") (Some 3) None None]) 3 synced_store)
             [] "2024-06-01T00:00:00.000Z")
  /\ handle (DeleteOutbound 1) second_call_fails
     = (inr 500,
        mkWorld (set_outboundRecord [] 2 synced_store) [] "2024-06-01T00:00:00.000Z").
Proof.
  pose proof (X11_reconcile_failure_leaves_drift second_call_fails []
                (InboundData.mk (Some (Some "Y")) (Some (Some 3)) None None)
                (OutboundData.mk (Some (Some "Y")) (Some (Some 3)) None None None None None)
                1 1 eq_refl eq_refl eq_refl eq_refl eq_refl) as (H1 & _ & _ & H4).
  split; [exact H1|exact H4].
Defined.

Lemma X13_batch_keeps_sync_witness :
  (exists s',
      inboundRoutes.batch
        (inboundRoutes.mkBatchBody (Some [1; 7])
           (Some (InboundData.mk None (Some (Some 12)) None None)) false)
        (mkWorld synced_store [] "2024-06-01T00:00:00.000Z")
      = (inr (Completed (mkBatchReport 1 [7] 0)),
         mkWorld s' [] "2024-06-01T00:00:00.000Z")
      /\ in_sync s')
  /\ (exists s',
      outboundRoutes.batch
        (outboundRoutes.mkBatchBody (Some [1; 7])
           (Some (OutboundData.mk None (Some (Some 3)) None None None None None)) false)
        (mkWorld synced_store [] "2024-06-01T00:00:00.000Z")
      = (inr (Completed (mkBatchReport 1 [7] 0)),
         mkWorld s' [] "2024-06-01T00:00:00.000Z")
      /\ in_sync s').
Proof.
  apply (X13_batch_keeps_sync synced_store "2024-06-01T00:00:00.000Z" [1; 7]
           (InboundData.mk None (Some (Some 12)) None None)
           (OutboundData.mk None (Some (Some 3)) None None None None None) false).
  - exact synced_store_in_sync.
  - discriminate.
  - reflexivity.
  - reflexivity.
Defined.



Lemma X16_fifo_consumes_a_prefix_witness :
  let batches' := fst (fst (consume true [mkBatch 4 5; mkBatch 3 8] 5 0%Q)) in
  exists k : nat,
    batches' = drop k [mkBatch 4 5; mkBatch 3 8]
    \/ exists batch remaining,
         [mkBatch 4 5; mkBatch 3 8] !! k = Some batch
         /\ 0 < remaining < quantity_remaining batch
         /\ batches' = mkBatch remaining (unit_price batch)
                       :: drop (S k) [mkBatch 4 5; mkBatch 3 8].
Proof.
  apply (X16_fifo_consumes_a_prefix [mkBatch 4 5; mkBatch 3 8] true 5 0%Q).
  repeat constructor.
Defined.

(* ===================================================================== *)
(** * Objects as dictionaries                                           *)
(* ===================================================================== *)



Lemma Dict_read_Some {V} (d : Dict.t V) k v :
  Dict.read d k = Some v -> In (k, v) d.
Proof.
  induction d as [|[k0 v0] d IH]; simpl; [discriminate|].
  destruct (String.eqb_spec k0 k) as [->|Hne].
  - intros [= ->]. by left.
  - intros Hr. right. by apply IH.
Qed.



Section Accumulate.

Context {R V : Type}.
Variable key : R -> string.
Variable init : R -> V.
Variable step : R -> V -> V.




End Accumulate.

(* ===================================================================== *)
(** * The analysis reports                                              *)
(* ===================================================================== *)





Section Summaries.

Context `{Arithmetic}.
Context {V L X : Type}.
Variable of_row : Processed.t -> string * L.
Variable key_of : L -> string.
Variable init : Processed.t -> V.
Variable step : Processed.t -> V -> V.
Variable vlabel : V -> L.
Variable vtotals : V -> Totals.t.

Hypothesis key_of_row : forall r, key_of (of_row r).2 = (of_row r).1.
Hypothesis init_label : forall r, vlabel (init r) = (of_row r).2.
Hypothesis init_totals : forall r, vtotals (init r) = no_totals.
Hypothesis step_label : forall r v, vlabel (step r v) = vlabel v.
Hypothesis step_totals : forall r v, vtotals (step r v) = add_row (vtotals v) r.

Let key (r : Processed.t) : string := (of_row r).1.





Variable kept : L -> bool.
Variable post : V -> X.
Variable label : X -> L.
Variable totals : X -> Totals.t.

Hypothesis post_label : forall v, label (post v) = vlabel v.
Hypothesis post_totals : forall v, totals (post v) = with_rate (vtotals v).


End Summaries.

Section ReportProofs.

Context `{Arithmetic}.
Context {L L' : Type}.
Variable outer : Processed.t -> string * L.
Variable inner : Processed.t -> string * L'.
Variable outer_key : L -> string.
Variable inner_key : L' -> string.

Hypothesis outer_key_of_row : forall r, outer_key (outer r).2 = (outer r).1.
Hypothesis inner_key_of_row : forall r, inner_key (inner r).2 = (inner r).1.

Lemma by_sales_Permutation {X} (totals : X -> Totals.t) l :
  Permutation (by_sales totals l) l.
Proof. apply sort_by_Permutation. Qed.





End ReportProofs.

Lemma StronglySorted_weaken {A} (R R' : A -> A -> Prop) l :
  (forall a b, R a b -> R' a b) -> StronglySorted R l -> StronglySorted R' l.
Proof.
  intros HR. induction 1 as [|x l Hl IH Hx]; constructor; [exact IH|].
  eapply Forall_impl; [exact Hx|]. intros y. apply HR.
Qed.





Section Descending.

Context `{Arithmetic}.

(** The comparison of sales is consistent: of two numbers one is not
    above the other, and "not above" is transitive. *)
Hypothesis above_asym :
  forall x y, positive (minus y x) = true -> positive (minus x y) = false.
Hypothesis not_above_trans :
  forall x y z, positive (minus y x) = false -> positive (minus z y) = false ->
                positive (minus z x) = false.

Lemma by_sales_descending {X} (totals : X -> Totals.t) l :
  descending totals (by_sales totals l).
Proof.
  unfold descending, by_sales.
  pose proof (sort_by_sorted
    (fun a b : X => negb (positive (minus (Totals.sales_amount (totals b))
                                          (Totals.sales_amount (totals a)))))) as Hs.
  eapply StronglySorted_weaken; [|apply Hs].
  - intros a b Hab. by apply negb_true_iff in Hab.
  - intros x y Hxy. apply negb_false_iff in Hxy. apply negb_true_iff.
    by apply above_asym.
  - intros x y z Hxy Hyz. apply negb_true_iff in Hxy, Hyz. apply negb_true_iff.
    by eapply not_above_trans.
Qed.

Lemma descending_filter {X} (totals : X -> Totals.t) (p : X -> bool) l :
  descending totals l -> descending totals (List.filter p l).
Proof.
  unfold descending. induction 1 as [|x l Hl IH Hx]; simpl; [constructor|].
  destruct (p x); [|exact IH]. constructor; [exact IH|].
  apply Forall_forall. intros y Hy. apply list_elem_of_In, filter_In in Hy as [Hy _].
  rewrite Forall_forall in Hx. apply Hx. by apply list_elem_of_In.
Qed.

End Descending.

(** X29.  When the comparison of sales is consistent (of two numbers one
    is not above the other, and "not above" is transitive), both reports
    come in descending order of sales, and so do the details of each of
    their groups. *)
Theorem X29_reports_descending :
  forall `{Arithmetic},
    (forall x y, positive (minus y x) = true -> positive (minus x y) = false) ->
    (forall x y z, positive (minus y x) = false -> positive (minus z y) = false ->
                   positive (minus z x) = false) ->
  forall (trim : string -> string) (startDate endDate : string) (w : World),
    match getCustomerAnalysisData startDate endDate w with
    | (inr report, _) =>
        descending Group.totals report
        /\ Forall (fun g => descending Line.totals (Group.details g)) report
    | (inl _, _) => True
    end
    /\ match getProductAnalysisData trim startDate endDate w with
       | (inr report, _) =>
           descending Group.totals report
           /\ Forall (fun g => descending Line.totals (Group.details g)) report
       | (inl _, _) => True
       end.
Proof.
  intros A above_asym not_above_trans trim startDate endDate w.
  assert (Hdetails : forall {L L'} (l : list (Entry.t L L')),
             Forall (fun g => descending Line.totals (Group.details g))
                    (List.map finish l)).
  { intros L L' l. apply Forall_map, Forall_forall. intros e _. by apply by_sales_descending. }
  unfold getCustomerAnalysisData, getProductAnalysisData, try_catch, bind.
  destruct (calculateFIFOData startDate endDate w) as [[e|records] w1]; [by split|].
  cbv zeta. unfold ret. split; (split; [by apply by_sales_descending|]).
  - eapply Permutation_Forall; [symmetry; apply by_sales_Permutation|]. apply Hdetails.
  - eapply Permutation_Forall; [symmetry; apply by_sales_Permutation|].
    apply Forall_forall. intros g Hg. apply list_elem_of_In, filter_In in Hg as [Hg _].
    pose proof (Hdetails _ _ (Dict.values (foldl (tally product_of customer_of)
                                                  Dict.empty records))) as Hall.
    rewrite Forall_forall in Hall. apply Hall. by apply list_elem_of_In.
Qed.

Lemma exact_above_asym (x y : Q) :
  negb (Qle_bool (y - x) 0) = true -> negb (Qle_bool (x - y) 0) = false.
Proof.
  intros Hxy. apply negb_true_iff in Hxy. apply negb_false_iff, Qle_bool_iff.
  assert (~ (y - x <= 0)%Q) by (intros Hle; apply Qle_bool_iff in Hle; congruence).
  lra.
Qed.

Lemma exact_not_above_trans (x y z : Q) :
  negb (Qle_bool (y - x) 0) = false -> negb (Qle_bool (z - y) 0) = false ->
  negb (Qle_bool (z - x) 0) = false.
Proof.
  intros Hxy Hyz. apply negb_false_iff, Qle_bool_iff in Hxy, Hyz.
  apply negb_false_iff, Qle_bool_iff. lra.
Qed.

Lemma X29_reports_descending_witness :
  match getCustomerAnalysisData (H := exact_arithmetic) "2024-03-01" "2024-03-31"
          (mkWorld early_shipment_store [] "2024-06-01T00:00:00.000Z") with
  | (inr report, _) =>
      descending Group.totals report
      /\ Forall (fun g => descending Line.totals (Group.details g)) report
  | (inl _, _) => True
  end
  /\ match getProductAnalysisData (H := exact_arithmetic) (fun s => s)
             "2024-03-01" "2024-03-31"
             (mkWorld early_shipment_store [] "2024-06-01T00:00:00.000Z") with
     | (inr report, _) =>
         descending Group.totals report
         /\ Forall (fun g => descending Line.totals (Group.details g)) report
     | (inl _, _) => True
     end.
Proof.
  apply (X29_reports_descending (H := exact_arithmetic)
           exact_above_asym exact_not_above_trans (fun s => s)
           "2024-03-01" "2024-03-31"
           (mkWorld early_shipment_store [] "2024-06-01T00:00:00.000Z")).
Defined.

(* ===================================================================== *)
(** * The cost estimate of the stock                                    *)
(* ===================================================================== *)










